(** * Quasarr: link-container decryption and outlier-image captcha

    A shallow embedding of [quasarr/downloads/linkcrypters/al.py]:
    the [CNL] class (key fix-up, AES wrapper, clean-up of the plaintext),
    [decrypt_content], [calculate_pixel_based_difference] and
    [solve_captcha], followed by the properties of the specification that
    concern them.

    Conventions of the embedding
    - a Python [str] is the list of its code points ([list N]), [bytes] is
      [list byte];
    - a call that may raise returns a [result]; the [try]/[except] blocks
      of the source are the matches on it;
    - logging and network calls are recorded, in order, in an explicit
      trace that is threaded through the code;
    - the libraries the module imports (base64, Cryptodome, PIL) are
      interfaces ([Class]), the capabilities [solve_captcha] receives are
      function arguments, as in the source;
    - a Python [float] is the rational number it stands for: [true_div]
      gives the quotient of two integers as it is, and [float_round]
      rounds a number to the nearest float (binary64, ties to even) as
      [int / int], [float + float] and [float / int] do; the selection
      code is generic in the type of the scores and only uses their
      addition and their [>]. *)

From Stdlib Require Import ZArith NArith QArith Qround Qpower Lia List.
From Stdlib Require Import Strings.String Strings.Ascii Strings.Byte DecimalString.
From stdpp Require Import base list.
Import ListNotations.

Set Default Proof Using "Type".

(** ** Python values and exceptions *)

Abbreviation str := (list N).
Abbreviation bytes := (list byte).

(** An ASCII literal as a [str]. *)
Definition lit (s : string) : str :=
  map N_of_ascii (list_ascii_of_string s).

Inductive exn : Type :=
| KeyError (msg : string)
| ValueError (msg : string)
| RuntimeError (msg : string) (args : list str)
| ZeroDivisionError
| IndexError
| LibraryError (name : string).

Inductive result (A : Type) : Type :=
| Ok (a : A)
| Raise (e : exn).
Arguments Ok {A} a.
Arguments Raise {A} e.

#[global] Instance result_ret : MRet result := @Ok.

#[global] Instance result_bind : MBind result :=
  fun A B (k : A -> result B) (r : result A) =>
    match r with
    | Ok a => k a
    | Raise e => Raise e
    end.

(** Truthiness of a [str] and of an optional [str] ([None] and the empty
    string are false). *)
Definition truthy (s : str) : bool :=
  match s with [] => false | _ :: _ => true end.

Definition truthy_opt (o : option str) : bool :=
  match o with Some s => truthy s | None => false end.

(** [needle in haystack] for strings: some suffix of the haystack starts
    with the needle; code points are compared as they are. *)
Fixpoint startswith (s prefix : str) : bool :=
  match prefix, s with
  | [], _ => true
  | _ :: _, [] => false
  | p :: prefix', c :: s' => (c =? p)%N && startswith s' prefix'
  end.

Fixpoint str_in (needle haystack : str) : bool :=
  startswith haystack needle ||
  match haystack with
  | [] => false
  | _ :: rest => str_in needle rest
  end.

(** [bytes.replace(old, new)] for a one-byte [old]. *)
Definition bytes_replace (old : byte) (new : bytes) (s : bytes) : bytes :=
  flat_map (fun b => if Byte.eqb b old then new else [b]) s.

(** [bytes.decode("utf-8")], strict: shortest form only, no surrogates,
    nothing above U+10FFFF.  [None] is [UnicodeDecodeError]. *)
Definition in_range (lo hi c : N) : bool := ((lo <=? c) && (c <=? hi))%N.

Definition continuation (c : N) : bool := in_range 0x80 0xBF c.

Fixpoint utf8_decode (s : bytes) : option str :=
  match s with
  | [] => Some []
  | b0 :: r0 =>
    let c0 := Byte.to_N b0 in
    if (c0 <? 0x80)%N then cons c0 <$> utf8_decode r0
    else if in_range 0xC2 0xDF c0 then
      match r0 with
      | b1 :: r1 =>
        let c1 := Byte.to_N b1 in
        if continuation c1
        then cons ((c0 - 0xC0) * 0x40 + (c1 - 0x80))%N <$> utf8_decode r1
        else None
      | _ => None
      end
    else if in_range 0xE0 0xEF c0 then
      match r0 with
      | b1 :: b2 :: r2 =>
        let c1 := Byte.to_N b1 in
        let c2 := Byte.to_N b2 in
        let lo := if (c0 =? 0xE0)%N then 0xA0%N else 0x80%N in
        let hi := if (c0 =? 0xED)%N then 0x9F%N else 0xBF%N in
        if in_range lo hi c1 && continuation c2
        then cons ((c0 - 0xE0) * 0x1000 + (c1 - 0x80) * 0x40 + (c2 - 0x80))%N
               <$> utf8_decode r2
        else None
      | _ => None
      end
    else if in_range 0xF0 0xF4 c0 then
      match r0 with
      | b1 :: b2 :: b3 :: r3 =>
        let c1 := Byte.to_N b1 in
        let c2 := Byte.to_N b2 in
        let c3 := Byte.to_N b3 in
        let lo := if (c0 =? 0xF0)%N then 0x90%N else 0x80%N in
        let hi := if (c0 =? 0xF4)%N then 0x8F%N else 0xBF%N in
        if in_range lo hi c1 && continuation c2 && continuation c3
        then cons ((c0 - 0xF0) * 0x40000 + (c1 - 0x80) * 0x1000
                   + (c2 - 0x80) * 0x40 + (c3 - 0x80))%N
               <$> utf8_decode r3
        else None
      | _ => None
      end
    else None
  end.

(** The code points at which [str.splitlines] ends a line:
    LF, VT, FF, CR, FS, GS, RS, NEL, LS, PS. *)
Definition is_linebreak (c : N) : bool :=
  ((c =? 0x0A) || (c =? 0x0B) || (c =? 0x0C) || (c =? 0x0D) || (c =? 0x1C)
   || (c =? 0x1D) || (c =? 0x1E) || (c =? 0x85) || (c =? 0x2028)
   || (c =? 0x2029))%N.

(** The code points [str.strip] removes when called without argument. *)
Definition is_whitespace (c : N) : bool :=
  in_range 0x09 0x0D c || in_range 0x1C 0x20 c || (c =? 0x85)%N
  || (c =? 0xA0)%N || (c =? 0x1680)%N || in_range 0x2000 0x200A c
  || (c =? 0x2028)%N || (c =? 0x2029)%N || (c =? 0x202F)%N
  || (c =? 0x205F)%N || (c =? 0x3000)%N.

(** [str.splitlines()] without [keepends]: CR LF is one boundary, and a
    boundary at the very end opens no further line. *)
Fixpoint splitlines (s : str) : list str :=
  match s with
  | [] => []
  | c :: r =>
    if is_linebreak c then
      match r with
      | c' :: r' =>
        if ((c =? 0x0D) && (c' =? 0x0A))%N
        then [] :: splitlines r'
        else [] :: splitlines r
      | [] => [[]]
      end
    else
      match splitlines r with
      | [] => [[c]]
      | line :: lines => (c :: line) :: lines
      end
  end.

Fixpoint lstrip (s : str) : str :=
  match s with
  | c :: r => if is_whitespace c then lstrip r else s
  | [] => []
  end.

Definition strip (s : str) : str := rev (lstrip (rev (lstrip s))).

(** [max(xs, key=key)]: the first item is the candidate, a later item
    replaces it only when its key is [>] the candidate's.  [None] is the
    [ValueError] on an empty sequence. *)
Section Max.
Context {A K : Type} (gt : K -> K -> bool) (key : A -> K).

Fixpoint max_from (best : A) (xs : list A) : A :=
  match xs with
  | [] => best
  | x :: rest =>
    if gt (key x) (key best) then max_from x rest else max_from best rest
  end.

Definition py_max (xs : list A) : option A :=
  match xs with
  | [] => None
  | x :: rest => Some (max_from x rest)
  end.

End Max.

(** ** The libraries behind [CNL._aes_decrypt]

    [base64.b64decode], [bytes.fromhex], [AES.new(key, AES.MODE_CBC, iv)]
    and [cipher.decrypt]; each may raise. *)
Class CryptoLib : Type := {
  cipher : Type;
  b64decode : str -> result bytes;
  bytes_fromhex : str -> result bytes;
  AES_new_CBC : bytes -> bytes -> result cipher;
  cipher_decrypt : cipher -> bytes -> result bytes
}.

(** ** Content items

    An item is a JSON object; [item.get(k)] is [None] when the key is
    absent.  The fields the code reads are kept, with the types the
    docstrings give them. *)
Record cnl_dict : Type := {
  cnl_jk : option str;
  cnl_crypted : option str
}.

Record content_item : Type := {
  item_hoster : option str;
  item_cnl : option cnl_dict
}.

(** [d.get(key, fallback)]. *)
Definition get_or {A} (fallback : A) (o : option A) : A :=
  match o with Some a => a | None => fallback end.

(** The empty dict [{}] that [.get("cnl", {})] falls back on. *)
Definition empty_cnl : cnl_dict := {| cnl_jk := None; cnl_crypted := None |}.

(** ** class CNL *)
Module CNL.

Record t : Type := {
  cnl_info : cnl_dict;
  jk : option str;
  crypted_blob : option str;
  fixed_key_hex : str
}.

(** Lines 43-47: the characters at positions 15 and 16 change places. *)
Definition swap_15_16 (jk : str) : result str :=
  let k_list := jk in
  if decide (length k_list <= 16) then
    Raise (ValueError "Invalid 'jk' string length; must be > 16 characters.")
  else
    match k_list !! 16, k_list !! 15 with
    | Some c16, Some c15 => Ok (<[16 := c15]> (<[15 := c16]> k_list))
    | _, _ => Raise IndexError
    end.

Definition __init__ (chosen_data : content_item) : result t :=
  let cnl_info := get_or empty_cnl (item_cnl chosen_data) in
  let jk := cnl_jk cnl_info in
  let crypted_blob := cnl_crypted cnl_info in
  if negb (truthy_opt jk) || negb (truthy_opt crypted_blob) then
    Raise (KeyError "Missing 'jk' or 'crypted' fields in JSON.")
  else
    fixed ← swap_15_16 (get_or [] jk);
    Ok {| cnl_info := cnl_info; jk := jk; crypted_blob := crypted_blob;
          fixed_key_hex := fixed |}.

Definition _aes_decrypt `{CryptoLib} (data_b64 key_hex : str) : result bytes :=
  match b64decode data_b64 with
  | Raise _ => Raise (ValueError "Failed to decode base64 data")
  | Ok encrypted_data =>
    match bytes_fromhex key_hex with
    | Raise _ => Raise (ValueError "Failed to convert key to bytes (invalid hex)")
    | Ok key_bytes =>
      let iv := key_bytes in
      cipher ← AES_new_CBC key_bytes iv;
      match cipher_decrypt cipher encrypted_data with
      | Raise _ => Raise (ValueError "AES decryption failed")
      | Ok decrypted => Ok decrypted
      end
    end
  end.

(** Lines 83-92 of [decrypt]: what happens to the decrypted buffer. *)
Definition decrypt_plain (raw_plain : bytes) : result (list str) :=
  let cleaned := bytes_replace x08 [] (bytes_replace x00 [] raw_plain) in
  match utf8_decode cleaned with
  | None => Raise (ValueError "Failed to decode decrypted data to UTF-8")
  | Some text =>
    let urls := List.filter (fun line => truthy (strip line)) (splitlines text) in
    Ok urls
  end.

Definition decrypt `{CryptoLib} (self : t) : result (list str) :=
  raw_plain ← _aes_decrypt (get_or [] (crypted_blob self)) (fixed_key_hex self);
  decrypt_plain raw_plain.

End CNL.

(** ** decrypt_content *)

(** What [info] and [debug] are called with, the interpolated values kept
    as fields. *)
Inductive log_record : Type :=
| InfoFallback (mirror : str)
| InfoMissing (idx : nat) (hoster_name : str)
| DebugDecrypted (idx : nat) (hoster_name : str) (n_urls : nat)
| InfoError (idx : nat) (hoster_name : str) (e : exn).

(** Lines 103-113: which items are processed. *)
Definition select_items (content_items : list content_item) (mirror : option str)
  : list content_item * list log_record :=
  let filtered :=
    if truthy_opt mirror
    then List.filter
           (fun item => str_in (get_or [] mirror) (get_or [] (item_hoster item)))
           content_items
    else [] in
  let '(filtered, log) :=
    if truthy_opt mirror && bool_decide (filtered = [])
    then (content_items, [InfoFallback (get_or [] mirror)])
    else (filtered, []) in
  let filtered := if negb (truthy_opt mirror) then content_items else filtered in
  (filtered, log).

(** Lines 117-134: the loop over [enumerate(filtered)]. *)
Fixpoint decrypt_loop `{CryptoLib} (idx : nat) (filtered : list content_item)
  (decrypted_links : list str) (log : list log_record)
  : list str * list log_record :=
  match filtered with
  | [] => (decrypted_links, log)
  | item :: rest =>
    let hoster_name := get_or (lit "<unknown>") (item_hoster item) in
    let cnl_info := get_or empty_cnl (item_cnl item) in
    let jnk := cnl_jk cnl_info in
    let crypted := cnl_crypted cnl_info in
    if negb (truthy_opt jnk) || negb (truthy_opt crypted) then
      decrypt_loop (S idx) rest decrypted_links
        (log ++ [InfoMissing idx hoster_name])
    else
      match decryptor ← CNL.__init__ item; CNL.decrypt decryptor with
      | Ok urls =>
        decrypt_loop (S idx) rest (decrypted_links ++ urls)
          (log ++ [DebugDecrypted idx hoster_name (length urls)])
      | Raise e =>
        decrypt_loop (S idx) rest decrypted_links
          (log ++ [InfoError idx hoster_name e])
      end
  end.

Definition decrypt_content `{CryptoLib} (content_items : list content_item)
  (mirror : option str) : list str * list log_record :=
  let '(filtered, log) := select_items content_items mirror in
  decrypt_loop 0 filtered [] log.

(** ** Images

    An RGB image as PIL holds it after normalisation: its size
    [(width, height)] and one [(R, G, B)] triple per position. *)
Record Image : Type := {
  im_size : nat * nat;
  getpixel : nat -> nat -> Z * Z * Z
}.

(** [ImageChops.difference]: channel-wise absolute difference, over the
    area the two images share. *)
Definition ImageChops_difference (image1 image2 : Image) : Image :=
  {| im_size := (Nat.min (fst (im_size image1)) (fst (im_size image2)),
                 Nat.min (snd (im_size image1)) (snd (im_size image2)));
     getpixel x y :=
       let '(r1, g1, b1) := getpixel image1 x y in
       let '(r2, g2, b2) := getpixel image2 x y in
       (Z.abs (r1 - r2), Z.abs (g1 - g2), Z.abs (b1 - b2))%Z |}.

(** The pixels in raster order, and the value of one band of a pixel
    (0 is R, 1 is G, 2 is B). *)
Definition getdata (im : Image) : list (Z * Z * Z) :=
  flat_map (fun y => map (fun x => getpixel im x y) (seq 0 (fst (im_size im))))
           (seq 0 (snd (im_size im))).

Definition band (c : nat) (p : Z * Z * Z) : Z :=
  let '(r, g, b) := p in
  match c with
  | 0 => r
  | 1 => g
  | _ => b
  end.

Definition count_value (c : nat) (v : Z) (im : Image) : Z :=
  Z.of_nat (length (List.filter (fun p => (band c p =? v)%Z) (getdata im))).

(** [Image.histogram()] of an RGB image: 256 counts for R, then G, then B. *)
Definition histogram (im : Image) : list Z :=
  flat_map (fun c => map (fun v => count_value c (Z.of_nat v) im) (seq 0 256))
           [0; 1; 2].

(** [xs[i]], and [a / b] on integers: the quotient as it is, which the
    division rounds to a float ([float_round] below). *)
Definition index {A} (xs : list A) (i : nat) : result A :=
  match xs !! i with
  | Some x => Ok x
  | None => Raise IndexError
  end.

Definition true_div (a b : Z) : result Q :=
  if (b =? 0)%Z then Raise ZeroDivisionError
  else Ok (inject_Z a / inject_Z b)%Q.

Definition calculate_pixel_based_difference (img1 img2 : Image) : result Q :=
  (* convert("RGB") copies an image that is RGB already *)
  let diff := ImageChops_difference img1 img2 in
  let '(w, h) := im_size diff in
  let hist := histogram diff in
  zero_R ← index hist 0;
  zero_G ← index hist 256;
  zero_B ← index hist 512;
  let total_elements := (Z.of_nat w * Z.of_nat h * 3)%Z in
  let zero_elements := (zero_R + zero_G + zero_B)%Z in
  let non_zero := (total_elements - zero_elements)%Z in
  true_div (non_zero * 100) total_elements.

(** ** The scores of the candidates (lines 206-213)

    Generic in the images, the scores and the difference that is summed. *)
Section Scores.
Context {Id Img Score : Type}.
Context (difference : Img -> Img -> result Score).
Context (zero : Score) (add : Score -> Score -> Score).

Fixpoint inner_loop (idx_i : nat) (img_i : Img) (idx_j : nat)
  (rest : list (Id * Img)) (tot : Score) : result Score :=
  match rest with
  | [] => Ok tot
  | (cid_j, img_j) :: rest' =>
    if (idx_i =? idx_j)%nat then inner_loop idx_i img_i (S idx_j) rest' tot
    else
      d ← difference img_i img_j;
      inner_loop idx_i img_i (S idx_j) rest' (add tot d)
  end.

Fixpoint outer_loop (pil_images : list (Id * Img)) (idx_i : nat)
  (rest : list (Id * Img)) (diffs_pil : list (Id * Score))
  : result (list (Id * Score)) :=
  match rest with
  | [] => Ok diffs_pil
  | (cid_i, img_i) :: rest' =>
    tot ← inner_loop idx_i img_i 0 pil_images zero;
    outer_loop pil_images (S idx_i) rest' (diffs_pil ++ [(cid_i, tot)])
  end.

Definition compute_diffs (pil_images : list (Id * Img))
  : result (list (Id * Score)) :=
  outer_loop pil_images 0 pil_images [].

(** Lines 206-215: the scores, then [max(diffs_pil, key=lambda x: x[1])]. *)
Definition select_outlier (gt : Score -> Score -> bool)
  (pil_images : list (Id * Img)) : result (Id * Score) :=
  diffs_pil ← compute_diffs pil_images;
  match py_max gt snd diffs_pil with
  | Some best => Ok best
  | None => Raise (ValueError "max() arg is an empty sequence")
  end.

End Scores.

(** ** solve_captcha *)

(** [PIL.Image]: what [Image.open] yields before normalisation, and the
    conversions the code calls on it. *)
Class PILLib : Type := {
  pil_image : Type;
  Image_open : bytes -> result pil_image;
  image_mode : pil_image -> string;
  info_has_transparency : pil_image -> bool;
  convert_RGBA : pil_image -> pil_image;
  paste_on_white : pil_image -> Image;
  convert_RGB : pil_image -> Image
}.

(** How an identifier of the challenge reads inside an f-string. *)
Class Format (Id : Type) : Type := format : Id -> str.

Definition format_int (z : Z) : str :=
  lit (DecimalString.NilZero.string_of_int (Z.to_int z)).

(** [post_data] of the two requests, the reply of the first capability and
    of the second one. *)
Inductive post_data (Id : Type) : Type :=
| PostChallenge (cID rT : Z)
| PostAnswer (cID : Z) (pC : Id) (rT : Z).
Arguments PostChallenge {Id} cID rT.
Arguments PostAnswer {Id} cID pC rT.

Inductive json_body (Id : Type) : Type :=
| JsonList (items : list Id)
| JsonOther.
Arguments JsonList {Id} items.
Arguments JsonOther {Id}.

Record fs_result (Id : Type) : Type := {
  fs_json : result (json_body Id);
  fs_text : str
}.
Arguments fs_json {Id} _.
Arguments fs_text {Id} _.

Record response : Type := {
  status_code : Z;
  content : bytes
}.

(** What the resolution does to the outside, in order. *)
Inductive event (Id : Type) : Type :=
| FlaresolverrCall (method : string) (target_url : str)
    (post : post_data Id) (timeout : Z)
| SessionCall (method : string) (target_url : str) (timeout : Z)
| InfoCaptcha (identified : Id) (different_pixels_percentage : Z).
Arguments FlaresolverrCall {Id} method target_url post timeout.
Arguments SessionCall {Id} method target_url timeout.
Arguments InfoCaptcha {Id} identified different_pixels_percentage.

(** The two capabilities: the reply may depend on everything that
    happened before the call. *)
Definition flaresolverr (Id : Type) : Type :=
  list (event Id) -> string -> str -> post_data Id -> Z -> result (fs_result Id).

Definition requests_session (Id : Type) : Type :=
  list (event Id) -> string -> str -> Z -> result response.

(** [shared_state.values["config"]("Hostnames").get]. *)
Record shared_state_t : Type := {
  config_Hostnames_get : str -> option str
}.

(** The values of the returned dict. *)
Inductive value (Id : Type) : Type :=
| VStr (s : str)
| VId (c : Id)
| VInt (z : Z)
| VFloat (q : Q).
Arguments VStr {Id} s.
Arguments VId {Id} c.
Arguments VInt {Id} z.
Arguments VFloat {Id} q.

(** [>] on scores, [int(x)] (truncation towards zero) and [x / n]. *)
Definition Qgtb (a b : Q) : bool := negb (Qle_bool a b).

Definition py_int (q : Q) : Z := Z.quot (Qnum q) (Zpos (Qden q)).

(** *** Floats

    A float is a number [m * 2^k] with [m] below [2^53] in absolute value
    and [k] at least -1074.  Python rounds the result of [int / int], of
    [float + float] and of [float / float] once, to the nearest float,
    and to the one with the even [m] when two are equally near.  The
    numbers of this module lie between 0 and 100 times the number of
    images: the upper end of the exponent range (overflow at [2^1024]) is
    out of their reach and is not part of [float_round]. *)

(** 2 to the power of an integer. *)
Definition pow2 (k : Z) : Q := (2 ^ k)%Q.

(** The integer part of the binary logarithm of a positive number. *)
Definition ilog2 (q : Q) : Z :=
  let e := (Z.log2 (Qnum q) - Z.log2 (Zpos (Qden q)))%Z in
  if Qle_bool (pow2 e) q then e else (e - 1)%Z.

(** The nearest integer, the even one of two that are equally near. *)
Definition round_half_even (t : Q) : Z :=
  let f := Qfloor t in
  match Qcompare (2 * (t - inject_Z f)) 1 with
  | Lt => f
  | Gt => (f + 1)%Z
  | Eq => if Z.even f then f else (f + 1)%Z
  end.

(** The exponent [k] of the floats next to [q]: 52 below the binary
    logarithm of [q], and -1074 for the subnormal numbers. *)
Definition quantum (q : Q) : Z := (Z.max (ilog2 q) (-1022) - 52)%Z.

Definition float_round_pos (q : Q) : Q :=
  let k := quantum q in
  Qred (inject_Z (round_half_even (q * pow2 (- k))) * pow2 k).

Definition float_round (q : Q) : Q :=
  match Qnum q with
  | Z0 => 0
  | Zpos _ => float_round_pos q
  | Zneg _ => - float_round_pos (- q)
  end.

(** [x + y] and [x / y] on floats, [float(n)] on an integer. *)
Definition float_add (x y : Q) : Q := float_round (x + y).

Definition float_div (x y : Q) : Q := float_round (x / y).

Definition float_of_int (n : Z) : Q := float_round (inject_Z n).

(** [calculate_pixel_based_difference] as the program has it: the quotient
    of line 152, rounded to a float by the division. *)
Definition calculate_pixel_based_difference_float (img1 img2 : Image) : result Q :=
  match calculate_pixel_based_difference img1 img2 with
  | Ok q => Ok (float_round q)
  | Raise e => Raise e
  end.

Section Resolver.
Context `{PILLib} {Id : Type} `{Format Id}.

(** Lines 176-184. *)
Fixpoint fetch_images (fetch_via_requests_session : requests_session Id)
  (captcha_base : str) (raw_ids : list Id) (images : list (Id * bytes))
  (tr : list (event Id)) : result (list (Id * bytes)) * list (event Id) :=
  match raw_ids with
  | [] => (Ok images, tr)
  | c :: rest =>
    let img_url := captcha_base ++ lit "?cid=0&hash=" ++ format c in
    let reply := fetch_via_requests_session tr "GET"%string img_url 30%Z in
    let tr := tr ++ [SessionCall "GET" img_url 30] in
    match reply with
    | Raise e => (Raise e, tr)
    | Ok r_img =>
      if negb (status_code r_img =? 200)%Z then
        (Raise (RuntimeError "Failed to download captcha image {} (HTTP {})"
                  [format c; format_int (status_code r_img)]), tr)
      else if bool_decide (content r_img = []) then
        (Raise (RuntimeError "Captcha image {} is empty or invalid." [format c]),
         tr)
      else
        fetch_images fetch_via_requests_session captcha_base rest
          (images ++ [(c, content r_img)]) tr
    end
  end.

(** Lines 189-202: one image, opened and flattened to RGB. *)
Definition open_rgb (raw_bytes : bytes) : result Image :=
  img ← Image_open raw_bytes;
  let img :=
    if String.eqb (image_mode img) "P" && info_has_transparency img
    then convert_RGBA img
    else img in
  if String.eqb (image_mode img) "RGBA"
  then Ok (paste_on_white img)
  else Ok (convert_RGB img).

(** Lines 187-204. *)
Fixpoint open_all (images : list (Id * bytes)) (pil_images : list (Id * Image))
  : result (list (Id * Image)) :=
  match images with
  | [] => Ok pil_images
  | (cid, raw_bytes) :: rest =>
    img ← open_rgb raw_bytes;
    open_all rest (pil_images ++ [(cid, img)])
  end.

Definition solve_captcha (hostname : str) (shared_state : shared_state_t)
  (fetch_via_flaresolverr : flaresolverr Id)
  (fetch_via_requests_session : requests_session Id)
  (tr : list (event Id))
  : result (list (string * value Id)) * list (event Id) :=
  let al := config_Hostnames_get shared_state hostname in
  let captcha_base :=
    lit "https://www." ++ get_or (lit "None") al ++ lit "/files/captcha" in
  let reply :=
    fetch_via_flaresolverr tr "POST"%string captcha_base (PostChallenge 0 1) 30%Z in
  let tr := tr ++ [FlaresolverrCall "POST" captcha_base (PostChallenge 0 1) 30] in
  match reply with
  | Raise e => (Raise e, tr)
  | Ok result =>
    match fs_json result with
    | Raise (ValueError _) =>
      (Raise (RuntimeError "Cannot decode captcha IDs: {}" [fs_text result]), tr)
    | Raise e => (Raise e, tr)
    | Ok JsonOther => (Raise (RuntimeError "Unexpected captcha IDs format." []), tr)
    | Ok (JsonList raw_ids) =>
      if (length raw_ids <? 2)%nat then
        (Raise (RuntimeError "Unexpected captcha IDs format." []), tr)
      else
        match fetch_images fetch_via_requests_session captcha_base raw_ids [] tr with
        | (Raise e, tr) => (Raise e, tr)
        | (Ok images, tr) =>
          match
            pil_images ← open_all images [];
            select_outlier calculate_pixel_based_difference_float 0%Q float_add
              Qgtb pil_images
          with
          | Raise e => (Raise e, tr)
          | Ok (identified_captcha_image, cum_pct_pil) =>
            let different_pixels_percentage :=
              if bool_decide (images = [])
              then py_int cum_pct_pil
              else py_int (float_div cum_pct_pil
                             (float_of_int (Z.of_nat (length images)))) in
            let tr :=
              tr ++ [InfoCaptcha identified_captcha_image
                       different_pixels_percentage] in
            let post := PostAnswer 0 identified_captcha_image 2 in
            let reply :=
              fetch_via_flaresolverr tr "POST"%string captcha_base post 60%Z in
            let tr := tr ++ [FlaresolverrCall "POST" captcha_base post 60] in
            match reply with
            | Raise e => (Raise e, tr)
            | Ok result =>
              (Ok [("response"%string, VStr (fs_text result));
                   ("captcha_id"%string, VId identified_captcha_image)], tr)
            end
          end
        end
    end
  end.

End Resolver.

(** * Definitions that follow the words of the specification *)

(** ** ContainerDecoder, steps 4 to 6

    Padding removal in one pass, a line as a maximal run between two
    boundaries, a blank line as one made of whitespace only.  [brk] says
    which single code points are boundaries; CR LF always counts as one. *)
Definition spec_strip_padding (buf : bytes) : bytes :=
  List.filter (fun b => negb (Byte.eqb b x00) && negb (Byte.eqb b x08)) buf.

Definition prepend (c : N) (lines : list str) : list str :=
  match lines with
  | [] => [[c]]
  | line :: rest => (c :: line) :: rest
  end.

Fixpoint spec_split (brk : N -> bool) (text : str) : list str :=
  match text with
  | [] => [[]]
  | c :: r =>
    match r with
    | c' :: r' =>
      if ((c =? 0x0D) && (c' =? 0x0A))%N then [] :: spec_split brk r'
      else if brk c then [] :: spec_split brk r
      else prepend c (spec_split brk r)
    | [] => if brk c then [[]; []] else [[c]]
    end
  end.

Definition blank (line : str) : bool := forallb is_whitespace line.

Definition spec_decrypt_plain (brk : N -> bool) (buf : bytes) : result (list str) :=
  match utf8_decode (spec_strip_padding buf) with
  | None => Raise (ValueError "Failed to decode decrypted data to UTF-8")
  | Some text => Ok (List.filter (fun line => negb (blank line)) (spec_split brk text))
  end.

(** "CRLF or LF": the only single code point that ends a line is LF. *)
Definition only_LF (c : N) : bool := (c =? 0x0A)%N.

(** ** BatchDecryptor *)

(** The filtering policy: a filter that is provided keeps the items whose
    hoster label contains it, unless none does; then, and when no filter is
    provided, every item is processed.  The second component is what is
    logged. *)
Definition filtering_as_specified (items : list content_item)
  (mirrorFilter : option str) : list content_item * list log_record :=
  match mirrorFilter with
  | Some m =>
    let kept :=
      List.filter (fun item => str_in m (get_or [] (item_hoster item))) items in
    match kept with
    | [] => (items, [InfoFallback m])
    | _ :: _ => (kept, [])
    end
  | None => (items, [])
  end.

(** An empty filter string counts as no filter. *)
Definition nonempty_filter (mirrorFilter : option str) : option str :=
  match mirrorFilter with
  | Some [] => None
  | other => other
  end.

(** One item on its own: whether it carries both fields, what decrypting
    it gives, and the label under which it is logged. *)
Definition has_payload (item : content_item) : bool :=
  let cnl := get_or empty_cnl (item_cnl item) in
  truthy_opt (cnl_jk cnl) && truthy_opt (cnl_crypted cnl).

Definition decrypt_item `{CryptoLib} (item : content_item) : result (list str) :=
  decryptor ← CNL.__init__ item; CNL.decrypt decryptor.

Definition hoster_name_of (item : content_item) : str :=
  get_or (lit "<unknown>") (item_hoster item).

(** The URL list of an item that decrypted successfully. *)
Definition decrypted_urls `{CryptoLib} (item : content_item) : option (list str) :=
  if has_payload item then
    match decrypt_item item with
    | Ok urls => Some urls
    | Raise _ => None
    end
  else None.

Definition item_record `{CryptoLib} (idx : nat) (item : content_item) : log_record :=
  if has_payload item then
    match decrypt_item item with
    | Ok urls => DebugDecrypted idx (hoster_name_of item) (length urls)
    | Raise e => InfoError idx (hoster_name_of item) e
    end
  else InfoMissing idx (hoster_name_of item).

(** A stand-in for the libraries, to run the code on examples: base64 and
    hex decoding read each character as a byte and refuse the character
    '!', the cipher returns its input. *)
Definition byte_of_char (c : N) : byte :=
  match Byte.of_N c with Some b => b | None => x00 end.

Definition toy_decode (what : string) (s : str) : result bytes :=
  if str_in (lit "!") s then Raise (LibraryError what)
  else Ok (map byte_of_char s).

Definition toy_crypto : CryptoLib :=
  {| cipher := unit;
     b64decode := toy_decode "binascii.Error";
     bytes_fromhex := toy_decode "ValueError";
     AES_new_CBC := fun _ _ => Ok tt;
     cipher_decrypt := fun _ data => Ok data |}.

Definition toy_item (hoster jk crypted : string) : content_item :=
  {| item_hoster := Some (lit hoster);
     item_cnl := Some {| cnl_jk := Some (lit jk); cnl_crypted := Some (lit crypted) |} |}.

Definition sample_items : list content_item :=
  [toy_item "X" "0123456789abcdef0123456789abcdef" "http://a/1 http://a/2";
   toy_item "Y" "0123456789abcdef0123456789abcdef" "corrupted!";
   toy_item "Z" "0123456789abcdef0123456789abcdef" "http://c/1"].


(** ** ImageDifferenceEngine *)

(** The number of channel samples of the difference image that are not
    zero, and the number of all its samples. *)
Definition total_samples (img1 img2 : Image) : Z :=
  let diff := ImageChops_difference img1 img2 in
  (Z.of_nat (fst (im_size diff)) * Z.of_nat (snd (im_size diff)) * 3)%Z.

Definition zero_samples (img1 img2 : Image) : Z :=
  let diff := ImageChops_difference img1 img2 in
  (count_value 0 0 diff + count_value 1 0 diff + count_value 2 0 diff)%Z.

(** Two images that show the same picture: same size, same pixel at
    every position inside it. *)
Definition same_image (a b : Image) : Prop :=
  im_size a = im_size b
  /\ forall x y, x < fst (im_size a) -> y < snd (im_size a) ->
       getpixel a x y = getpixel b x y.

(** An image of one colour, and one with a single pixel of another colour
    in the top left corner. *)
Definition solid (w h : nat) (p : Z * Z * Z) : Image :=
  {| im_size := (w, h); getpixel := fun _ _ => p |}.

Definition dotted (w h : nat) (p dot : Z * Z * Z) : Image :=
  {| im_size := (w, h);
     getpixel := fun x y => if ((x =? 0) && (y =? 0))%nat then dot else p |}.

(** ** OutlierSelector *)

(** The images of all candidates but the one at position [i], in input
    order, and the sum of the differences of [img_i] to them (added from
    the left, as the loop does). *)
Definition others {Id Img : Type} (i : nat) (images : list (Id * Img)) : list Img :=
  map snd (take i images ++ drop (S i) images).

Definition aggregateScore {Id Img Score : Type} (diffPercent : Img -> Img -> Score)
  (zero : Score) (add : Score -> Score -> Score)
  (images : list (Id * Img)) (i : nat) (img_i : Img) : Score :=
  fold_left add (map (diffPercent img_i) (others i images)) zero.

Definition aggregateScores {Id Img Score : Type} (diffPercent : Img -> Img -> Score)
  (zero : Score) (add : Score -> Score -> Score)
  (images : list (Id * Img)) : list (Id * Score) :=
  imap (fun i c => (fst c, aggregateScore diffPercent zero add images i (snd c)))
       images.


(** The value of a call that did not raise. *)
Definition value_or {A : Type} (fallback : A) (r : result A) : A :=
  match r with Ok a => a | Raise _ => fallback end.


(** Three candidates, the second one with a pixel of its own. *)
Definition sample_candidates : list (nat * Image) :=
  [(1, solid 2 2 (0, 0, 0)%Z);
   (2, dotted 2 2 (0, 0, 0)%Z (9, 0, 0)%Z);
   (3, solid 2 2 (0, 0, 0)%Z)].

Definition diffPercent (a b : Image) : Q :=
  value_or 0%Q (calculate_pixel_based_difference a b).

(** The same as the float that the program holds. *)
Definition diffPercent_float (a b : Image) : Q :=
  value_or 0%Q (calculate_pixel_based_difference_float a b).

(** Four candidates of one pixel each: the second and the fourth differ
    from the others in the same number of samples. *)
Definition tie_candidates : list (nat * Image) :=
  [(1, solid 1 1 (0, 0, 0)%Z); (2, solid 1 1 (0, 0, 1)%Z);
   (3, solid 1 1 (0, 1, 0)%Z); (4, solid 1 1 (1, 1, 0)%Z)].

(** ** CaptchaResolver *)

Section ResolverSpec.
Context {Id : Type} `{Format Id}.

Definition captcha_base_of (shared_state : shared_state_t) (hostname : str) : str :=
  lit "https://www."
  ++ get_or (lit "None") (config_Hostnames_get shared_state hostname)
  ++ lit "/files/captcha".

(** The request for the image of candidate [c], as it shows in the trace. *)
Definition image_request (captcha_base : str) (c : Id) : event Id :=
  SessionCall "GET" (captcha_base ++ lit "?cid=0&hash=" ++ format c) 30.

Definition challenge_request (captcha_base : str) : event Id :=
  FlaresolverrCall "POST" captcha_base (PostChallenge 0 1) 30.

Definition answer_request (captcha_base : str) (selected : Id) : event Id :=
  FlaresolverrCall "POST" captcha_base (PostAnswer 0 selected 2) 60.

(** A CaptchaResolution as the data model describes it: the selected
    identifier, the aggregate score as a float, the response text. *)
Definition holds_resolution (r : list (string * value Id)) (selectedId : Id)
  (aggregateDifferenceScore : Q) (serverResponseText : str) : Prop :=
  In (VId selectedId) (map snd r)
  /\ In (VFloat aggregateDifferenceScore) (map snd r)
  /\ In (VStr serverResponseText) (map snd r).

End ResolverSpec.

(** A success status of HTTP. *)
Definition is_success (status : Z) : bool :=
  ((200 <=? status) && (status <? 300))%Z.

(** A stand-in for the outside, to run the resolver on examples: every
    image file is one byte, the red value of a picture of one pixel; the
    gateway offers the candidates [ids] and answers [text] to the
    submission; the n-th image request gets the n-th of [replies]. *)
Definition toy_pil : PILLib :=
  {| pil_image := Image;
     Image_open := fun raw =>
       match raw with
       | [] => Raise (LibraryError "UnidentifiedImageError")
       | b :: _ => Ok (solid 1 1 (Z.of_N (Byte.to_N b), 0, 0)%Z)
       end;
     image_mode := fun _ => "RGB"%string;
     info_has_transparency := fun _ => false;
     convert_RGBA := fun img => img;
     paste_on_white := fun img => img;
     convert_RGB := fun img => img |}.

Definition format_nat : Format nat := fun n => format_int (Z.of_nat n).

Definition toy_flaresolverr (ids : list nat) (text : str) : flaresolverr nat :=
  fun _ _ _ post _ =>
    match post with
    | PostChallenge _ _ => Ok {| fs_json := Ok (JsonList ids); fs_text := lit "ids" |}
    | PostAnswer _ _ _ => Ok {| fs_json := Ok JsonOther; fs_text := text |}
    end.

Definition is_session_call (e : event nat) : bool :=
  match e with SessionCall _ _ _ => true | _ => false end.

Definition toy_session (replies : list response) : requests_session nat :=
  fun tr _ _ _ =>
    match replies !! length (List.filter is_session_call tr) with
    | Some r => Ok r
    | None => Raise (LibraryError "ConnectionError")
    end.

Definition toy_state : shared_state_t :=
  {| config_Hostnames_get := fun _ => Some (lit "example.org") |}.

Definition good_replies : list response :=
  [{| status_code := 200; content := [x00] |};
   {| status_code := 200; content := [x09] |};
   {| status_code := 200; content := [x00] |}].

Definition bad_replies : list response :=
  [{| status_code := 200; content := [x00] |};
   {| status_code := 404; content := [x09] |};
   {| status_code := 200; content := [x00] |}].

(** A text in which lines end with CR LF or LF only: every line-break code
    point in it is an LF, or a CR that an LF follows. *)
Definition ends_lines_with_crlf_or_lf (text : str) : Prop :=
  forall pre c post,
    text = pre ++ c :: post -> is_linebreak c = true ->
    c = 0x0A%N \/ (c = 0x0D%N /\ exists rest, post = 0x0A%N :: rest).
From Stdlib Require Import Lqa.


(** ** Further notions for the properties of [al.py] *)

(** Bytes of a text whose code points are all below 128, lines joined with
    CR LF, and the characters of a line as a gateway sends it: printable
    ASCII, space included. *)
Definition ascii_bytes (s : str) : bytes := map byte_of_char s.

Fixpoint join_crlf (lines : list str) : str :=
  match lines with
  | [] => []
  | [line] => line
  | line :: rest => line ++ [0x0D%N; 0x0A%N] ++ join_crlf rest
  end.

Definition printable (c : N) : Prop := (0x20 <= c <= 0x7E)%N.

Definition is_padding (b : byte) : Prop := b = x00 \/ b = x08.

(** The four errors [decrypt] raises on its own. *)
Definition decrypt_errors : list exn :=
  [ValueError "Failed to decode base64 data";
   ValueError "Failed to convert key to bytes (invalid hex)";
   ValueError "AES decryption failed";
   ValueError "Failed to decode decrypted data to UTF-8"].

(** A decoder for an item whose ciphertext the toy base64 refuses. *)
Definition sample_decoder : CNL.t :=
  {| CNL.cnl_info := {| cnl_jk := Some (lit "0123456789abcdef0123456789abcdef");
                        cnl_crypted := Some (lit "corrupted!") |};
     CNL.jk := Some (lit "0123456789abcdef0123456789abcdef");
     CNL.crypted_blob := Some (lit "corrupted!");
     CNL.fixed_key_hex := lit "0123456789abcde0f123456789abcdef" |}.


(** Boolean range tests among the hypotheses, as propositions. *)
Ltac bool_to_prop :=
  repeat match goal with
  | H : (_ && _) = true |- _ => apply andb_prop in H as [? ?]
  | H : (_ <=? _)%N = true |- _ => apply N.leb_le in H
  | H : (_ <? _)%N = true |- _ => apply N.ltb_lt in H
  | H : (_ =? _)%N = true |- _ => apply N.eqb_eq in H
  end.

(** A code point of one byte that is no padding. *)
Definition plain_ascii (c : N) : Prop := (c < 0x80)%N /\ c <> 0%N /\ c <> 8%N.

(** An item that names its hoster and carries a key, but no ciphertext. *)
Definition incomplete_item : content_item :=
  {| item_hoster := Some (lit "W");
     item_cnl := Some {| cnl_jk := Some (lit "0123456789abcdef0123456789abcdef");
                         cnl_crypted := None |} |}.


(** Image files of three bytes per pixel, the pixels in one row. *)
Definition strip_image (raw : bytes) : Image :=
  let sample (i : nat) : Z := Z.of_N (Byte.to_N (nth i raw x00)) in
  {| im_size := (length raw / 3, 1);
     getpixel := fun x _ => (sample (3 * x), sample (3 * x + 1), sample (3 * x + 2)) |}.

Definition strip_pil : PILLib :=
  {| pil_image := Image;
     Image_open := fun raw =>
       match raw with
       | [] => Raise (LibraryError "UnidentifiedImageError")
       | _ :: _ => Ok (strip_image raw)
       end;
     image_mode := fun _ => "RGB"%string;
     info_has_transparency := fun _ => false;
     convert_RGBA := fun img => img;
     paste_on_white := fun img => img;
     convert_RGB := fun img => img |}.

(** Five candidates of two pixels each; the fourth differs from the
    others in 3, 5, 5 and 5 of the 6 samples. *)
Definition share_replies : list response :=
  map (fun raw => {| status_code := 200; content := raw |})
    [[x00; x01; x00; x00; x00; x00]; [x01; x01; x01; x00; x01; x01];
     [x00; x00; x00; x00; x01; x00]; [x01; x00; x01; x01; x00; x01];
     [x00; x01; x01; x00; x01; x00]].

(** ** quasarr/search/sources/dl.py: normalize_title_for_sonarr *)

(** [str.replace(old, new)] for one-character [old] and [new]. *)
Definition str_replace_char (old new : N) (s : str) : str :=
  map (fun c => if (c =? old)%N then new else c) s.

(** [re.sub(pattern, repl, s)] for a pattern that only matches non-empty
    pieces: [matcher] gives the length of the match that starts at the
    head of its argument, if there is one.  The text is read from left to
    right; where a match starts, [repl] is written and the matched piece
    is passed over, elsewhere the character is copied. *)
Section ReSub.
Context (matcher : str -> option nat) (repl : str).

Fixpoint re_sub_from (skip : nat) (s : str) : str :=
  match s with
  | [] => []
  | c :: rest =>
    match skip with
    | S k => re_sub_from k rest
    | 0 =>
      match matcher s with
      | Some (S n) => repl ++ re_sub_from n rest
      | _ => c :: re_sub_from 0 rest
      end
    end
  end.

Definition re_sub (s : str) : str := re_sub_from 0 s.

End ReSub.

(** How many characters at the head of [s] satisfy [p]. *)
Fixpoint span_length (p : N -> bool) (s : str) : nat :=
  match s with
  | c :: rest => if p c then S (span_length p rest) else 0
  | [] => 0
  end.

Definition is_dot (c : N) : bool := (c =? 0x2E)%N.

(** The pattern [\s*-\s*]: whitespace as far as it goes, a hyphen, and
    again whitespace as far as it goes. *)
Definition match_hyphen (s : str) : option nat :=
  let before := span_length is_whitespace s in
  match drop before s with
  | 0x2D%N :: rest => Some (before + 1 + span_length is_whitespace rest)
  | _ => None
  end.

(** The pattern [\.\-\.]. *)
Definition match_dot_hyphen_dot (s : str) : option nat :=
  match s with
  | 0x2E%N :: 0x2D%N :: 0x2E%N :: _ => Some 3
  | _ => None
  end.

(** The pattern [\.{2,}]: two dots and all the dots that follow. *)
Definition match_dots (s : str) : option nat :=
  match s with
  | 0x2E%N :: 0x2E%N :: rest => Some (2 + span_length is_dot rest)
  | _ => None
  end.

(** [s.strip(chars)] for the characters that satisfy [p]. *)
Fixpoint lstrip_chars (p : N -> bool) (s : str) : str :=
  match s with
  | c :: rest => if p c then lstrip_chars p rest else s
  | [] => []
  end.

Definition strip_chars (p : N -> bool) (s : str) : str :=
  rev (lstrip_chars p (rev (lstrip_chars p s))).

Definition normalize_title_for_sonarr (title : str) : str :=
  let title := str_replace_char 0x20 0x2E title in
  let title := re_sub match_hyphen [0x2D%N] title in
  let title := re_sub match_dot_hyphen_dot [0x2D%N] title in
  let title := re_sub match_dots [0x2E%N] title in
  let title := strip_chars is_dot title in
  title.

(** No two dots side by side. *)
Fixpoint no_double_dot (s : str) : bool :=
  match s with
  | a :: rest =>
    match rest with
    | b :: _ => negb (is_dot a && is_dot b) && no_double_dot rest
    | [] => true
    end
  | [] => true
  end.

Definition starts_with_dot (s : str) : bool :=
  match s with
  | c :: _ => is_dot c
  | [] => false
  end.

(** A title that the clean-up steps after the first one leave alone: no
    whitespace, no dot-hyphen-dot, no two dots side by side, no dot at
    either end. *)
Definition clean_title (s : str) : Prop :=
  Forall (fun c => is_whitespace c = false) s
  /\ str_in (lit ".-.") s = false
  /\ no_double_dot s = true
  /\ starts_with_dot s = false
  /\ starts_with_dot (rev s) = false.

(** ** quasarr/downloads/sources: the links of a page

    [find_all_a_href html] stands for the [href] values of
    [BeautifulSoup(html, 'html.parser').find_all('a', href=True)], in
    the order of the document, and [re_search_ignorecase pattern s] for
    [re.search(pattern, s, re.IGNORECASE)] having found a match. *)
Class HtmlLib : Type := {
  find_all_a_href : str -> list str;
  re_search_ignorecase : string -> str -> bool
}.

(** The inner loop over the patterns: the first pattern that matches
    decides, the link is appended unless it is in the list already, and
    the loop is left. *)
Fixpoint match_patterns `{HtmlLib} (patterns : list string) (href : str)
  (links : list str) : list str :=
  match patterns with
  | [] => links
  | pattern :: rest =>
    if re_search_ignorecase pattern href then
      if decide (href ∈ links) then links else links ++ [href]
    else match_patterns rest href links
  end.

(** The loop over the links of the document; [internal] is the name of
    the site itself. *)
Fixpoint extract_loop `{HtmlLib} (internal : str) (patterns : list string)
  (hrefs : list str) (links : list str) : list str :=
  match hrefs with
  | [] => links
  | href :: rest =>
    if startswith href (lit "/") || str_in internal href then
      extract_loop internal patterns rest links
    else
      extract_loop internal patterns rest (match_patterns patterns href links)
  end.

(** downloads/sources/dl.py *)
Definition hoster_patterns : list string :=
  ["filecrypt\.cc"; "linksnappy\.io"; "relink\.us"; "links\.snahp\.it";
   "rapidgator\.net"; "uploaded\.net"; "nitroflare\.com"; "turbobit\.net";
   "ddownload\.com"; "filefactory\.com"; "katfile\.com"; "mexashare\.com";
   "keep2share\.cc"; "alfafile\.net"; "mega\.nz"; "1fichier\.com"]%string.

Definition extract_links_from_post `{HtmlLib} (post_html : str) : list str :=
  extract_loop (lit "data-load.me") hoster_patterns (find_all_a_href post_html) [].

(** downloads/sources/wcx.py *)
Definition patterns : list string :=
  ["filecrypt\.cc"; "linksnappy\.io"; "relink\.us"; "links\.snahp\.it";
   "rapidgator\.net"; "uploaded\.net"; "nitroflare\.com"; "ddownload\.com";
   "filefactory\.com"; "katfile\.com"; "mexashare\.com"; "keep2share\.cc";
   "mega\.nz"; "1fichier\.com"]%string.

Definition extract_links_from_page `{HtmlLib} (page_html : str) : list str :=
  extract_loop (lit "warez.cx") patterns (find_all_a_href page_html) [].

(** A link that the loop takes: it leaves the site and one of the patterns
    is found in it. *)
Definition accepted `{HtmlLib} (internal : str) (patterns : list string)
  (href : str) : bool :=
  negb (startswith href (lit "/") || str_in internal href)
  && existsb (fun pattern => re_search_ignorecase pattern href) patterns.

(** The items of [l] that are not in [seen], each at its first place. *)
Fixpoint first_occurrences (seen l : list str) : list str :=
  match l with
  | [] => []
  | x :: rest =>
    if decide (x ∈ seen) then first_occurrences seen rest
    else x :: first_occurrences (seen ++ [x]) rest
  end.

(** A stand-in for the two libraries: the document is its links, one per
    line, and a pattern is found where it stands as it is written, the
    backslashes apart. *)
Definition toy_html : HtmlLib :=
  {| find_all_a_href := splitlines;
     re_search_ignorecase := fun pattern s =>
       str_in (List.filter (fun c => negb (c =? 0x5C)%N) (lit pattern)) s |}.

Definition sample_page : str :=
  join_crlf [lit "/threads/1"; lit "https://rapidgator.net/file/1";
             lit "https://data-load.me/x?u=rapidgator.net";
             lit "https://example.org/"; lit "https://filecrypt.cc/c/2";
             lit "https://rapidgator.net/file/1"].

(** ** quasarr/providers/sessions/dl.py

    The table "sessions" of the database is a finite map from host names
    to tokens; [requests], [pickle] and [base64] are interfaces.  A
    [Session] is changed in place by a request (the site may set cookies):
    here the request returns the session as it is afterwards, and its
    reply may depend on the requests made before.  [cookies_set] is
    [sess.cookies.set(name, value, domain=..., path=...)] for a domain
    that is a text; with [domain=None] the library raises an
    [AttributeError] from its call of [domain.startswith], which is part
    of [create_and_persist_session] below. *)
From stdpp Require Import gmap strings.

Record http_reply : Type := {
  reply_status : Z;
  reply_text : str
}.

(** [params=] and [data=] of a request: absent, or a dict. *)
Abbreviation form := (option (list (str * str))).

Inductive net_event : Type :=
| NetGet (url : str) (params : form) (timeout : Z)
| NetPost (url : str) (data : form) (timeout : Z).

Class RequestsLib : Type := {
  Session : Type;
  new_session : Session;
  headers_update : Session -> str -> str -> Session;
  cookies_set : Session -> str -> str -> str -> str -> Session;
  session_get :
    list net_event -> Session -> str -> form -> Z -> result (http_reply * Session);
  session_post :
    list net_event -> Session -> str -> form -> Z -> result (http_reply * Session)
}.

(** What [pickle.loads] gives back: a session or something else. *)
Inductive unpickled `{RequestsLib} : Type :=
| IsSession (sess : Session)
| NotSession.

Class PickleLib `{RequestsLib} : Type := {
  pickle_dumps : Session -> bytes;
  pickle_loads : bytes -> result unpickled;
  b64encode : bytes -> bytes;
  b64decode_bytes : bytes -> result bytes
}.

(** [str.encode("utf-8")]: surrogates cannot be encoded. *)
Definition utf8_encode_char (c : N) : option bytes :=
  if (c <? 0x80)%N then Some [byte_of_char c]
  else if (c <? 0x800)%N then
    Some [byte_of_char (0xC0 + c / 0x40); byte_of_char (0x80 + c mod 0x40)]
  else if (c <? 0x10000)%N then
    if in_range 0xD800 0xDFFF c then None
    else Some [byte_of_char (0xE0 + c / 0x1000);
               byte_of_char (0x80 + (c / 0x40) mod 0x40);
               byte_of_char (0x80 + c mod 0x40)]
  else if (c <? 0x110000)%N then
    Some [byte_of_char (0xF0 + c / 0x40000);
          byte_of_char (0x80 + (c / 0x1000) mod 0x40);
          byte_of_char (0x80 + (c / 0x40) mod 0x40);
          byte_of_char (0x80 + c mod 0x40)]
  else None.

Fixpoint utf8_encode (s : str) : option bytes :=
  match s with
  | [] => Some []
  | c :: rest =>
    match utf8_encode_char c, utf8_encode rest with
    | Some b, Some bs => Some (b ++ bs)
    | _, _ => None
    end
  end.

(** The part of [shared_state] that is only read, and the part that the
    module changes: the table, what was logged, and the requests made. *)
Record shared_values : Type := {
  config : string -> string -> option str;
  user_agent : str
}.

Inductive session_log : Type :=
| LogInfo (msg : string) (args : list str)
| LogDebug (msg : string) (args : list str).

Record world : Type := {
  sessions_table : gmap string str;
  logged : list session_log;
  network : list net_event
}.

Definition log_line (w : world) (l : session_log) : world :=
  {| sessions_table := sessions_table w; logged := logged w ++ [l];
     network := network w |}.

Definition sent (w : world) (e : net_event) : world :=
  {| sessions_table := sessions_table w; logged := logged w;
     network := network w ++ [e] |}.

(** [db.update_store], [db.retrieve] and [db.delete] on the table. *)
Definition update_store (w : world) (key : string) (value : str) : world :=
  {| sessions_table := <[key := value]> (sessions_table w); logged := logged w;
     network := network w |}.

Definition retrieve (w : world) (key : string) : option str :=
  sessions_table w !! key.

Definition delete_key (w : world) (key : string) : world :=
  {| sessions_table := delete key (sessions_table w); logged := logged w;
     network := network w |}.

Definition hostname : string := "dl".

(** The text [data-logged-in="true"]. *)
Definition logged_in_marker : str :=
  lit "data-logged-in=" ++ [0x22%N] ++ lit "true" ++ [0x22%N].

(** An exception as it reads in a log line. *)
Definition exn_text (e : exn) : str :=
  match e with
  | KeyError msg | ValueError msg | LibraryError msg => lit msg
  | RuntimeError msg _ => lit msg
  | ZeroDivisionError => lit "division by zero"
  | IndexError => lit "list index out of range"
  end.

Section Sessions.
Context `{PickleLib}.

(** [base64.b64encode(pickle.dumps(sess)).decode("utf-8")] *)
Definition token_of (sess : Session) : option str :=
  utf8_decode (b64encode (pickle_dumps sess)).

Definition create_and_persist_session (shared_state : shared_values) (w : world)
  : result (option Session) * world :=
  let host := config shared_state "Hostnames" hostname in
  let xf_session := config shared_state "DL" "xf_session" in
  let xf_cookie := config shared_state "DL" "xf_cookie" in
  if negb (truthy_opt xf_session) || negb (truthy_opt xf_cookie) then
    (Ok None,
     log_line w (LogInfo "Missing credentials for: {} - xf_session and xf_cookie are required"
                   [lit hostname]))
  else
    let sess := new_session in
    let ua := user_agent shared_state in
    let sess := headers_update sess (lit "User-Agent") ua in
    match host with
    | None =>
      (* line 43: the first [cookies.set], outside the [try] *)
      (Raise (LibraryError "AttributeError"), w)
    | Some domain =>
      let sess := cookies_set sess (lit "xf_session") (get_or [] xf_session)
                    domain (lit "/") in
      let sess := cookies_set sess (lit "xf_user") (get_or [] xf_cookie)
                    domain (lit "/") in
      let url := lit "https://www." ++ domain ++ lit "/" in
      let reply := session_get (network w) sess url None 30 in
      let w := sent w (NetGet url None 30) in
      match reply with
      | Raise e =>
        (Ok None,
         log_line w (LogInfo "Failed to verify session for: {} - {}"
                       [lit hostname; exn_text e]))
      | Ok (r, sess) =>
        if negb (str_in logged_in_marker (reply_text r)) then
          (Ok None,
           log_line w (LogInfo "Login verification failed for: {} - invalid cookies"
                         [lit hostname]))
        else
          let w := log_line w (LogInfo "Session successfully created for: {}"
                                 [lit hostname]) in
          match token_of sess with
          | None => (Raise (LibraryError "UnicodeDecodeError"), w)
          | Some token => (Ok (Some sess), update_store w hostname token)
          end
      end
    end.

(** Lines 83-87 of [retrieve_and_validate_session]: the token read back. *)
Definition load_session (token : str) : result Session :=
  match utf8_encode token with
  | None => Raise (LibraryError "UnicodeEncodeError")
  | Some encoded =>
    blob ← b64decode_bytes encoded;
    sess ← pickle_loads blob;
    match sess with
    | IsSession sess => Ok sess
    | NotSession => Raise (ValueError "Not a Session")
    end
  end.

Definition retrieve_and_validate_session (shared_state : shared_values) (w : world)
  : result (option Session) * world :=
  let token := retrieve w hostname in
  if negb (truthy_opt token) then create_and_persist_session shared_state w
  else
    match load_session (get_or [] token) with
    | Raise e =>
      create_and_persist_session shared_state
        (log_line w (LogDebug "{}: session load failed: {}"
                       [lit hostname; exn_text e]))
    | Ok sess => (Ok (Some sess), w)
    end.

Definition invalidate_session (w : world) : world :=
  log_line (delete_key w hostname)
    (LogDebug "Session for {} marked as invalid!" [lit hostname]).

Definition _persist_session_to_db (w : world) (sess : Session) : result unit * world :=
  match token_of sess with
  | None => (Raise (LibraryError "UnicodeDecodeError"), w)
  | Some token => (Ok tt, update_store w hostname token)
  end.

(** [str.upper] on the letters of ASCII; no other character turns into
    one of G, E and T. *)
Definition ascii_upper (c : N) : N :=
  if in_range 0x61 0x7A c then (c - 0x20)%N else c.

Definition is_GET (method : str) : bool :=
  bool_decide (map ascii_upper method = lit "GET").

Definition fetch_via_requests_session (shared_state : shared_values)
  (method target_url : str) (post_data get_params : form) (timeout : Z)
  (w : world) : result http_reply * world :=
  match retrieve_and_validate_session shared_state w with
  | (Raise e, w) => (Raise e, w)
  | (Ok None, w) =>
    (Raise (LibraryError "Exception: Could not retrieve valid session for dl"), w)
  | (Ok (Some sess), w) =>
    let '(reply, w) :=
      if is_GET method
      then (session_get (network w) sess target_url get_params timeout,
            sent w (NetGet target_url get_params timeout))
      else (session_post (network w) sess target_url post_data timeout,
            sent w (NetPost target_url post_data timeout)) in
    match reply with
    | Raise e => (Raise e, w)
    | Ok (resp, sess) =>
      match _persist_session_to_db w sess with
      | (Raise e, w) => (Raise e, w)
      | (Ok _, w) => (Ok resp, w)
      end
    end
  end.

End Sessions.

(** *** A small site for examples

    A session is the number of cookies it holds; every request sets one
    more.  The home page shows the login marker once both cookies of the
    configuration are there, a thread is a list of links, and some
    addresses cannot be reached. *)
Definition toy_page (sess : nat) : http_reply :=
  {| reply_status := 200;
     reply_text := if (2 <=? sess)%nat then lit "<html " ++ logged_in_marker ++ lit ">"
                   else lit "<html>" |}.

Definition toy_reply (sess : nat) (url : str) : result (http_reply * nat) :=
  if str_in (lit "unreachable") url then Raise (LibraryError "ConnectionError")
  else if str_in (lit "/threads/") url
  then Ok ({| reply_status := 200; reply_text := sample_page |}, S sess)
  else Ok (toy_page sess, S sess).

#[export] Instance toy_requests : RequestsLib := {|
  Session := nat;
  new_session := 0%nat;
  headers_update sess _ _ := sess;
  cookies_set sess _ _ _ _ := S sess;
  session_get _ sess url _ _ := toy_reply sess url;
  session_post _ sess url _ _ := toy_reply sess url
|}.

Definition toy_loads (blob : bytes) : result (@unpickled toy_requests) :=
  match blob with
  | x50 :: cookies =>
    if forallb (Byte.eqb x2e) cookies then Ok (IsSession (length cookies))
    else Ok NotSession
  | _ => Raise (LibraryError "UnpicklingError")
  end.

#[export] Instance toy_pickle : PickleLib := {|
  pickle_dumps sess := x50 :: repeat x2e sess;
  pickle_loads := toy_loads;
  b64encode blob := blob;
  b64decode_bytes blob := Ok blob
|}.

Definition toy_values (with_credentials : bool) : shared_values := {|
  config section key :=
    if String.eqb section "Hostnames" && String.eqb key "dl" then Some (lit "site.to")
    else if with_credentials && String.eqb section "DL"
            && (String.eqb key "xf_session" || String.eqb key "xf_cookie")
    then Some (lit "secret")
    else None;
  user_agent := lit "Mozilla/5.0"
|}.

(** Credentials, and no host name for dl. *)
Definition toy_values_without_host : shared_values := {|
  config section key :=
    if String.eqb section "DL"
       && (String.eqb key "xf_session" || String.eqb key "xf_cookie")
    then Some (lit "secret")
    else None;
  user_agent := lit "Mozilla/5.0"
|}.

Definition empty_world : world :=
  {| sessions_table := ∅; logged := []; network := [] |}.

(** The table agrees with an earlier one on every key but dl. *)
Definition same_elsewhere (w w' : world) : Prop :=
  forall key, key <> hostname -> sessions_table w' !! key = sessions_table w !! key.

(** The request that [create_and_persist_session] verifies a login with,
    and the one [fetch_via_requests_session] is called for. *)
Definition login_request (shared_state : shared_values) : net_event :=
  NetGet (lit "https://www."
          ++ get_or (lit "None") (config shared_state "Hostnames" hostname)
          ++ lit "/") None 30.

Definition target_request (method target_url : str) (post_data get_params : form)
  (timeout : Z) : net_event :=
  if is_GET method then NetGet target_url get_params timeout
  else NetPost target_url post_data timeout.

(** What the library answers to a request, given the requests before. *)
Definition answer `{RequestsLib} (before : list net_event) (sess : Session)
  (e : net_event) : result (http_reply * Session) :=
  match e with
  | NetGet url params timeout => session_get before sess url params timeout
  | NetPost url data timeout => session_post before sess url data timeout
  end.

(** ** quasarr/providers/imdb_metadata.py

    [requests_get_text url headers] stands for
    [requests.get(url, headers=headers).text], and [poster_srcset page] for
    [BeautifulSoup(page, "html.parser").find('div', class_='ipc-poster').div.img["srcset"]],
    which raises when one of the steps finds nothing; building the tree
    from a text does not raise. *)
Class ImdbLib : Type := {
  requests_get_text : str -> list (str * str) -> result str;
  poster_srcset : str -> result str
}.

Inductive imdb_event : Type :=
| ImdbGet (url : str) (headers : list (str * str))
| ImdbPrint (msg : string) (args : list str).

(** [s.split(" ")]: the pieces between the spaces, the empty ones too. *)
Fixpoint split_space (s : str) : list str :=
  match s with
  | [] => [[]]
  | c :: r =>
    if (c =? 0x20)%N then [] :: split_space r
    else
      match split_space r with
      | [] => [[c]]
      | piece :: pieces => (c :: piece) :: pieces
      end
  end.

(** [" ".join(pieces)] *)
Fixpoint join_space (pieces : list str) : str :=
  match pieces with
  | [] => []
  | [piece] => piece
  | piece :: rest => piece ++ 0x20%N :: join_space rest
  end.

(** [xs[-1]] *)
Definition last_item {A} (xs : list A) : result A :=
  match last xs with
  | Some x => Ok x
  | None => Raise IndexError
  end.

Definition get_poster_link `{ImdbLib} (user_agent : str) (debug : bool)
  (imdb_id : option str) : result (option str) * list imdb_event :=
  let report (poster_link : option str) (tr : list imdb_event) :=
    if negb (truthy_opt poster_link) && debug
    then (Ok poster_link,
          tr ++ [ImdbPrint "Could not get poster title for {} from IMDb"
                   [get_or (lit "None") imdb_id]])
    else (Ok poster_link, tr) in
  if truthy_opt imdb_id then
    let headers := [(lit "User-Agent", user_agent)] in
    let url := lit "https://www.imdb.com/title/" ++ get_or [] imdb_id ++ lit "/" in
    match requests_get_text url headers with
    | Raise e => (Raise e, [ImdbGet url headers])
    | Ok request =>
      let attempt :=
        poster_set ← poster_srcset request;
        let poster_links :=
          List.filter (fun x => (10 <? length x)%nat) (split_space poster_set) in
        last_item poster_links in
      match attempt with
      | Ok poster_link => report (Some poster_link) [ImdbGet url headers]
      | Raise _ => report None [ImdbGet url headers]
      end
    end
  else report None [].

(** A page that is its own [srcset]; an empty page has no poster. *)
Definition toy_imdb : ImdbLib :=
  {| requests_get_text url _ :=
       if str_in (lit "tt0") url
       then Ok (lit "https://m.media/a.jpg 190w, https://m.media/b.jpg 285w")
       else Ok [];
     poster_srcset page :=
       if truthy page then Ok page else Raise (LibraryError "AttributeError") |}.

(** ** quasarr/downloads/sources/dl.py: get_dl_download_links

    The tree of the thread page as the code walks it: the first post, its
    content, the content as markup ([str(post_content)]) and as text
    ([get_text()]).  [re_search_groups pattern s] stands for
    [re.search(pattern, s, re.IGNORECASE)]: nothing, or the groups of the
    first match. *)
Class ThreadLib : Type := {
  Tag : Type;
  select_first_post : str -> result (option Tag);
  select_bbWrapper : Tag -> result (option Tag);
  tag_str : Tag -> result str;
  get_text : Tag -> result str;
  re_search_groups : string -> str -> option (list str)
}.

(** The dict that is returned when there are links; [{}] is [None]. *)
Record download : Type := {
  dl_links : list str;
  dl_password : str;
  dl_title : str
}.

Definition password_patterns : list string :=
  ["(?:Passwort|Password|Pass|PW)[\s:]*([^\s<]+)"; "www\.data-load\.me"]%string.

(** The loop over the patterns: the first match that has a group sets the
    password to its first group and ends the loop. *)
Fixpoint find_password `{ThreadLib} (patterns : list string) (post_text : str)
  (password : str) : str :=
  match patterns with
  | [] => password
  | pattern :: rest =>
    match re_search_groups pattern post_text with
    | Some (group1 :: _) => group1
    | _ => find_password rest post_text password
    end
  end.

Section DlLinks.
Context {requests : RequestsLib} {pickle : PickleLib}.
Context {html : HtmlLib} {thread : ThreadLib}.

(** Lines 79-131: the body of the [try]. *)
Definition thread_links (shared_state : shared_values) (url title : str)
  (w : world) : result (option download) * world :=
  let host := config shared_state "Hostnames" hostname in
  match fetch_via_requests_session shared_state (lit "GET") url None None 30 w with
  | (Raise e, w) => (Raise e, w)
  | (Ok response, w) =>
    if negb (reply_status response =? 200)%Z then
      (Ok None,
       log_line w (LogInfo "Failed to load thread page: {} (Status: {})"
                     [url; format_int (reply_status response)]))
    else
      match select_first_post (reply_text response) with
      | Raise e => (Raise e, w)
      | Ok None =>
        (Ok None,
         log_line w (LogInfo "Could not find first post in thread: {}" [url]))
      | Ok (Some first_post) =>
        match select_bbWrapper first_post with
        | Raise e => (Raise e, w)
        | Ok None =>
          (Ok None,
           log_line w (LogInfo "Could not find post content in thread: {}" [url]))
        | Ok (Some post_content) =>
          match tag_str post_content with
          | Raise e => (Raise e, w)
          | Ok post_html =>
            let links := extract_links_from_post post_html in
            match links with
            | [] =>
              (Ok None,
               log_line w (LogInfo "No download links found in thread: {}" [url]))
            | _ :: _ =>
              match get_text post_content with
              | Raise e => (Raise e, w)
              | Ok post_text =>
                let password :=
                  find_password password_patterns post_text
                    (lit "www." ++ get_or (lit "None") host) in
                (Ok (Some {| dl_links := links; dl_password := password;
                             dl_title := title |}),
                 log_line w (LogDebug "Found {} download link(s) for: {}"
                               [format_int (Z.of_nat (length links)); title]))
              end
            end
          end
        end
      end
  end.

Definition get_dl_download_links (shared_state : shared_values) (url : str)
  (mirror : option str) (title : str) (w : world)
  : result (option download) * world :=
  let host := config shared_state "Hostnames" hostname in
  match retrieve_and_validate_session shared_state w with
  | (Raise e, w) => (Raise e, w)
  | (Ok None, w) =>
    (Ok None,
     log_line w (LogInfo "Could not retrieve valid session for {}"
                   [get_or (lit "None") host]))
  | (Ok (Some sess), w) =>
    match thread_links shared_state url title w with
    | (Raise e, w) =>
      (Ok None,
       invalidate_session
         (log_line w (LogInfo "Error extracting download links from {}: {}"
                        [url; exn_text e])))
    | (Ok found, w) => (Ok found, w)
    end
  end.

End DlLinks.

(** A thread whose page is its only post, and whose text is its markup;
    the password follows the word PW. *)
Definition toy_thread : ThreadLib :=
  {| Tag := str;
     select_first_post page := Ok (Some page);
     select_bbWrapper post := Ok (Some post);
     tag_str content := Ok content;
     get_text content := Ok content;
     re_search_groups pattern s :=
       if String.eqb pattern "www\.data-load\.me" then
         if str_in (lit "www.data-load.me") s then Some [] else None
       else if str_in (lit "PW: ") s then Some [lit "secret"] else None |}.

(** The table after session 3 of the small site has been stored. *)
Definition toy_world_with_session : world :=
  update_store empty_world hostname (lit "P...").

(** * Properties *)

(** ** KeyTransform (lines 42-47) *)

Lemma swap_15_16_short (x : str) :
  length x <= 16 ->
  CNL.swap_15_16 x
  = Raise (ValueError "Invalid 'jk' string length; must be > 16 characters.").
Proof.
  intros Hlen. unfold CNL.swap_15_16.
  destruct (decide (length x <= 16)) as [_|Hn]; [reflexivity|lia].
Qed.

Lemma swap_15_16_long (x : str) (c15 c16 : N) :
  x !! 15 = Some c15 -> x !! 16 = Some c16 ->
  CNL.swap_15_16 x = Ok (<[16 := c15]> (<[15 := c16]> x)).
Proof.
  intros H15 H16. unfold CNL.swap_15_16.
  apply lookup_lt_Some in H16 as Hlt.
  destruct (decide (length x <= 16)) as [Hle|_]; [lia|].
  rewrite H15, H16. reflexivity.
Qed.

(** C4.  The key transform undoes itself: on a string of more than 16
    characters it succeeds, and applied to its own result it gives the
    original string back. *)
Theorem swap_15_16_self_inverse (x : str) :
  16 < length x ->
  exists y, CNL.swap_15_16 x = Ok y /\ CNL.swap_15_16 y = Ok x.
Proof.
  intros Hlen.
  destruct (lookup_lt_is_Some_2 x 15) as [c15 H15]; [lia|].
  destruct (lookup_lt_is_Some_2 x 16) as [c16 H16]; [lia|].
  exists (<[16 := c15]> (<[15 := c16]> x)). split.
  - by apply swap_15_16_long.
  - rewrite (swap_15_16_long _ c16 c15).
    + f_equal.
      rewrite (list_insert_insert_ne _ 15 16) by lia.
      rewrite !list_insert_insert_eq.
      rewrite (list_insert_id x 15 c15) by done.
      by rewrite list_insert_id.
    + rewrite list_lookup_insert_ne by lia.
      apply list_lookup_insert_eq. by apply lookup_lt_Some in H15.
    + apply list_lookup_insert_eq. rewrite length_insert. lia.
Qed.

Lemma swap_15_16_self_inverse_witness :
  exists y, CNL.swap_15_16 (lit "0123456789abcdef0123456789abcdef") = Ok y
            /\ CNL.swap_15_16 y = Ok (lit "0123456789abcdef0123456789abcdef").
Proof.
  apply (swap_15_16_self_inverse (lit "0123456789abcdef0123456789abcdef")).
  vm_compute. lia.
Defined.

(** C5.  A key of at most 16 characters is refused with the invalid-length
    error, and no decoder object is built from an item that carries it. *)
Theorem swap_15_16_rejects_short (x : str) :
  length x <= 16 ->
  CNL.swap_15_16 x
  = Raise (ValueError "Invalid 'jk' string length; must be > 16 characters.")
  /\ forall hoster crypted,
       exists e,
         CNL.__init__ {| item_hoster := hoster;
                         item_cnl := Some {| cnl_jk := Some x;
                                             cnl_crypted := crypted |} |}
         = Raise e.
Proof.
  intros Hlen. split; [by apply swap_15_16_short|].
  intros hoster crypted. unfold CNL.__init__. simpl.
  destruct (negb (truthy x) || negb (truthy_opt crypted)); [eauto|].
  rewrite swap_15_16_short by done. simpl. eauto.
Qed.

Lemma swap_15_16_rejects_short_witness :
  CNL.swap_15_16 (lit "0123456789abcdef")
  = Raise (ValueError "Invalid 'jk' string length; must be > 16 characters.")
  /\ forall hoster crypted,
       exists e,
         CNL.__init__ {| item_hoster := hoster;
                         item_cnl := Some {| cnl_jk := Some (lit "0123456789abcdef");
                                             cnl_crypted := crypted |} |}
         = Raise e.
Proof.
  apply (swap_15_16_rejects_short (lit "0123456789abcdef")).
  vm_compute. lia.
Defined.

(** ** ContainerDecoder: what [decrypt] does with the decrypted buffer *)

Lemma bytes_replace_strip (buf : bytes) :
  bytes_replace x08 [] (bytes_replace x00 [] buf) = spec_strip_padding buf.
Proof.
  unfold bytes_replace, spec_strip_padding.
  induction buf as [|b buf IH]; [reflexivity|].
  cbn [flat_map List.filter].
  destruct (Byte.eqb b x00) eqn:E0; cbn [app negb andb].
  - exact IH.
  - cbn [flat_map]. destruct (Byte.eqb b x08); cbn [app negb]; [exact IH|].
    by rewrite IH.
Qed.

Lemma lstrip_nil (s : str) : lstrip s = [] <-> blank s = true.
Proof.
  unfold blank. induction s as [|c s IH]; [done|].
  cbn [lstrip forallb]. destruct (is_whitespace c); cbn [andb]; [exact IH|].
  split; discriminate.
Qed.

Lemma lstrip_blank (s : str) : blank (lstrip s) = blank s.
Proof.
  unfold blank. induction s as [|c s IH]; [done|].
  cbn [lstrip forallb]. destruct (is_whitespace c) eqn:E; cbn [andb]; [exact IH|].
  cbn [forallb]. by rewrite E.
Qed.

Lemma blank_rev (s : str) : blank (rev s) = blank s.
Proof.
  unfold blank. induction s as [|c s IH]; [done|].
  cbn [rev forallb]. rewrite forallb_app, IH. cbn [forallb].
  rewrite andb_true_r. apply andb_comm.
Qed.

Lemma truthy_strip (line : str) : truthy (strip line) = negb (blank line).
Proof.
  unfold strip.
  destruct (blank line) eqn:Hb.
  - apply lstrip_nil in Hb. by rewrite Hb.
  - destruct (rev (lstrip (rev (lstrip line)))) as [|c r] eqn:E; [|done].
    exfalso.
    apply (f_equal (@rev N)) in E. rewrite rev_involutive in E. cbn [rev] in E.
    apply lstrip_nil in E.
    rewrite blank_rev, lstrip_blank in E. congruence.
Qed.

Lemma splitlines_cons2 (c c' : N) (r' : str) :
  splitlines (c :: c' :: r')
  = if is_linebreak c
    then (if ((c =? 0x0D) && (c' =? 0x0A))%N
          then [] :: splitlines r'
          else [] :: splitlines (c' :: r'))
    else prepend c (splitlines (c' :: r')).
Proof. reflexivity. Qed.

Lemma spec_split_cons2 (brk : N -> bool) (c c' : N) (r' : str) :
  spec_split brk (c :: c' :: r')
  = if ((c =? 0x0D) && (c' =? 0x0A))%N then [] :: spec_split brk r'
    else if brk c then [] :: spec_split brk (c' :: r')
    else prepend c (spec_split brk (c' :: r')).
Proof. reflexivity. Qed.

(** The two ways of cutting a text into lines agree up to one empty line
    at the end. *)
Lemma spec_split_splitlines (text : str) :
  spec_split is_linebreak text = splitlines text ++ [[]]
  \/ (spec_split is_linebreak text = splitlines text /\ splitlines text <> []).
Proof.
  remember (length text) as n eqn:Hn.
  revert text Hn. induction (lt_wf n) as [n _ IH]. intros text Hn.
  destruct text as [|c [|c' r']].
  - by left.
  - cbn [spec_split splitlines]. destruct (is_linebreak c); [by left|by right].
  - rewrite splitlines_cons2, spec_split_cons2.
    destruct ((c =? 13)%N && (c' =? 10)%N) eqn:Hcrlf.
    + apply andb_prop in Hcrlf as [Hc _]. apply N.eqb_eq in Hc. subst c.
      replace (is_linebreak 13) with true by reflexivity.
      destruct (IH (length r') ltac:(cbn [length] in Hn; lia) r' eq_refl)
        as [E|[E _]]; rewrite E; [by left|by right].
    + destruct (IH (length (c' :: r')) ltac:(cbn [length] in *; lia) (c' :: r') eq_refl)
        as [E|[E Hne]]; rewrite E; destruct (is_linebreak c).
      * by left.
      * destruct (splitlines (c' :: r')); [by right|by left].
      * by right.
      * right. split; [done|]. by destruct (splitlines (c' :: r')).
Qed.

Lemma nonblank_lines (text : str) :
  List.filter (fun line => truthy (strip line)) (splitlines text)
  = List.filter (fun line => negb (blank line)) (spec_split is_linebreak text).
Proof.
  rewrite (filter_ext _ (fun line => negb (blank line)))
    by (intros; apply truthy_strip).
  destruct (spec_split_splitlines text) as [E|[E _]]; rewrite E; [|done].
  rewrite List.filter_app. cbn. by rewrite app_nil_r.
Qed.

(** Padding bytes go wherever they stand, and the Unicode line separator
    U+2028 (bytes E2 80 A8) ends a line like CR LF does. *)
Example decrypt_plain_sample :
  CNL.decrypt_plain
    [x68; x00; x69; x0d; x0a; x20; x0d; x0a; x79; x08; x6f; xe2; x80; xa8;
     x7a; x08; x08; x08]
  = Ok [lit "hi"; lit "yo"; lit "z"].
Proof. reflexivity. Qed.

Example decrypt_plain_bad_utf8 :
  CNL.decrypt_plain [x68; xc3; x28]
  = Raise (ValueError "Failed to decode decrypted data to UTF-8").
Proof. reflexivity. Qed.

(** C1, as stated, fails: a lone CR is neither CRLF nor LF, yet the code
    ends a line there. *)
Lemma decrypt_plain_splits_on_lone_CR :
  CNL.decrypt_plain [x61; x0d; x62] = Ok [[0x61%N]; [0x62%N]]
  /\ spec_decrypt_plain only_LF [x61; x0d; x62] = Ok [[0x61%N; 0x0D%N; 0x62%N]]
  /\ CNL.decrypt_plain [x61; x0d; x62] <> spec_decrypt_plain only_LF [x61; x0d; x62].
Proof. repeat split; try reflexivity. vm_compute. discriminate. Qed.

(** C1, amended.  From the decrypted buffer every byte 0x00 and 0x08 is
    removed wherever it stands, the rest is decoded as UTF-8 (a failure is
    the decode error), the text is cut at every line boundary that
    [str.splitlines] knows (CR LF as one; LF, CR, VT, FF, FS, GS, RS, NEL,
    LS, PS), blank lines are dropped and the others are returned in the
    order in which they stand. *)
Theorem decrypt_plain_universal_newlines (buf : bytes) :
  CNL.decrypt_plain buf = spec_decrypt_plain is_linebreak buf.
Proof.
  unfold CNL.decrypt_plain, spec_decrypt_plain.
  rewrite bytes_replace_strip.
  destruct (utf8_decode (spec_strip_padding buf)) as [text|]; [|reflexivity].
  f_equal. apply nonblank_lines.
Qed.

Lemma ends_lines_tail (c : N) (text : str) :
  ends_lines_with_crlf_or_lf (c :: text) -> ends_lines_with_crlf_or_lf text.
Proof.
  intros Hall pre x post -> Hx. by apply (Hall (c :: pre) x post).
Qed.

Lemma spec_split_crlf_or_lf (text : str) :
  ends_lines_with_crlf_or_lf text ->
  spec_split is_linebreak text = spec_split only_LF text.
Proof.
  remember (length text) as n eqn:Hn.
  revert text Hn. induction (lt_wf n) as [n _ IH]. intros text Hn Hall.
  assert (Hhead : forall c rest, text = c :: rest ->
            ~ (c = 0x0D%N /\ exists r, rest = 0x0A%N :: r) ->
            is_linebreak c = only_LF c).
  { intros c rest -> Hncrlf. destruct (is_linebreak c) eqn:Hc.
    - destruct (Hall [] c rest eq_refl Hc) as [->|Hcr]; [reflexivity|done].
    - unfold only_LF. destruct (N.eqb_spec c 10) as [->|]; [discriminate|done]. }
  destruct text as [|c [|c' r']]; [reflexivity| |].
  - cbn [spec_split]. rewrite (Hhead c [] eq_refl); [done|].
    by intros [_ [r Hr]].
  - rewrite !spec_split_cons2.
    destruct ((c =? 13)%N && (c' =? 10)%N) eqn:Hcrlf.
    + f_equal. apply (IH (length r')); [cbn [length] in Hn; lia|done|].
      by do 2 apply ends_lines_tail in Hall.
    + rewrite (Hhead c (c' :: r') eq_refl).
      * rewrite (IH (length (c' :: r'))); [done|cbn [length] in *; lia|done|].
        by apply ends_lines_tail in Hall.
      * intros [-> [r [= -> _]]]. discriminate.
Qed.

(** Where the text ends its lines with CR LF or LF only, the code does
    what C1 says as it stands. *)
Lemma decrypt_plain_crlf_or_lf (buf : bytes) (text : str) :
  utf8_decode (spec_strip_padding buf) = Some text ->
  ends_lines_with_crlf_or_lf text ->
  CNL.decrypt_plain buf = spec_decrypt_plain only_LF buf.
Proof.
  intros Htext Hall. unfold CNL.decrypt_plain, spec_decrypt_plain.
  rewrite bytes_replace_strip, Htext, nonblank_lines.
  by rewrite spec_split_crlf_or_lf.
Qed.

(** ** BatchDecryptor (lines 95-136) *)

Lemma decrypt_loop_spec `{CryptoLib} (filtered : list content_item) :
  forall idx links log,
    decrypt_loop idx filtered links log
    = (links ++ concat (omap decrypted_urls filtered),
       log ++ imap (fun i item => item_record (idx + i) item) filtered).
Proof.
  induction filtered as [|item rest IH]; intros idx links log.
  - cbn. by rewrite !app_nil_r.
  - cbn [decrypt_loop omap list_omap imap].
    unfold decrypted_urls at 1, item_record at 1, has_payload, decrypt_item,
      hoster_name_of.
    rewrite Nat.add_0_r.
    assert (Hshift : imap (fun i it => item_record (S idx + i) it) rest
                     = imap ((fun i it => item_record (idx + i) it) ∘ S) rest).
    { apply imap_ext. intros i it _. cbn. f_equal. lia. }
    destruct (truthy_opt (cnl_jk (get_or empty_cnl (item_cnl item)))),
             (truthy_opt (cnl_crypted (get_or empty_cnl (item_cnl item))));
      cbn [negb orb andb];
      try (rewrite IH, Hshift, <- app_assoc; reflexivity).
    destruct (CNL.__init__ item ≫= _) as [urls|e]; rewrite IH, Hshift.
    + cbn [concat]. by rewrite <- !app_assoc.
    + by rewrite <- app_assoc.
Qed.

(** C3.  Whatever the items are, [decrypt_content] returns a value: the
    links are the URL lists of the processed items that decrypted
    successfully, concatenated in item order, and every processed item
    whose decryption raised has left a record that carries its position,
    its hoster label and the error. *)
Theorem decrypt_content_fault_isolation `{CryptoLib}
  (content_items : list content_item) (mirror : option str) :
  let filtered := fst (select_items content_items mirror) in
  fst (decrypt_content content_items mirror)
  = concat (omap decrypted_urls filtered)
  /\ forall idx item e,
       filtered !! idx = Some item ->
       has_payload item = true ->
       decrypt_item item = Raise e ->
       In (InfoError idx (hoster_name_of item) e)
          (snd (decrypt_content content_items mirror)).
Proof.
  intros filtered. unfold decrypt_content. subst filtered.
  destruct (select_items content_items mirror) as [filtered log0].
  rewrite decrypt_loop_spec. cbn [fst snd]. split; [done|].
  intros idx item e Hidx Hpay Herr.
  apply in_or_app. right. apply list_elem_of_In.
  apply list_elem_of_lookup. exists idx.
  rewrite list_lookup_imap, Hidx. cbn.
  unfold item_record. by rewrite Hpay, Herr.
Qed.

Lemma decrypt_content_fault_isolation_witness :
  fst (@decrypt_content toy_crypto sample_items None)
  = concat (omap (@decrypted_urls toy_crypto)
                 (fst (select_items sample_items None)))
  /\ In (InfoError 1 (lit "Y") (ValueError "Failed to decode base64 data"))
        (snd (@decrypt_content toy_crypto sample_items None)).
Proof.
  destruct (@decrypt_content_fault_isolation toy_crypto sample_items None)
    as [Hlinks Hlog].
  split; [exact Hlinks|].
  apply (Hlog 1 (toy_item "Y" "0123456789abcdef0123456789abcdef" "corrupted!"));
    reflexivity.
Defined.

(** The run behind the witness: the middle item fails in the base64 step,
    the other two give their URLs, and the failure is on record. *)
Example decrypt_content_sample_run :
  @decrypt_content toy_crypto sample_items None
  = ([lit "http://a/1 http://a/2"; lit "http://c/1"],
     [DebugDecrypted 0 (lit "X") 1;
      InfoError 1 (lit "Y") (ValueError "Failed to decode base64 data");
      DebugDecrypted 2 (lit "Z") 1]).
Proof. vm_compute. reflexivity. Qed.

(** *** Which items are processed (lines 103-113) *)

Lemma startswith_spec (s prefix : str) :
  startswith s prefix = true <-> exists post, s = prefix ++ post.
Proof.
  revert s. induction prefix as [|p prefix IH]; intros s.
  - destruct s; cbn; split; eauto.
  - destruct s as [|c s]; cbn [startswith].
    + split; [done|]. intros [post Hp]. discriminate.
    + rewrite andb_true_iff, N.eqb_eq, IH. split.
      * intros [-> [post ->]]. by exists post.
      * intros [post Hp]. injection Hp as -> ->. eauto.
Qed.

(** [needle in haystack] holds exactly when the haystack is the needle
    with something before and something after it. *)
Lemma str_in_spec (needle haystack : str) :
  str_in needle haystack = true
  <-> exists pre post, haystack = pre ++ needle ++ post.
Proof.
  induction haystack as [|c rest IH]; cbn [str_in];
    rewrite orb_true_iff, startswith_spec.
  - split.
    + intros [[post Hp]|?]; [|done]. by exists [], post.
    + intros (pre & post & Hp). left.
      destruct pre; [by exists post|discriminate].
  - rewrite IH. split.
    + intros [[post Hp]|(pre & post & Hp)].
      * by exists [], post.
      * exists (c :: pre), post. by rewrite Hp.
    + intros (pre & post & Hp). destruct pre as [|c' pre].
      * left. by exists post.
      * right. injection Hp as -> ->. eauto.
Qed.

Lemma str_in_empty (haystack : str) : str_in [] haystack = true.
Proof. apply str_in_spec. by exists [], haystack. Qed.

(** Code points are compared as they are: no case folding. *)
Example str_in_case_sensitive :
  str_in (lit "rapid") (lit "Rapidgator") = false
  /\ str_in (lit "gator") (lit "Rapidgator") = true.
Proof. split; reflexivity. Qed.

(** With a filter that matches, the processed items are exactly those
    whose label has the filter inside it, and nothing is logged. *)
Lemma select_items_kept (content_items : list content_item) (m : str)
  (item : content_item) :
  m <> [] ->
  In item content_items -> str_in m (get_or [] (item_hoster item)) = true ->
  snd (select_items content_items (Some m)) = []
  /\ forall item',
       In item' (fst (select_items content_items (Some m)))
       <-> In item' content_items
           /\ exists pre post, get_or [] (item_hoster item') = pre ++ m ++ post.
Proof.
  intros Hm Hin Hmatch. unfold select_items.
  destruct m as [|c m]; [done|]. cbn [truthy_opt truthy get_or negb andb].
  set (keep := fun it : content_item =>
                 str_in (c :: m) (get_or [] (item_hoster it))).
  assert (Hne : List.filter keep content_items <> []).
  { intros E. assert (Hk : In item (List.filter keep content_items))
      by (apply filter_In; by split).
    by rewrite E in Hk. }
  rewrite bool_decide_eq_false_2 by done. cbn [fst snd]. split; [done|].
  intros item'. rewrite filter_In. unfold keep. by rewrite str_in_spec.
Qed.

(** C6, as stated, fails: with an empty filter string and no item the
    filter matches zero items, and no fallback is logged. *)
Lemma select_items_empty_filter_logs_nothing :
  select_items [] (Some []) = ([], [])
  /\ filtering_as_specified [] (Some []) = ([], [InfoFallback []]).
Proof. split; reflexivity. Qed.

(** C6, amended.  A filter that is provided and not empty keeps exactly the
    items whose hoster label contains it (code points compared as they
    are), in their order; when it matches no item, all items are processed
    and the fallback is logged, nothing is raised.  When the filter is
    absent or empty, all items are processed and nothing is logged. *)
Theorem select_items_filtering (content_items : list content_item)
  (mirror : option str) :
  select_items content_items mirror
  = filtering_as_specified content_items (nonempty_filter mirror).
Proof.
  destruct mirror as [[|c m]|]; [reflexivity| |reflexivity].
  unfold select_items, filtering_as_specified. cbn [truthy_opt truthy nonempty_filter get_or].
  destruct (List.filter _ content_items) as [|item kept] eqn:E; cbn [andb negb].
  - by rewrite bool_decide_eq_true_2.
  - by rewrite bool_decide_eq_false_2.
Qed.

(** ** ImageDifferenceEngine (lines 139-152) *)

Lemma histogram_zero_R (im : Image) :
  index (histogram im) 0 = Ok (count_value 0 0 im).
Proof. reflexivity. Qed.

Lemma histogram_zero_G (im : Image) :
  index (histogram im) 256 = Ok (count_value 1 0 im).
Proof. reflexivity. Qed.

Lemma histogram_zero_B (im : Image) :
  index (histogram im) 512 = Ok (count_value 2 0 im).
Proof. reflexivity. Qed.

Lemma calculate_pixel_based_difference_eq (img1 img2 : Image) :
  calculate_pixel_based_difference img1 img2
  = true_div ((total_samples img1 img2 - zero_samples img1 img2) * 100)
             (total_samples img1 img2).
Proof.
  unfold calculate_pixel_based_difference, total_samples, zero_samples.
  destruct (im_size (ImageChops_difference img1 img2)) as [w h] eqn:E.
  rewrite histogram_zero_R, histogram_zero_G, histogram_zero_B.
  reflexivity.
Qed.

Lemma getdata_ext (a b : Image) :
  same_image a b -> getdata a = getdata b.
Proof.
  intros [Hsize Hpx]. unfold getdata. rewrite <- Hsize.
  rewrite !flat_map_concat_map. f_equal.
  apply map_ext_in. intros y Hy. apply map_ext_in. intros x Hx.
  apply in_seq in Hx, Hy. apply Hpx; lia.
Qed.

Lemma length_getdata (im : Image) :
  length (getdata im) = snd (im_size im) * fst (im_size im).
Proof.
  unfold getdata.
  assert (Hrows : forall rows : list nat,
    length (flat_map (fun y => map (fun x => getpixel im x y)
                                   (seq 0 (fst (im_size im)))) rows)
    = length rows * fst (im_size im)).
  { induction rows as [|y rows IH]; [reflexivity|].
    cbn [flat_map]. rewrite length_app, IH, length_map, length_seq. cbn. lia. }
  by rewrite Hrows, length_seq.
Qed.

Lemma count_value_bounds (c : nat) (v : Z) (im : Image) :
  (0 <= count_value c v im
   <= Z.of_nat (fst (im_size im)) * Z.of_nat (snd (im_size im)))%Z.
Proof.
  unfold count_value.
  pose proof (List.filter_length_le (fun p => (band c p =? v)%Z) (getdata im)) as Hle.
  rewrite length_getdata in Hle. lia.
Qed.

Lemma zero_samples_bounds (img1 img2 : Image) :
  (0 <= zero_samples img1 img2 <= total_samples img1 img2)%Z.
Proof.
  unfold zero_samples, total_samples. cbv zeta.
  pose proof (count_value_bounds 0 0 (ImageChops_difference img1 img2)).
  pose proof (count_value_bounds 1 0 (ImageChops_difference img1 img2)).
  pose proof (count_value_bounds 2 0 (ImageChops_difference img1 img2)).
  lia.
Qed.

Lemma true_div_percent (a b : Z) :
  (0 <= a <= 100 * b)%Z -> (0 < b)%Z ->
  exists q, true_div a b = Ok q /\ (0 <= q <= 100)%Q.
Proof.
  intros [Ha0 Ha] Hb. unfold true_div.
  destruct (Z.eqb_spec b 0) as [->|_]; [lia|].
  eexists. split; [reflexivity|].
  assert (Hbq : (0 < inject_Z b)%Q) by (rewrite (Zlt_Qlt 0 b) in Hb; exact Hb).
  split.
  - apply Qle_shift_div_l; [exact Hbq|].
    rewrite Qmult_0_l. rewrite (Zle_Qle 0 a) in Ha0. exact Ha0.
  - apply Qle_shift_div_r; [exact Hbq|].
    rewrite (Zle_Qle a (100 * b)) in Ha. rewrite inject_Z_mult in Ha. exact Ha.
Qed.

Lemma difference_defined (img1 img2 : Image) :
  0 < fst (im_size img1) -> 0 < snd (im_size img1) ->
  0 < fst (im_size img2) -> 0 < snd (im_size img2) ->
  exists q, calculate_pixel_based_difference img1 img2 = Ok q
            /\ (0 <= q <= 100)%Q.
Proof.
  intros Hw1 Hh1 Hw2 Hh2. rewrite calculate_pixel_based_difference_eq.
  pose proof (zero_samples_bounds img1 img2) as Hz.
  apply true_div_percent; [lia|].
  unfold total_samples. cbn [ImageChops_difference im_size fst snd]. nia.
Qed.

Lemma difference_undefined (img1 img2 : Image) :
  fst (im_size img1) * snd (im_size img1) = 0
  \/ fst (im_size img2) * snd (im_size img2) = 0 ->
  calculate_pixel_based_difference img1 img2 = Raise ZeroDivisionError.
Proof.
  intros Hzero. rewrite calculate_pixel_based_difference_eq. unfold true_div.
  replace (total_samples img1 img2) with 0%Z; [reflexivity|].
  unfold total_samples. cbn [ImageChops_difference im_size fst snd]. nia.
Qed.

(** C10.  Nothing guards the division by [w * h * 3]: when both images
    have at least one pixel the call returns a percentage between 0 and
    100, and when one of them has no pixel it raises the division error. *)
Theorem calculate_pixel_based_difference_range (img1 img2 : Image) :
  (0 < fst (im_size img1) -> 0 < snd (im_size img1) ->
   0 < fst (im_size img2) -> 0 < snd (im_size img2) ->
   exists q, calculate_pixel_based_difference img1 img2 = Ok q
             /\ (0 <= q <= 100)%Q)
  /\ (fst (im_size img1) * snd (im_size img1) = 0
      \/ fst (im_size img2) * snd (im_size img2) = 0 ->
      calculate_pixel_based_difference img1 img2 = Raise ZeroDivisionError).
Proof.
  split; [apply difference_defined|apply difference_undefined].
Qed.

Lemma calculate_pixel_based_difference_range_witness :
  (exists q,
     calculate_pixel_based_difference (solid 2 2 (0, 0, 0)%Z)
       (dotted 2 2 (0, 0, 0)%Z (9, 0, 0)%Z) = Ok q
     /\ (0 <= q <= 100)%Q)
  /\ calculate_pixel_based_difference (solid 0 3 (0, 0, 0)%Z)
       (solid 0 3 (0, 0, 0)%Z) = Raise ZeroDivisionError.
Proof.
  split.
  - apply (calculate_pixel_based_difference_range (solid 2 2 (0, 0, 0)%Z)
             (dotted 2 2 (0, 0, 0)%Z (9, 0, 0)%Z)); cbn; lia.
  - apply (calculate_pixel_based_difference_range (solid 0 3 (0, 0, 0)%Z)
             (solid 0 3 (0, 0, 0)%Z)). left. reflexivity.
Defined.

(** The value at the first pair of images: one sample out of twelve. *)
Example calculate_pixel_based_difference_sample :
  calculate_pixel_based_difference (solid 2 2 (0, 0, 0)%Z)
    (dotted 2 2 (0, 0, 0)%Z (9, 0, 0)%Z)
  = Ok (inject_Z 100 / inject_Z 12)%Q.
Proof. reflexivity. Qed.

Lemma ImageChops_difference_comm (a b : Image) :
  same_image (ImageChops_difference a b) (ImageChops_difference b a).
Proof.
  split.
  - cbn. f_equal; apply Nat.min_comm.
  - intros x y _ _. cbn.
    destruct (getpixel a x y) as [[r1 g1] b1], (getpixel b x y) as [[r2 g2] b2].
    f_equal; [f_equal|]; lia.
Qed.

Lemma ImageChops_difference_ext (a a' b b' : Image) :
  same_image a a' -> same_image b b' ->
  same_image (ImageChops_difference a b) (ImageChops_difference a' b').
Proof.
  intros [Hsa Hpa] [Hsb Hpb]. split.
  - cbn. by rewrite Hsa, Hsb.
  - cbn [ImageChops_difference im_size getpixel fst snd]. intros x y Hx Hy.
    rewrite Hpa, Hpb by lia. reflexivity.
Qed.

(** The percentage is read off the pixels of the difference image. *)
Lemma difference_of_same_image (a b a' b' : Image) :
  same_image (ImageChops_difference a b) (ImageChops_difference a' b') ->
  calculate_pixel_based_difference a b = calculate_pixel_based_difference a' b'.
Proof.
  intros Hsame. rewrite !calculate_pixel_based_difference_eq.
  unfold total_samples, zero_samples, count_value. cbv zeta.
  rewrite (getdata_ext _ _ Hsame). destruct Hsame as [-> _]. reflexivity.
Qed.

(** C7.  For two normalised images of the same size the percentage does
    not depend on the order of the arguments, and it is determined by the
    two pictures alone: the same pictures give the same answer. *)
Theorem calculate_pixel_based_difference_symmetric (a b : Image) :
  im_size a = im_size b ->
  calculate_pixel_based_difference a b = calculate_pixel_based_difference b a
  /\ forall a' b', same_image a a' -> same_image b b' ->
       calculate_pixel_based_difference a' b'
       = calculate_pixel_based_difference a b.
Proof.
  intros _. split.
  - apply difference_of_same_image, ImageChops_difference_comm.
  - intros a' b' Ha Hb. symmetry.
    by apply difference_of_same_image, ImageChops_difference_ext.
Qed.

Lemma calculate_pixel_based_difference_symmetric_witness :
  calculate_pixel_based_difference (solid 2 2 (0, 0, 0)%Z)
    (dotted 2 2 (0, 0, 0)%Z (9, 0, 0)%Z)
  = calculate_pixel_based_difference (dotted 2 2 (0, 0, 0)%Z (9, 0, 0)%Z)
      (solid 2 2 (0, 0, 0)%Z)
  /\ forall a' b',
       same_image (solid 2 2 (0, 0, 0)%Z) a' ->
       same_image (dotted 2 2 (0, 0, 0)%Z (9, 0, 0)%Z) b' ->
       calculate_pixel_based_difference a' b'
       = calculate_pixel_based_difference (solid 2 2 (0, 0, 0)%Z)
           (dotted 2 2 (0, 0, 0)%Z (9, 0, 0)%Z).
Proof.
  apply (calculate_pixel_based_difference_symmetric (solid 2 2 (0, 0, 0)%Z)
           (dotted 2 2 (0, 0, 0)%Z (9, 0, 0)%Z)).
  reflexivity.
Defined.

(** ** OutlierSelector (lines 206-215) *)

Section MaxFacts.
Context {A K : Type} (gt : K -> K -> bool) (key : A -> K).



End MaxFacts.

Section ScoreFacts.
Context {Id Img Score : Type}.
Context (difference : Img -> Img -> result Score) (D : Img -> Img -> Score).
Context (zero : Score) (add : Score -> Score -> Score).

Lemma inner_loop_sum (idx_i : nat) (img_i : Img) (rest : list (Id * Img)) :
  forall idx_j tot,
    (forall b, In b (map snd rest) -> difference img_i b = Ok (D img_i b)) ->
    inner_loop difference add idx_i img_i idx_j rest tot
    = Ok (fold_left add
            (map (D img_i)
               (if decide (idx_j <= idx_i)
                then others (idx_i - idx_j) rest
                else map snd rest))
            tot).
Proof.
  unfold others.
  induction rest as [|[cid_j img_j] rest IH]; intros idx_j tot Hdef.
  - cbn. destruct (decide (idx_j <= idx_i)); [|done].
    by destruct (idx_i - idx_j).
  - cbn [inner_loop].
    assert (Hrest : forall b, In b (map snd rest) ->
                      difference img_i b = Ok (D img_i b)).
    { intros b Hb. apply Hdef. by right. }
    destruct (Nat.eqb_spec idx_i idx_j) as [->|Hne].
    + rewrite IH by done. rewrite Nat.sub_diag.
      destruct (decide (S idx_j <= idx_j)); [lia|].
      destruct (decide (idx_j <= idx_j)); [|lia]. reflexivity.
    + rewrite (Hdef img_j) by (by left). cbn. rewrite IH by done.
      destruct (decide (idx_j <= idx_i)) as [Hle|Hgt].
      * destruct (decide (S idx_j <= idx_i)); [|lia].
        replace (idx_i - idx_j) with (S (idx_i - S idx_j)) by lia.
        reflexivity.
      * destruct (decide (S idx_j <= idx_i)); [lia|]. reflexivity.
Qed.

Lemma outer_loop_scores (pil_images rest : list (Id * Img)) :
  forall idx_i diffs_pil,
    (forall a b, In a (map snd rest) -> In b (map snd pil_images) ->
       difference a b = Ok (D a b)) ->
    outer_loop difference zero add pil_images idx_i rest diffs_pil
    = Ok (diffs_pil
          ++ imap (fun i c => (fst c, aggregateScore D zero add pil_images
                                        (idx_i + i) (snd c)))
                  rest).
Proof.
  induction rest as [|[cid_i img_i] rest IH]; intros idx_i diffs_pil Hdef.
  - cbn. by rewrite app_nil_r.
  - cbn [outer_loop imap].
    rewrite inner_loop_sum by (intros b Hb; apply Hdef; [by left|done]).
    cbn. rewrite IH by (intros a b Ha Hb; apply Hdef; [by right|done]).
    rewrite <- app_assoc. cbn. rewrite Nat.sub_0_r, Nat.add_0_r.
    do 3 f_equal. apply imap_ext. intros i c _.
    unfold compose, aggregateScore, others.
    by replace (idx_i + S i) with (S (idx_i + i)) by lia.
Qed.

Lemma compute_diffs_scores (pil_images : list (Id * Img)) :
  (forall a b, In a (map snd pil_images) -> In b (map snd pil_images) ->
     difference a b = Ok (D a b)) ->
  compute_diffs difference zero add pil_images
  = Ok (aggregateScores D zero add pil_images).
Proof.
  intros Hdef. unfold compute_diffs. by rewrite outer_loop_scores.
Qed.


End ScoreFacts.

Lemma Qgtb_lt (a b : Q) : Qgtb a b = true <-> (b < a)%Q.
Proof.
  unfold Qgtb. rewrite negb_true_iff, <- not_true_iff_false, Qle_bool_iff.
  split; [apply Qnot_le_lt|apply Qlt_not_le].
Qed.


Lemma diffPercent_defined {Id : Type} (pil_images : list (Id * Image)) :
  (forall img, In img (map snd pil_images) ->
     0 < fst (im_size img) /\ 0 < snd (im_size img)) ->
  forall a b, In a (map snd pil_images) -> In b (map snd pil_images) ->
    calculate_pixel_based_difference a b = Ok (diffPercent a b).
Proof.
  intros Hpix a b Ha Hb.
  destruct (Hpix a Ha) as [Hwa Hha], (Hpix b Hb) as [Hwb Hhb].
  destruct (difference_defined a b Hwa Hha Hwb Hhb) as (q & Hq & _).
  unfold diffPercent. by rewrite Hq.
Qed.

Lemma diffPercent_float_defined {Id : Type} (pil_images : list (Id * Image)) :
  (forall img, In img (map snd pil_images) ->
     0 < fst (im_size img) /\ 0 < snd (im_size img)) ->
  forall a b, In a (map snd pil_images) -> In b (map snd pil_images) ->
    calculate_pixel_based_difference_float a b = Ok (diffPercent_float a b).
Proof.
  intros Hpix a b Ha Hb.
  unfold diffPercent_float, calculate_pixel_based_difference_float.
  by rewrite (diffPercent_defined pil_images Hpix a b Ha Hb).
Qed.




(** The run behind the witness: the second candidate is returned, with
    the float 16.666666666666668 as its score. *)
Example select_outlier_sample :
  select_outlier calculate_pixel_based_difference_float 0%Q float_add Qgtb
    sample_candidates
  = Ok (2, 4691249611844267 # 281474976710656).
Proof. vm_compute. reflexivity. Qed.

(** Three candidates with the same picture: all sums are zero and the
    first candidate is returned. *)
Example select_outlier_tie :
  select_outlier calculate_pixel_based_difference_float 0%Q float_add Qgtb
    [(1, solid 2 2 (0, 0, 0)%Z); (2, solid 2 2 (0, 0, 0)%Z);
     (3, solid 2 2 (0, 0, 0)%Z)]
  = Ok (1, 0%Q).
Proof. vm_compute. reflexivity. Qed.

(** The four candidates of [tie_candidates], as the program scores them:
    133.33333333333334, 200.0, 133.33333333333334 and
    200.00000000000003. *)
Example compute_diffs_tie_candidates :
  compute_diffs calculate_pixel_based_difference_float 0%Q float_add
    tie_candidates
  = Ok [(1, 4691249611844267 # 35184372088832); (2, 200 # 1);
        (3, 4691249611844267 # 35184372088832);
        (4, 7036874417766401 # 35184372088832)].
Proof. vm_compute. reflexivity. Qed.

(** ** CaptchaResolver (lines 155-230) *)

Example solve_captcha_sample_run :
  @solve_captcha toy_pil nat format_nat (lit "al") toy_state
    (toy_flaresolverr [1; 2; 3] (lit "1")) (toy_session good_replies) []
  = (Ok [("response"%string, VStr (lit "1")); ("captcha_id"%string, VId 2)],
     [challenge_request (captcha_base_of toy_state (lit "al"));
      @image_request nat format_nat (captcha_base_of toy_state (lit "al")) 1;
      @image_request nat format_nat (captcha_base_of toy_state (lit "al")) 2;
      @image_request nat format_nat (captcha_base_of toy_state (lit "al")) 3;
      InfoCaptcha 2 22;
      answer_request (captcha_base_of toy_state (lit "al")) 2]).
Proof. vm_compute. reflexivity. Qed.

Section ResolverFacts.
Context `{PILLib} {Id : Type} `{Format Id}.
Context (fetch_via_requests_session : requests_session Id) (captcha_base : str).

Lemma fetch_images_app (pre post : list Id) :
  forall images tr,
    fetch_images fetch_via_requests_session captcha_base (pre ++ post) images tr
    = match fetch_images fetch_via_requests_session captcha_base pre images tr with
      | (Ok images', tr') =>
        fetch_images fetch_via_requests_session captcha_base post images' tr'
      | (Raise e, tr') => (Raise e, tr')
      end.
Proof.
  induction pre as [|c pre IH]; intros images tr; [reflexivity|].
  cbn [app fetch_images].
  destruct (fetch_via_requests_session tr "GET"%string _ 30%Z) as [r_img|e];
    [|reflexivity].
  destruct (negb (status_code r_img =? 200)%Z); [reflexivity|].
  destruct (bool_decide (content r_img = [])); [reflexivity|].
  apply IH.
Qed.

(** The image requests go out one after the other in the order of the
    candidates, and all of them when the loop comes to its end. *)
Lemma fetch_images_in_order (raw_ids : list Id) :
  forall images tr outcome tr',
    fetch_images fetch_via_requests_session captcha_base raw_ids images tr
    = (outcome, tr') ->
    exists n, n <= length raw_ids
      /\ tr' = tr ++ map (image_request captcha_base) (take n raw_ids)
      /\ forall images', outcome = Ok images' ->
           n = length raw_ids
           /\ map fst images' = map fst images ++ raw_ids.
Proof.
  induction raw_ids as [|c rest IH]; intros images tr outcome tr' Hrun.
  - cbn in Hrun. injection Hrun as <- <-. exists 0. cbn.
    rewrite !app_nil_r. split; [done|]. split; [done|].
    intros images' [= <-]. done.
  - cbn [fetch_images] in Hrun.
    assert (Hfail : forall e,
      (outcome, tr') = (Raise e, tr ++ [image_request captcha_base c]) ->
      exists n, n <= length (c :: rest)
        /\ tr' = tr ++ map (image_request captcha_base) (take n (c :: rest))
        /\ forall images', outcome = Ok images' ->
             n = length (c :: rest)
             /\ map fst images' = map fst images ++ c :: rest).
    { intros e [= -> ->]. exists 1. cbn. split; [lia|]. split; [|done].
      by rewrite take_0. }
    destruct (fetch_via_requests_session tr "GET"%string _ 30%Z) as [r_img|e];
      [|by eapply Hfail].
    destruct (negb (status_code r_img =? 200)%Z); [by eapply Hfail|].
    destruct (bool_decide (content r_img = [])); [by eapply Hfail|].
    apply IH in Hrun as (n & Hn & -> & Hok).
    exists (S n). cbn [length take map]. split; [lia|]. split.
    + by rewrite <- app_assoc.
    + intros images' Himg. destruct (Hok _ Himg) as [-> Hfst].
      split; [done|]. rewrite Hfst, map_app, <- app_assoc. done.
Qed.

Lemma fetch_images_stops (c : Id) (rest : list Id) (images : list (Id * bytes))
  (tr : list (event Id)) (r_img : response) :
  fetch_via_requests_session tr "GET"%string
    (captcha_base ++ lit "?cid=0&hash=" ++ format c) 30%Z = Ok r_img ->
  status_code r_img <> 200%Z \/ content r_img = [] ->
  exists e,
    fetch_images fetch_via_requests_session captcha_base (c :: rest) images tr
    = (Raise e, tr ++ [image_request captcha_base c]).
Proof.
  intros Hreply Hbad. cbn [fetch_images]. rewrite Hreply.
  destruct (Z.eqb_spec (status_code r_img) 200) as [H200|Hn200]; cbn [negb].
  - destruct Hbad as [Hs|Hc]; [done|].
    rewrite bool_decide_eq_true_2 by done. eauto.
  - eauto.
Qed.

End ResolverFacts.

(** C8.  The images are requested one candidate after the other, in the
    order of the challenge.  As soon as one request is answered with a
    status that is no success, or with an empty body, the resolution
    raises: the trace ends with that request, so no later candidate is
    requested, nothing is compared and nothing is submitted. *)
Theorem solve_captcha_fetch_failure_is_fatal `{PILLib} {Id : Type} `{Format Id}
  (hostname : str) (shared_state : shared_state_t)
  (fetch_via_flaresolverr : flaresolverr Id)
  (fetch_via_requests_session : requests_session Id)
  (tr : list (event Id)) (reply : fs_result Id)
  (pre : list Id) (c : Id) (post : list Id)
  (images : list (Id * bytes)) (tr1 : list (event Id)) (r_img : response) :
  let captcha_base := captcha_base_of shared_state hostname in
  let tr0 := tr ++ [challenge_request captcha_base] in
  fetch_via_flaresolverr tr "POST"%string captcha_base (PostChallenge 0 1) 30%Z
  = Ok reply ->
  fs_json reply = Ok (JsonList (pre ++ c :: post)) ->
  2 <= length (pre ++ c :: post) ->
  fetch_images fetch_via_requests_session captcha_base pre [] tr0
  = (Ok images, tr1) ->
  fetch_via_requests_session tr1 "GET"%string
    (captcha_base ++ lit "?cid=0&hash=" ++ format c) 30%Z = Ok r_img ->
  is_success (status_code r_img) = false \/ content r_img = [] ->
  tr1 = tr0 ++ map (image_request captcha_base) pre
  /\ exists e,
       solve_captcha hostname shared_state fetch_via_flaresolverr
         fetch_via_requests_session tr
       = (Raise e, tr1 ++ [image_request captcha_base c]).
Proof.
  intros captcha_base tr0 Hreply Hjson Hlen Hpre Hc Hbad. split.
  - destruct (fetch_images_in_order _ _ _ _ _ _ _ Hpre) as (n & Hn & -> & Hok).
    destruct (Hok _ eq_refl) as [-> _]. by rewrite firstn_all.
  - assert (Hbad' : status_code r_img <> 200%Z \/ content r_img = []).
    { destruct Hbad as [Hs|Hc0]; [left|by right].
      unfold is_success in Hs. lia. }
    destruct (fetch_images_stops fetch_via_requests_session captcha_base
                c post images tr1 r_img Hc Hbad') as [e He].
    exists e. unfold solve_captcha.
    change (lit "https://www."
            ++ get_or (lit "None") (config_Hostnames_get shared_state hostname)
            ++ lit "/files/captcha") with captcha_base.
    cbv zeta. rewrite Hreply, Hjson.
    destruct (Nat.ltb_spec (length (pre ++ c :: post)) 2) as [Hlt|_]; [lia|].
    change (tr ++ [FlaresolverrCall "POST" captcha_base (PostChallenge 0 1) 30])
      with tr0.
    by rewrite fetch_images_app, Hpre, He.
Qed.

Lemma solve_captcha_fetch_failure_is_fatal_witness :
  [challenge_request (captcha_base_of toy_state (lit "al"));
   @image_request nat format_nat (captcha_base_of toy_state (lit "al")) 1]
  = ([] ++ [challenge_request (captcha_base_of toy_state (lit "al"))])
    ++ map (@image_request nat format_nat (captcha_base_of toy_state (lit "al"))) [1]
  /\ exists e,
       @solve_captcha toy_pil nat format_nat (lit "al") toy_state
         (toy_flaresolverr [1; 2; 3] (lit "1")) (toy_session bad_replies) []
       = (Raise e,
          [challenge_request (captcha_base_of toy_state (lit "al"));
           @image_request nat format_nat (captcha_base_of toy_state (lit "al")) 1]
          ++ [@image_request nat format_nat (captcha_base_of toy_state (lit "al")) 2]).
Proof.
  apply (@solve_captcha_fetch_failure_is_fatal toy_pil nat format_nat
           (lit "al") toy_state (toy_flaresolverr [1; 2; 3] (lit "1"))
           (toy_session bad_replies) []
           {| fs_json := Ok (JsonList [1; 2; 3]); fs_text := lit "ids" |}
           [1] 2 [3] [(1, [x00])] _
           {| status_code := 404; content := [x09] |}).
  - reflexivity.
  - reflexivity.
  - cbn. lia.
  - reflexivity.
  - reflexivity.
  - left. reflexivity.
Defined.

(** C9, as stated, fails: the dict that a successful resolution returns
    holds the response text and the selected identifier, and no score. *)
Lemma solve_captcha_returns_no_score :
  exists r tr',
    @solve_captcha toy_pil nat format_nat (lit "al") toy_state
      (toy_flaresolverr [1; 2; 3] (lit "1")) (toy_session good_replies) []
    = (Ok r, tr')
    /\ forall selectedId score text, ~ holds_resolution r selectedId score text.
Proof.
  eexists _, _. split; [vm_compute; reflexivity|].
  intros selectedId score text (_ & Hscore & _). cbn in Hscore.
  destruct Hscore as [Hs|[Hs|[]]]; discriminate.
Qed.

(** C9, amended.  A successful resolution returns the text of the reply to
    the submission, as it came, and the identifier that was selected and
    submitted: the one [select_outlier] finds among the opened images of
    the candidates of the challenge.  The aggregate score is not part of
    what is returned; its share per image, cut to an integer, is logged
    before the submission. *)
Theorem solve_captcha_result `{PILLib} {Id : Type} `{Format Id}
  (hostname : str) (shared_state : shared_state_t)
  (fetch_via_flaresolverr : flaresolverr Id)
  (fetch_via_requests_session : requests_session Id)
  (tr tr' : list (event Id)) (r : list (string * value Id)) :
  solve_captcha hostname shared_state fetch_via_flaresolverr
    fetch_via_requests_session tr = (Ok r, tr') ->
  let captcha_base := captcha_base_of shared_state hostname in
  exists challenge raw_ids images tr_sel pil_images identified score reply,
    fetch_via_flaresolverr tr "POST"%string captcha_base (PostChallenge 0 1) 30%Z
    = Ok challenge
    /\ fs_json challenge = Ok (JsonList raw_ids)
    /\ fetch_images fetch_via_requests_session captcha_base raw_ids []
         (tr ++ [challenge_request captcha_base])
       = (Ok images, tr_sel)
    /\ open_all images [] = Ok pil_images
    /\ select_outlier calculate_pixel_based_difference_float 0%Q float_add Qgtb
         pil_images = Ok (identified, score)
    /\ let pct := py_int (float_div score
                            (float_of_int (Z.of_nat (length images)))) in
       tr' = tr_sel ++ [InfoCaptcha identified pct;
                        answer_request captcha_base identified]
       /\ fetch_via_flaresolverr (tr_sel ++ [InfoCaptcha identified pct])
            "POST"%string captcha_base (PostAnswer 0 identified 2) 60%Z
          = Ok reply
       /\ r = [("response"%string, VStr (fs_text reply));
               ("captcha_id"%string, VId identified)].
Proof.
  intros Hrun captcha_base. unfold solve_captcha in Hrun.
  change (lit "https://www."
          ++ get_or (lit "None") (config_Hostnames_get shared_state hostname)
          ++ lit "/files/captcha") with captcha_base in Hrun.
  cbv zeta in Hrun.
  change (tr ++ [FlaresolverrCall "POST" captcha_base (PostChallenge 0 1) 30])
    with (tr ++ [challenge_request captcha_base]) in Hrun.
  destruct (fetch_via_flaresolverr tr _ _ _ _) as [challenge|] eqn:Hchallenge;
    [|done].
  destruct (fs_json challenge) as [[raw_ids|]|[]] eqn:Hjson; try done.
  destruct (length raw_ids <? 2)%nat; [done|].
  destruct (fetch_images _ _ _ _ _) as [[images|] tr1] eqn:Hfetch; [|done].
  destruct (open_all images []) as [pil_images|] eqn:Hopen; [|done].
  cbn [mbind result_bind] in Hrun.
  destruct (select_outlier _ _ _ _ pil_images) as [[identified score]|] eqn:Hsel;
    [|done].
  assert (Himages : images <> []).
  { intros ->. cbn in Hopen. injection Hopen as <-. by cbn in Hsel. }
  rewrite bool_decide_eq_false_2 in Hrun by done.
  destruct (fetch_via_flaresolverr (tr1 ++ _) _ _ _ _) as [reply|] eqn:Hreply;
    [|done].
  injection Hrun as <- <-.
  exists challenge, raw_ids, images, tr1, pil_images, identified, score, reply.
  cbv zeta. repeat split; try done. by rewrite <- app_assoc.
Qed.

Lemma solve_captcha_result_witness :
  exists challenge raw_ids images tr_sel pil_images identified score reply,
    toy_flaresolverr [1; 2; 3] (lit "1") [] "POST"%string
      (captcha_base_of toy_state (lit "al")) (PostChallenge 0 1) 30%Z
    = Ok challenge
    /\ fs_json challenge = Ok (JsonList raw_ids)
    /\ @fetch_images nat format_nat (toy_session good_replies)
         (captcha_base_of toy_state (lit "al")) raw_ids []
         ([] ++ [challenge_request (captcha_base_of toy_state (lit "al"))])
       = (Ok images, tr_sel)
    /\ @open_all toy_pil nat images [] = Ok pil_images
    /\ select_outlier calculate_pixel_based_difference_float 0%Q float_add Qgtb
         pil_images = Ok (identified, score)
    /\ [challenge_request (captcha_base_of toy_state (lit "al"));
        @image_request nat format_nat (captcha_base_of toy_state (lit "al")) 1;
        @image_request nat format_nat (captcha_base_of toy_state (lit "al")) 2;
        @image_request nat format_nat (captcha_base_of toy_state (lit "al")) 3;
        InfoCaptcha 2 22;
        answer_request (captcha_base_of toy_state (lit "al")) 2]
       = tr_sel
         ++ [InfoCaptcha identified
               (py_int (float_div score
                          (float_of_int (Z.of_nat (length images)))));
             answer_request (captcha_base_of toy_state (lit "al")) identified]
    /\ toy_flaresolverr [1; 2; 3] (lit "1")
         (tr_sel
          ++ [InfoCaptcha identified
                (py_int (float_div score
                           (float_of_int (Z.of_nat (length images)))))])
         "POST"%string (captcha_base_of toy_state (lit "al"))
         (PostAnswer 0 identified 2) 60%Z
       = Ok reply
    /\ [("response"%string, VStr (lit "1")); ("captcha_id"%string, VId 2)]
       = [("response"%string, VStr (fs_text reply));
          ("captcha_id"%string, VId identified)].
Proof.
  apply (@solve_captcha_result toy_pil nat format_nat (lit "al") toy_state
           (toy_flaresolverr [1; 2; 3] (lit "1")) (toy_session good_replies) []).
  vm_compute. reflexivity.
Defined.

(** ** Floats: rounding keeps the order and the small whole numbers *)

Lemma pow2_pos (k : Z) : (0 < pow2 k)%Q.
Proof. apply Qpower_0_lt. reflexivity. Qed.

Lemma pow2_add (a b : Z) : (pow2 (a + b) == pow2 a * pow2 b)%Q.
Proof. apply Qpower_plus. discriminate. Qed.

Lemma pow2_nonneg (k : Z) : (0 <= k)%Z -> (pow2 k == inject_Z (2 ^ k))%Q.
Proof. intros Hk. unfold pow2. symmetry. apply (Zpower_Qpower 2 k Hk). Qed.

Lemma pow2_ge_1 (k : Z) : (0 <= k)%Z -> (1 <= pow2 k)%Q.
Proof.
  intros Hk. rewrite pow2_nonneg by exact Hk.
  change 1%Q with (inject_Z 1). rewrite <- Zle_Qle.
  pose proof (Z.pow_pos_nonneg 2 k). lia.
Qed.

Lemma pow2_le (a b : Z) : (a <= b)%Z -> (pow2 a <= pow2 b)%Q.
Proof.
  intros Hab. replace b with (a + (b - a))%Z by lia. rewrite pow2_add.
  pose proof (pow2_pos a). pose proof (pow2_ge_1 (b - a)).
  assert (1 <= pow2 (b - a))%Q by (apply H0; lia). nra.
Qed.

Lemma pow2_opp (k : Z) : (pow2 k * pow2 (- k) == 1)%Q.
Proof. rewrite <- pow2_add. replace (k + - k)%Z with 0%Z by lia. reflexivity. Qed.

Lemma Qmake_mult_den (q : Q) : (q * inject_Z (Zpos (Qden q)) == inject_Z (Qnum q))%Q.
Proof.
  destruct q as [n d]. unfold Qeq, inject_Z, Qmult. cbn. nia.
Qed.

Lemma ilog2_spec (q : Q) :
  (0 < q)%Q -> (pow2 (ilog2 q) <= q < pow2 (ilog2 q + 1))%Q.
Proof.
  intros Hq. unfold ilog2.
  set (n := Qnum q). set (d := Zpos (Qden q)).
  set (a := Z.log2 n). set (b := Z.log2 d).
  assert (Hn : (0 < n)%Z) by (destruct q; unfold Qlt in Hq; cbn in *; lia).
  assert (Hd : (0 < d)%Z) by (unfold d; lia).
  destruct (Z.log2_spec n Hn) as [Hn1 Hn2]. fold a in Hn1, Hn2.
  destruct (Z.log2_spec d Hd) as [Hd1 Hd2]. fold b in Hd1, Hd2.
  assert (Ha : (0 <= a)%Z) by apply Z.log2_nonneg.
  assert (Hb : (0 <= b)%Z) by apply Z.log2_nonneg.
  pose proof (Qmake_mult_den q) as Hqd. fold n d in Hqd.
  rewrite Zle_Qle in Hn1, Hd1. rewrite Zlt_Qlt in Hn2, Hd2.
  replace (Z.succ a) with (a + 1)%Z in Hn2 by lia.
  replace (Z.succ b) with (b + 1)%Z in Hd2 by lia.
  rewrite <- pow2_nonneg in Hn1, Hd1, Hn2, Hd2 by lia.
  rewrite Zlt_Qlt in Hd. change (inject_Z 0) with 0%Q in Hd.
  destruct (Qle_bool (pow2 (a - b)) q) eqn:Hle.
  - apply Qle_bool_iff in Hle. split; [exact Hle|].
    replace (a - b + 1)%Z with ((a + 1) + - b)%Z by lia. rewrite pow2_add.
    pose proof (pow2_opp b) as Hbb. pose proof (pow2_pos b). pose proof (pow2_pos (- b)).
    assert (q * pow2 b < pow2 (a + 1))%Q by nra.
    nra.
  - assert (Hlt : (q < pow2 (a - b))%Q).
    { apply Qnot_le_lt. intros Hc. apply Qle_bool_iff in Hc. congruence. }
    replace (a - b - 1 + 1)%Z with (a - b)%Z by lia. split; [|exact Hlt].
    replace (a - b - 1)%Z with (a + - (b + 1))%Z by lia. rewrite pow2_add.
    pose proof (pow2_opp (b + 1)) as Hbb. pose proof (pow2_pos (b + 1)).
    pose proof (pow2_pos (- (b + 1))). pose proof (pow2_pos a).
    assert (pow2 a <= q * pow2 (b + 1))%Q by nra.
    nra.
Qed.

Lemma ilog2_le (x y : Q) : (0 < x)%Q -> (x <= y)%Q -> (ilog2 x <= ilog2 y)%Z.
Proof.
  intros Hx Hxy. assert (Hy : (0 < y)%Q) by lra.
  destruct (ilog2_spec x Hx) as [Hx1 _]. destruct (ilog2_spec y Hy) as [_ Hy2].
  destruct (Z_le_gt_dec (ilog2 x) (ilog2 y)) as [|Hgt]; [assumption|].
  pose proof (pow2_le (ilog2 y + 1) (ilog2 x)). 
  assert (pow2 (ilog2 y + 1) <= pow2 (ilog2 x))%Q by (apply H; lia). lra.
Qed.

(** *** Rounding to an integer *)

Lemma round_half_even_bounds (t : Q) :
  (Qfloor t <= round_half_even t <= Qfloor t + 1)%Z.
Proof.
  unfold round_half_even. destruct (Qcompare _ _); [destruct (Z.even _)| |]; lia.
Qed.

Lemma round_half_even_Z (z : Z) : round_half_even (inject_Z z) = z.
Proof.
  unfold round_half_even. rewrite Qfloor_Z.
  destruct (Qcompare_spec (2 * (inject_Z z - inject_Z z)) 1); [exfalso; lra|reflexivity|exfalso; lra].
Qed.

Lemma round_half_even_le (t u : Q) :
  (t <= u)%Q -> (round_half_even t <= round_half_even u)%Z.
Proof.
  intros Htu. pose proof (Qfloor_resp_le _ _ Htu) as Hfl.
  pose proof (round_half_even_bounds t). pose proof (round_half_even_bounds u).
  destruct (Z.eq_dec (Qfloor t) (Qfloor u)) as [E|N]; [|lia].
  unfold round_half_even in *. rewrite <- E in *.
  destruct (Qcompare_spec (2 * (t - inject_Z (Qfloor t))) 1) as [Ct|Ct|Ct];
    destruct (Qcompare_spec (2 * (u - inject_Z (Qfloor t))) 1) as [Cu|Cu|Cu];
    try (destruct (Z.even (Qfloor t))); try lia.
  all: exfalso; lra.
Qed.

Lemma round_half_even_compat (t u : Q) :
  (t == u)%Q -> round_half_even t = round_half_even u.
Proof.
  intros E.
  assert (round_half_even t <= round_half_even u)%Z by (apply round_half_even_le; lra).
  assert (round_half_even u <= round_half_even t)%Z by (apply round_half_even_le; lra).
  lia.
Qed.

Lemma round_half_even_upper (t : Q) (z : Z) :
  (t <= inject_Z z)%Q -> (round_half_even t <= z)%Z.
Proof.
  intros H. apply round_half_even_le in H. rewrite round_half_even_Z in H. exact H.
Qed.

Lemma round_half_even_lower (t : Q) (z : Z) :
  (inject_Z z <= t)%Q -> (z <= round_half_even t)%Z.
Proof.
  intros H. apply round_half_even_le in H. rewrite round_half_even_Z in H. exact H.
Qed.

Lemma pow2_split (a b : Z) : (pow2 a == pow2 (a - b) * pow2 b)%Q.
Proof. rewrite <- pow2_add. replace (a - b + b)%Z with a by lia. reflexivity. Qed.

(** *** Rounding to a float *)

Lemma float_round_pos_eq (q : Q) :
  (float_round_pos q
   == inject_Z (round_half_even (q * pow2 (- quantum q))) * pow2 (quantum q))%Q.
Proof. unfold float_round_pos. cbv zeta. apply Qred_correct. Qed.

Lemma float_round_pos_upper (x : Q) :
  (0 < x)%Q ->
  (float_round_pos x <= pow2 (Z.max (ilog2 x + 1) (quantum x)))%Q.
Proof.
  intros Hx. rewrite float_round_pos_eq.
  destruct (ilog2_spec x Hx) as [_ Hup].
  set (k := quantum x) in *. set (m := Z.max (ilog2 x + 1) k).
  assert (Hj : (0 <= m - k)%Z) by lia.
  assert (Hr : (round_half_even (x * pow2 (- k)) <= 2 ^ (m - k))%Z).
  { apply round_half_even_upper. rewrite <- pow2_nonneg by exact Hj.
    pose proof (pow2_split m k) as Hs. pose proof (pow2_opp k) as Ho.
    pose proof (pow2_pos (- k)). pose proof (pow2_pos k). pose proof (pow2_pos (m - k)).
    pose proof (pow2_le (ilog2 x + 1) m ltac:(lia)).
    assert (x * pow2 (- k) <= pow2 m * pow2 (- k))%Q by nra.
    assert (pow2 m * pow2 (- k) == pow2 (m - k))%Q by (rewrite Hs; nra).
    lra. }
  rewrite Zle_Qle, <- pow2_nonneg in Hr by exact Hj.
  rewrite (pow2_split m k).
  pose proof (pow2_pos k). nra.
Qed.

Lemma float_round_pos_lower (y : Q) :
  (0 < y)%Q -> (-1022 <= ilog2 y)%Z ->
  (pow2 (ilog2 y) <= float_round_pos y)%Q.
Proof.
  intros Hy He. rewrite float_round_pos_eq.
  destruct (ilog2_spec y Hy) as [Hlow _].
  unfold quantum. replace (Z.max (ilog2 y) (-1022)) with (ilog2 y) by lia.
  set (e := ilog2 y) in *.
  assert (Hr : (2 ^ 52 <= round_half_even (y * pow2 (- (e - 52))))%Z).
  { apply round_half_even_lower. rewrite <- pow2_nonneg by lia.
    pose proof (pow2_split e (e - 52)) as Hs.
    replace (e - (e - 52))%Z with 52%Z in Hs by lia.
    pose proof (pow2_opp (e - 52)) as Ho.
    pose proof (pow2_pos (- (e - 52))). pose proof (pow2_pos (e - 52)).
    pose proof (pow2_pos 52).
    assert (pow2 e * pow2 (- (e - 52)) == pow2 52)%Q by (rewrite Hs; nra).
    assert (pow2 e * pow2 (- (e - 52)) <= y * pow2 (- (e - 52)))%Q by nra.
    lra. }
  rewrite Zle_Qle, <- pow2_nonneg in Hr by lia.
  pose proof (pow2_split e (e - 52)) as Hs.
  replace (e - (e - 52))%Z with 52%Z in Hs by lia.
  rewrite Hs. pose proof (pow2_pos (e - 52)). nra.
Qed.

Lemma float_round_pos_le (x y : Q) :
  (0 < x)%Q -> (x <= y)%Q -> (float_round_pos x <= float_round_pos y)%Q.
Proof.
  intros Hx Hxy. assert (Hy : (0 < y)%Q) by lra.
  pose proof (ilog2_le x y Hx Hxy) as He.
  destruct (Z.eq_dec (quantum x) (quantum y)) as [Ek|Nk].
  - rewrite !float_round_pos_eq, <- Ek.
    pose proof (pow2_pos (quantum x)). pose proof (pow2_pos (- quantum x)).
    assert (Hr : (round_half_even (x * pow2 (- quantum x))
                  <= round_half_even (y * pow2 (- quantum x)))%Z)
      by (apply round_half_even_le; nra).
    rewrite Zle_Qle in Hr. nra.
  - unfold quantum in Nk.
    eapply Qle_trans; [apply (float_round_pos_upper x Hx)|].
    eapply Qle_trans; [|apply (float_round_pos_lower y Hy); lia].
    apply pow2_le. unfold quantum. lia.
Qed.

Lemma float_round_pos_nonneg (x : Q) : (0 < x)%Q -> (0 <= float_round_pos x)%Q.
Proof.
  intros Hx. rewrite float_round_pos_eq.
  pose proof (pow2_pos (quantum x)). pose proof (pow2_pos (- quantum x)).
  assert (Hr : (0 <= round_half_even (x * pow2 (- quantum x)))%Z)
    by (apply round_half_even_lower; change (inject_Z 0) with 0%Q; nra).
  rewrite Zle_Qle in Hr. change (inject_Z 0) with 0%Q in Hr. nra.
Qed.

Lemma Qnum_sign (q : Q) :
  match Qnum q with
  | Z0 => (q == 0)%Q
  | Zpos _ => (0 < q)%Q
  | Zneg _ => (q < 0)%Q
  end.
Proof. destruct q as [[|n|n] d]; unfold Qeq, Qlt; cbn; lia. Qed.

(** Rounding keeps the order, on the numbers that are not negative. *)
Lemma float_round_le (x y : Q) :
  (0 <= x)%Q -> (x <= y)%Q -> (float_round x <= float_round y)%Q.
Proof.
  intros Hx Hxy. unfold float_round.
  pose proof (Qnum_sign x) as Sx. pose proof (Qnum_sign y) as Sy.
  destruct (Qnum x) eqn:Ex; destruct (Qnum y) eqn:Ey; try lra.
  - apply float_round_pos_nonneg. exact Sy.
  - apply float_round_pos_le; assumption.
Qed.

(** A whole number below 2^53 is a float. *)
Lemma float_round_Z (z : Z) :
  (0 <= z < 2 ^ 53)%Z -> (float_round (inject_Z z) == inject_Z z)%Q.
Proof.
  intros [Hz0 Hz]. unfold float_round. cbn [inject_Z Qnum].
  destruct z as [|p|p]; [reflexivity| |lia].
  rewrite float_round_pos_eq.
  assert (Hpos : (0 < inject_Z (Z.pos p))%Q) by reflexivity.
  destruct (ilog2_spec _ Hpos) as [Hlow Hup].
  set (e := ilog2 (inject_Z (Z.pos p))) in *.
  assert (He0 : (0 <= e)%Z).
  { destruct (Z_le_gt_dec 0 e) as [|Hneg]; [assumption|]. exfalso.
    pose proof (pow2_le (e + 1) 0 ltac:(lia)) as Hle.
    change (pow2 0) with 1%Q in Hle.
    assert (1 <= inject_Z (Z.pos p))%Q
      by (change 1%Q with (inject_Z 1); rewrite <- Zle_Qle; lia).
    lra. }
  assert (He : (e <= 52)%Z).
  { destruct (Z_le_gt_dec e 52) as [|Hbig]; [assumption|]. exfalso.
    pose proof (pow2_le 53 e ltac:(lia)) as Hle.
    rewrite (pow2_nonneg 53) in Hle by lia.
    rewrite Zlt_Qlt in Hz. lra. }
  unfold quantum. fold e. replace (Z.max e (-1022)) with e by lia.
  assert (Hint : (inject_Z (Z.pos p) * pow2 (- (e - 52))
                  == inject_Z (Z.pos p * 2 ^ (52 - e)))%Q).
  { rewrite inject_Z_mult, <- pow2_nonneg by lia.
    replace (- (e - 52))%Z with (52 - e)%Z by lia. reflexivity. }
  assert (Hr : round_half_even (inject_Z (Z.pos p) * pow2 (- (e - 52)))
               = (Z.pos p * 2 ^ (52 - e))%Z).
  { rewrite <- (round_half_even_Z (Z.pos p * 2 ^ (52 - e))).
    apply round_half_even_compat. exact Hint. }
  rewrite Hr, inject_Z_mult, <- pow2_nonneg by lia.
  pose proof (pow2_opp (e - 52)) as Ho.
  replace (- (e - 52))%Z with (52 - e)%Z in Ho by lia.
  pose proof (pow2_pos (e - 52)). pose proof (pow2_pos (52 - e)). nra.
Qed.

(** * Further properties *)

(** ** The pixel difference *)

Lemma filter_all_length {A : Type} (f : A -> bool) (l : list A) :
  length (List.filter f l) = length l <-> forall x, In x l -> f x = true.
Proof.
  induction l as [|a l IH]; cbn [List.filter length In]; [by split|].
  pose proof (List.filter_length_le f l) as Hle.
  destruct (f a) eqn:Ha; cbn [length].
  - split.
    + intros Hlen x [<-|Hx]; [done|]. apply IH; [lia|done].
    + intros Hall. f_equal. apply IH. intros x Hx. apply Hall. by right.
  - split; [lia|]. intros Hall. rewrite Hall in Ha by (by left). done.
Qed.

Lemma in_getdata (im : Image) (p : Z * Z * Z) :
  In p (getdata im)
  <-> exists x y, x < fst (im_size im) /\ y < snd (im_size im)
                  /\ p = getpixel im x y.
Proof.
  unfold getdata. rewrite in_flat_map. split.
  - intros (y & Hy & Hp). apply in_map_iff in Hp as (x & <- & Hx).
    apply in_seq in Hx, Hy. exists x, y. repeat split; lia.
  - intros (x & y & Hx & Hy & ->). exists y. split; [apply in_seq; lia|].
    apply in_map_iff. exists x. split; [done|apply in_seq; lia].
Qed.

Lemma count_value_full (c : nat) (v : Z) (im : Image) :
  count_value c v im
  = (Z.of_nat (fst (im_size im)) * Z.of_nat (snd (im_size im)))%Z
  <-> forall x y, x < fst (im_size im) -> y < snd (im_size im) ->
        band c (getpixel im x y) = v.
Proof.
  unfold count_value.
  assert (Hlen : (Z.of_nat (fst (im_size im)) * Z.of_nat (snd (im_size im)))%Z
                 = Z.of_nat (length (getdata im)))
    by (rewrite length_getdata; lia).
  rewrite Hlen, Nat2Z.inj_iff, filter_all_length. split.
  - intros Hall x y Hx Hy. apply Z.eqb_eq, Hall, in_getdata. eauto.
  - intros Hall p Hp. apply in_getdata in Hp as (x & y & Hx & Hy & ->).
    apply Z.eqb_eq. by apply Hall.
Qed.

Lemma percent_zero (n t : Z) :
  (0 < t)%Z -> (inject_Z n / inject_Z t == 0)%Q <-> n = 0%Z.
Proof.
  intros Ht. unfold Qeq, Qdiv, Qmult, Qinv, inject_Z. cbn.
  destruct t as [|t|t]; [lia| |lia]. cbn. lia.
Qed.

(** X1.  For two pictures with at least one pixel each the difference is
    zero exactly when they show the same colour at every position they
    share. *)
Theorem difference_zero_iff_equal (a b : Image) :
  0 < fst (im_size a) -> 0 < snd (im_size a) ->
  0 < fst (im_size b) -> 0 < snd (im_size b) ->
  exists q,
    calculate_pixel_based_difference a b = Ok q
    /\ ((q == 0)%Q
        <-> forall x y,
              x < Nat.min (fst (im_size a)) (fst (im_size b)) ->
              y < Nat.min (snd (im_size a)) (snd (im_size b)) ->
              getpixel a x y = getpixel b x y).
Proof.
  intros Hwa Hha Hwb Hhb. rewrite calculate_pixel_based_difference_eq.
  set (diff := ImageChops_difference a b).
  assert (Htotal : (0 < total_samples a b)%Z).
  { unfold total_samples. cbn [ImageChops_difference im_size fst snd]. nia. }
  unfold true_div. destruct (Z.eqb_spec (total_samples a b) 0) as [E|_]; [lia|].
  eexists. split; [reflexivity|].
  rewrite percent_zero by done.
  pose proof (count_value_bounds 0 0 diff) as H0.
  pose proof (count_value_bounds 1 0 diff) as H1.
  pose proof (count_value_bounds 2 0 diff) as H2.
  pose proof (count_value_full 0 0 diff) as F0.
  pose proof (count_value_full 1 0 diff) as F1.
  pose proof (count_value_full 2 0 diff) as F2.
  unfold total_samples, zero_samples in *. fold diff in Htotal |- *.
  cbv zeta.
  assert (Hpix : forall x y,
    getpixel a x y = getpixel b x y
    <-> band 0 (getpixel diff x y) = 0%Z /\ band 1 (getpixel diff x y) = 0%Z
        /\ band 2 (getpixel diff x y) = 0%Z).
  { intros x y. cbn.
    destruct (getpixel a x y) as [[r1 g1] b1], (getpixel b x y) as [[r2 g2] b2].
    cbn. split.
    - intros [= -> -> ->]. lia.
    - intros (Hr & Hg & Hb). f_equal; [f_equal|]; lia. }
  change (fst (im_size diff)) with (Nat.min (fst (im_size a)) (fst (im_size b))) in *.
  change (snd (im_size diff)) with (Nat.min (snd (im_size a)) (snd (im_size b))) in *.
  split.
  - intros Hz x y Hx Hy. apply Hpix.
    repeat split; [apply F0|apply F1|apply F2]; try done; lia.
  - intros Hall.
    assert (E0 : count_value 0 0 diff
                 = (Z.of_nat (Nat.min (fst (im_size a)) (fst (im_size b)))
                    * Z.of_nat (Nat.min (snd (im_size a)) (snd (im_size b))))%Z)
      by (apply F0; intros x y Hx Hy; by apply Hpix, Hall).
    assert (E1 : count_value 1 0 diff
                 = (Z.of_nat (Nat.min (fst (im_size a)) (fst (im_size b)))
                    * Z.of_nat (Nat.min (snd (im_size a)) (snd (im_size b))))%Z)
      by (apply F1; intros x y Hx Hy; by apply Hpix, Hall).
    assert (E2 : count_value 2 0 diff
                 = (Z.of_nat (Nat.min (fst (im_size a)) (fst (im_size b)))
                    * Z.of_nat (Nat.min (snd (im_size a)) (snd (im_size b))))%Z)
      by (apply F2; intros x y Hx Hy; by apply Hpix, Hall).
    lia.
Qed.

Lemma difference_zero_iff_equal_witness :
  exists q,
    calculate_pixel_based_difference (solid 2 2 (7, 7, 7)%Z)
      (solid 2 3 (7, 7, 7)%Z) = Ok q
    /\ ((q == 0)%Q
        <-> forall x y,
              x < Nat.min 2 2 -> y < Nat.min 2 3 ->
              getpixel (solid 2 2 (7, 7, 7)%Z) x y
              = getpixel (solid 2 3 (7, 7, 7)%Z) x y).
Proof.
  apply (difference_zero_iff_equal (solid 2 2 (7, 7, 7)%Z) (solid 2 3 (7, 7, 7)%Z));
    cbn; lia.
Defined.

(** ** The selection *)

Lemma Qgtb_irrefl (q : Q) : Qgtb q q = false.
Proof. apply not_true_iff_false. rewrite Qgtb_lt. apply Qlt_irrefl. Qed.



(** ** The resolution as a whole *)

Section ResolverRuns.
Context `{PILLib} {Id : Type} `{Format Id}.

Lemma open_all_ids (images : list (Id * bytes)) :
  forall acc pil_images,
    open_all images acc = Ok pil_images ->
    map fst pil_images = map fst acc ++ map fst images.
Proof.
  induction images as [|[cid raw] images IH]; intros acc pil_images Hopen.
  - cbn in Hopen. injection Hopen as <-. by rewrite app_nil_r.
  - cbn [open_all] in Hopen.
    destruct (open_rgb raw) as [img|e]; [|done]. cbn in Hopen.
    apply IH in Hopen. rewrite Hopen, map_app, <- app_assoc. done.
Qed.

Lemma outer_loop_ids {Img Score : Type} (difference : Img -> Img -> result Score)
  (zero : Score) (add : Score -> Score -> Score)
  (pil_images rest : list (Id * Img)) :
  forall idx_i acc diffs_pil,
    outer_loop difference zero add pil_images idx_i rest acc = Ok diffs_pil ->
    map fst diffs_pil = map fst acc ++ map fst rest.
Proof.
  induction rest as [|[cid img] rest IH]; intros idx_i acc diffs_pil Hloop.
  - cbn in Hloop. injection Hloop as <-. by rewrite app_nil_r.
  - cbn [outer_loop] in Hloop.
    destruct (inner_loop difference add idx_i img 0 pil_images zero) as [tot|e];
      [|done].
    cbn in Hloop. apply IH in Hloop.
    rewrite Hloop, map_app, <- app_assoc. done.
Qed.

Lemma max_from_in {A K : Type} (gt : K -> K -> bool) (key : A -> K)
  (xs : list A) :
  forall best, In (max_from gt key best xs) (best :: xs).
Proof.
  induction xs as [|x xs IH]; intros best; cbn [max_from]; [by left|].
  destruct (gt (key x) (key best)).
  - right. apply IH.
  - destruct (IH best) as [E|Hin]; [by left|by right; right].
Qed.

(** Whatever is selected carries the identifier of one of the images. *)
Lemma select_outlier_id {Img Score : Type} (difference : Img -> Img -> result Score)
  (zero : Score) (add : Score -> Score -> Score) (gt : Score -> Score -> bool)
  (pil_images : list (Id * Img)) (best : Id * Score) :
  select_outlier difference zero add gt pil_images = Ok best ->
  In (fst best) (map fst pil_images).
Proof.
  unfold select_outlier, compute_diffs. intros Hsel.
  destruct (outer_loop difference zero add pil_images 0 pil_images [])
    as [diffs|e] eqn:Hloop; [|done].
  apply outer_loop_ids in Hloop. cbn in Hsel, Hloop.
  destruct diffs as [|x xs]; [done|]. cbn in Hsel. injection Hsel as <-.
  rewrite <- Hloop. apply in_map. apply max_from_in.
Qed.

End ResolverRuns.

Section ResolverTrace.
Context `{PILLib} {Id : Type} `{Format Id}.
Context (hostname : str) (shared_state : shared_state_t).
Context (fetch_via_flaresolverr : flaresolverr Id).
Context (fetch_via_requests_session : requests_session Id).

Let captcha_base := captcha_base_of shared_state hostname.

(** The ways a resolution can go, read off the code: it ends before any
    image is requested, or inside the image loop, or between the loop and
    the submission, or with the submission. *)
Lemma solve_captcha_cases (tr tr' : list (event Id))
  (outcome : result (list (string * value Id))) :
  solve_captcha hostname shared_state fetch_via_flaresolverr
    fetch_via_requests_session tr = (outcome, tr') ->
  let tr0 := tr ++ [challenge_request captcha_base] in
  (tr' = tr0 /\ exists e, outcome = Raise e)
  \/ exists reply raw_ids fetched tr1,
       fetch_via_flaresolverr tr "POST"%string captcha_base (PostChallenge 0 1)
         30%Z = Ok reply
       /\ fs_json reply = Ok (JsonList raw_ids)
       /\ 2 <= length raw_ids
       /\ fetch_images fetch_via_requests_session captcha_base raw_ids [] tr0
          = (fetched, tr1)
       /\ ((tr' = tr1 /\ exists e, outcome = Raise e)
           \/ exists images pil_images identified score pct,
                fetched = Ok images
                /\ open_all images [] = Ok pil_images
                /\ select_outlier calculate_pixel_based_difference_float 0%Q
                     float_add Qgtb pil_images = Ok (identified, score)
                /\ tr' = tr1 ++ [InfoCaptcha identified pct;
                                 answer_request captcha_base identified]
                /\ pct = py_int (float_div score
                                   (float_of_int (Z.of_nat (length images))))
                /\ ((exists e, outcome = Raise e)
                    \/ exists answer : fs_result Id,
                         outcome
                         = Ok [("response"%string, VStr (fs_text answer));
                               ("captcha_id"%string, VId identified)])).
Proof.
  intros Hrun tr0. unfold solve_captcha in Hrun.
  change (lit "https://www."
          ++ get_or (lit "None") (config_Hostnames_get shared_state hostname)
          ++ lit "/files/captcha") with captcha_base in Hrun.
  cbv zeta in Hrun.
  change (tr ++ [FlaresolverrCall "POST" captcha_base (PostChallenge 0 1) 30])
    with tr0 in Hrun.
  destruct (fetch_via_flaresolverr tr _ _ _ _) as [reply|e] eqn:Hreply;
    [|injection Hrun as <- <-; left; eauto].
  destruct (fs_json reply) as [[raw_ids|]|e] eqn:Hjson.
  2: { injection Hrun as <- <-. left. eauto. }
  2: { left. destruct e; injection Hrun as <- <-; eauto. }
  destruct (Nat.ltb_spec (length raw_ids) 2) as [Hlt|Hlen];
    [injection Hrun as <- <-; left; eauto|].
  right. exists reply, raw_ids.
  destruct (fetch_images _ _ _ _ _) as [[images|e] tr1] eqn:Hfetch.
  2: { injection Hrun as <- <-. exists (Raise e), tr1.
       repeat split; try done. left. eauto. }
  exists (Ok images), tr1. repeat split; try done.
  destruct (open_all images []) as [pil_images|e] eqn:Hopen; cbn in Hrun.
  2: { injection Hrun as <- <-. left. eauto. }
  destruct (select_outlier _ _ _ _ pil_images) as [[identified score]|e] eqn:Hsel.
  2: { injection Hrun as <- <-. left. eauto. }
  assert (Himages : images <> []).
  { intros ->. cbn in Hopen. injection Hopen as <-. by cbn in Hsel. }
  rewrite bool_decide_eq_false_2 in Hrun by done.
  match type of Hrun with
  | context [InfoCaptcha identified ?p] => set (pct := p) in Hrun
  end.
  right. exists images, pil_images, identified, score, pct.
  repeat split; try done.
  - destruct (fetch_via_flaresolverr (tr1 ++ [InfoCaptcha identified pct]) _ _ _ _);
      injection Hrun as <- <-; by rewrite <- app_assoc.
  - destruct (fetch_via_flaresolverr (tr1 ++ [InfoCaptcha identified pct]) _ _ _ _)
      as [answer|e]; injection Hrun as <- <-; [right|left]; eauto.
Qed.

(** The first image of a challenge that is not empty is always
    requested. *)
Lemma fetch_images_requests_one (raw_ids : list Id) (images : list (Id * bytes))
  (tr tr' : list (event Id)) (outcome : result (list (Id * bytes))) :
  raw_ids <> [] ->
  fetch_images fetch_via_requests_session captcha_base raw_ids images tr
  = (outcome, tr') ->
  exists n, 1 <= n <= length raw_ids
    /\ tr' = tr ++ map (image_request captcha_base) (take n raw_ids)
    /\ forall images', outcome = Ok images' -> n = length raw_ids.
Proof.
  intros Hne Hrun.
  destruct (fetch_images_in_order _ _ _ _ _ _ _ Hrun) as (n & Hn & Htr & Hok).
  exists n. split; [|split; [done|by intros images' Himg; apply (Hok images')]].
  split; [|done]. destruct n as [|n]; [exfalso|lia].
  cbn in Htr. rewrite app_nil_r in Htr. subst tr'.
  destruct raw_ids as [|c rest]; [done|]. cbn [fetch_images] in Hrun.
  assert (Hlen : forall (o : result (list (Id * bytes))) (t : list (event Id)),
            (o, t) = (outcome, tr) -> length t = length tr) by (by intros o t [= _ ->]).
  destruct (fetch_via_requests_session tr "GET"%string _ 30%Z) as [r_img|e].
  2: { apply Hlen in Hrun. rewrite length_app in Hrun. cbn in Hrun. lia. }
  destruct (negb (status_code r_img =? 200)%Z).
  { apply Hlen in Hrun. rewrite length_app in Hrun. cbn in Hrun. lia. }
  destruct (bool_decide (content r_img = [])).
  { apply Hlen in Hrun. rewrite length_app in Hrun. cbn in Hrun. lia. }
  destruct (fetch_images_in_order _ _ _ _ _ _ _ Hrun) as (m & _ & Hm & _).
  apply (f_equal length) in Hm. rewrite !length_app in Hm. cbn in Hm. lia.
Qed.

(** X3.  Whatever the gateway and the network answer, a resolution sends
    the challenge request first.  It ends there, raising, or the reply
    holds a list of candidates: then the images of the first [n]
    candidates of that list are requested, one request each and in the
    order of the list, [n] being at least one.  Either the resolution
    raises with these requests as its last ones, or every candidate was
    requested and the log line and the submission of the answer follow,
    once each. *)
Theorem solve_captcha_requests (tr tr' : list (event Id))
  (outcome : result (list (string * value Id))) :
  solve_captcha hostname shared_state fetch_via_flaresolverr
    fetch_via_requests_session tr = (outcome, tr') ->
  (tr' = tr ++ [challenge_request captcha_base] /\ exists e, outcome = Raise e)
  \/ exists reply raw_ids n,
       fetch_via_flaresolverr tr "POST"%string captcha_base (PostChallenge 0 1)
         30%Z = Ok reply
       /\ fs_json reply = Ok (JsonList raw_ids)
       /\ 1 <= n <= length raw_ids
       /\ ((tr' = tr ++ challenge_request captcha_base
                      :: map (image_request captcha_base) (take n raw_ids)
            /\ exists e, outcome = Raise e)
           \/ (n = length raw_ids
               /\ exists identified pct,
                    tr' = tr ++ challenge_request captcha_base
                             :: map (image_request captcha_base) raw_ids
                                ++ [InfoCaptcha identified pct;
                                    answer_request captcha_base identified])).
Proof.
  intros Hrun.
  destruct (solve_captcha_cases _ _ _ Hrun)
    as [Hstop|(reply & raw_ids & fetched & tr1 & Hreply & Hjson & Hlen & Hfetch
               & Hrest)]; [by left|].
  right. exists reply, raw_ids.
  assert (Hne : raw_ids <> []) by (intros ->; cbn in Hlen; lia).
  destruct (fetch_images_requests_one raw_ids [] _ tr1 fetched Hne Hfetch)
    as (n & Hn & -> & Hok).
  exists n. split; [done|]. split; [done|]. split; [done|].
  destruct Hrest as [[-> Hraise]|Hdone].
  - left. split; [|done]. by rewrite <- app_assoc.
  - right. destruct Hdone as (images & pil & identified & score & pct
                               & -> & _ & _ & -> & _).
    rewrite (Hok _ eq_refl), firstn_all. split; [done|].
    exists identified, pct. by rewrite <- !app_assoc.
Qed.

(** X4.  The identifier that a successful resolution returns, and has
    submitted, is one of the candidates of the challenge. *)
Theorem solve_captcha_selects_a_candidate (tr tr' : list (event Id))
  (r : list (string * value Id)) :
  solve_captcha hostname shared_state fetch_via_flaresolverr
    fetch_via_requests_session tr = (Ok r, tr') ->
  exists reply raw_ids identified,
    fetch_via_flaresolverr tr "POST"%string captcha_base (PostChallenge 0 1)
      30%Z = Ok reply
    /\ fs_json reply = Ok (JsonList raw_ids)
    /\ In identified raw_ids
    /\ In ("captcha_id"%string, VId identified) r
    /\ In (answer_request captcha_base identified) tr'.
Proof.
  intros Hrun.
  destruct (solve_captcha_cases _ _ _ Hrun)
    as [[_ [e He]]|(reply & raw_ids & fetched & tr1 & Hreply & Hjson & _
                    & Hfetch & Hrest)]; [done|].
  destruct Hrest as [[_ [e He]]|Hdone]; [done|].
  destruct Hdone as (images & pil & identified & score & pct
                     & -> & Hopen & Hsel & -> & _ & Hout).
  destruct Hout as [[e He]|[answer [= ->]]]; [done|].
  exists reply, raw_ids, identified. repeat split; try done.
  - apply select_outlier_id in Hsel. cbn in Hsel.
    apply open_all_ids in Hopen. cbn in Hopen.
    destruct (fetch_images_in_order _ _ _ _ _ _ _ Hfetch) as (n & _ & _ & Hok).
    destruct (Hok _ eq_refl) as [_ Hids]. cbn in Hids.
    by rewrite Hopen, Hids in Hsel.
  - cbn. auto.
  - apply in_or_app. right. cbn. auto.
Qed.

End ResolverTrace.

Lemma solve_captcha_requests_witness :
  ([challenge_request (captcha_base_of toy_state (lit "al"));
    @image_request nat format_nat (captcha_base_of toy_state (lit "al")) 1;
    @image_request nat format_nat (captcha_base_of toy_state (lit "al")) 2]
   = [] ++ [challenge_request (captcha_base_of toy_state (lit "al"))]
   /\ exists e, @Raise (list (string * value nat)) (RuntimeError
                   "Failed to download captcha image {} (HTTP {})"
                   [lit "2"; lit "404"]) = Raise e)
  \/ exists reply raw_ids n,
       toy_flaresolverr [1; 2; 3] (lit "1") [] "POST"%string
         (captcha_base_of toy_state (lit "al")) (PostChallenge 0 1) 30%Z
       = Ok reply
       /\ fs_json reply = Ok (JsonList raw_ids)
       /\ 1 <= n <= length raw_ids
       /\ (([challenge_request (captcha_base_of toy_state (lit "al"));
             @image_request nat format_nat (captcha_base_of toy_state (lit "al")) 1;
             @image_request nat format_nat (captcha_base_of toy_state (lit "al")) 2]
            = [] ++ challenge_request (captcha_base_of toy_state (lit "al"))
                    :: map (@image_request nat format_nat
                              (captcha_base_of toy_state (lit "al")))
                         (take n raw_ids)
            /\ exists e, @Raise (list (string * value nat)) (RuntimeError
                            "Failed to download captcha image {} (HTTP {})"
                            [lit "2"; lit "404"]) = Raise e)
           \/ (n = length raw_ids
               /\ exists identified pct,
                    [challenge_request (captcha_base_of toy_state (lit "al"));
                     @image_request nat format_nat
                       (captcha_base_of toy_state (lit "al")) 1;
                     @image_request nat format_nat
                       (captcha_base_of toy_state (lit "al")) 2]
                    = [] ++ challenge_request (captcha_base_of toy_state (lit "al"))
                            :: map (@image_request nat format_nat
                                      (captcha_base_of toy_state (lit "al")))
                                 raw_ids
                               ++ [InfoCaptcha identified pct;
                                   answer_request
                                     (captcha_base_of toy_state (lit "al"))
                                     identified])).
Proof.
  apply (@solve_captcha_requests toy_pil nat format_nat (lit "al") toy_state
           (toy_flaresolverr [1; 2; 3] (lit "1")) (toy_session bad_replies) []).
  vm_compute. reflexivity.
Defined.

Lemma solve_captcha_selects_a_candidate_witness :
  exists reply raw_ids identified,
    toy_flaresolverr [1; 2; 3] (lit "1") [] "POST"%string
      (captcha_base_of toy_state (lit "al")) (PostChallenge 0 1) 30%Z = Ok reply
    /\ fs_json reply = Ok (JsonList raw_ids)
    /\ In identified raw_ids
    /\ In ("captcha_id"%string, VId identified)
          [("response"%string, VStr (lit "1")); ("captcha_id"%string, VId 2)]
    /\ In (answer_request (captcha_base_of toy_state (lit "al")) identified)
          [challenge_request (captcha_base_of toy_state (lit "al"));
           @image_request nat format_nat (captcha_base_of toy_state (lit "al")) 1;
           @image_request nat format_nat (captcha_base_of toy_state (lit "al")) 2;
           @image_request nat format_nat (captcha_base_of toy_state (lit "al")) 3;
           InfoCaptcha 2 22;
           answer_request (captcha_base_of toy_state (lit "al")) 2].
Proof.
  apply (@solve_captcha_selects_a_candidate toy_pil nat format_nat (lit "al")
           toy_state (toy_flaresolverr [1; 2; 3] (lit "1"))
           (toy_session good_replies) []).
  vm_compute. reflexivity.
Defined.

(** ** The key fix-up and the construction of a decoder *)

(** X5.  The fixed key has the length of the key it comes from and the
    same characters: the ones at positions 15 and 16 have changed places
    and every other position is as it was. *)
Theorem swap_15_16_shape (jk fixed : str) :
  CNL.swap_15_16 jk = Ok fixed ->
  length fixed = length jk
  /\ fixed ≡ₚ jk
  /\ fixed !! 15 = jk !! 16
  /\ fixed !! 16 = jk !! 15
  /\ forall i, i <> 15 -> i <> 16 -> fixed !! i = jk !! i.
Proof.
  unfold CNL.swap_15_16. intros Hswap.
  destruct (decide (length jk <= 16)) as [|Hlen]; [done|].
  destruct (jk !! 16) as [c16|] eqn:H16; [|done].
  destruct (jk !! 15) as [c15|] eqn:H15; [|done].
  injection Hswap as <-.
  split; [by rewrite !length_insert|].
  split; [by apply Permutation_insert_swap|].
  split.
  { rewrite list_lookup_insert_ne by lia.
    by rewrite list_lookup_insert_eq by lia. }
  split.
  { by rewrite list_lookup_insert_eq by (rewrite length_insert; lia). }
  intros i Hi15 Hi16. by rewrite !list_lookup_insert_ne by lia.
Qed.

Lemma swap_15_16_shape_witness :
  length (lit "0123456789abcde0f123456789abcdef")
  = length (lit "0123456789abcdef0123456789abcdef")
  /\ lit "0123456789abcde0f123456789abcdef"
     ≡ₚ lit "0123456789abcdef0123456789abcdef"
  /\ lit "0123456789abcde0f123456789abcdef" !! 15
     = lit "0123456789abcdef0123456789abcdef" !! 16
  /\ lit "0123456789abcde0f123456789abcdef" !! 16
     = lit "0123456789abcdef0123456789abcdef" !! 15
  /\ forall i, i <> 15 -> i <> 16 ->
       lit "0123456789abcde0f123456789abcdef" !! i
       = lit "0123456789abcdef0123456789abcdef" !! i.
Proof.
  apply (swap_15_16_shape (lit "0123456789abcdef0123456789abcdef")
           (lit "0123456789abcde0f123456789abcdef")).
  reflexivity.
Defined.

(** X6.  Building a decoder from an item has three outcomes and the item
    decides which: a key error when [jk] or [crypted] is absent or empty
    (whatever the length of the key), a value error when both are there
    and the key has at most 16 characters, and otherwise a decoder with
    the fields of the item and the fixed key. *)
Theorem init_outcome (chosen_data : content_item) :
  let cnl := get_or empty_cnl (item_cnl chosen_data) in
  let key := get_or [] (cnl_jk cnl) in
  match CNL.__init__ chosen_data with
  | Raise (KeyError _) => has_payload chosen_data = false
  | Raise (ValueError _) =>
    has_payload chosen_data = true /\ length key <= 16
  | Raise _ => False
  | Ok self =>
    has_payload chosen_data = true /\ 16 < length key
    /\ CNL.jk self = cnl_jk cnl
    /\ CNL.crypted_blob self = cnl_crypted cnl
    /\ CNL.swap_15_16 key = Ok (CNL.fixed_key_hex self)
  end.
Proof.
  intros cnl key. unfold CNL.__init__, has_payload. fold cnl.
  destruct (truthy_opt (cnl_jk cnl)) eqn:Hjk,
           (truthy_opt (cnl_crypted cnl)) eqn:Hcr;
    cbn [negb orb andb]; try done.
  fold key. unfold CNL.swap_15_16.
  destruct (decide (length key <= 16)) as [Hle|Hgt]; [done|].
  destruct (lookup_lt_is_Some_2 key 16) as [c16 ->]; [lia|].
  destruct (lookup_lt_is_Some_2 key 15) as [c15 ->]; [lia|].
  cbn. repeat split; try done. lia.
Qed.

(** ** What [decrypt] raises and returns *)

(** X7.  An exception of [decrypt] is one of its four value errors
    (base64, hex, cipher, UTF-8), or it is what [AES.new] raised when it
    was given the decoded key as key and as initialisation vector. *)
Theorem decrypt_raises `{CryptoLib} (self : CNL.t) (e : exn) :
  CNL.decrypt self = Raise e ->
  In e decrypt_errors
  \/ exists key_bytes,
       bytes_fromhex (CNL.fixed_key_hex self) = Ok key_bytes
       /\ AES_new_CBC key_bytes key_bytes = Raise e.
Proof.
  unfold CNL.decrypt, CNL._aes_decrypt, CNL.decrypt_plain, decrypt_errors.
  intros Hraise.
  destruct (b64decode _) as [encrypted_data|]; cbn in Hraise;
    [|injection Hraise as <-; left; cbn; auto].
  destruct (bytes_fromhex _) as [key_bytes|]; cbn in Hraise;
    [|injection Hraise as <-; left; cbn; auto].
  destruct (AES_new_CBC key_bytes key_bytes) as [c|e'] eqn:Hnew; cbn in Hraise;
    [|injection Hraise as <-; right; eauto].
  destruct (cipher_decrypt c encrypted_data) as [raw_plain|]; cbn in Hraise;
    [|injection Hraise as <-; left; cbn; auto].
  destruct (utf8_decode _); [done|].
  injection Hraise as <-. left. cbn. auto.
Qed.

Lemma decrypt_raises_witness :
  In (ValueError "Failed to decode base64 data") decrypt_errors
  \/ exists key_bytes,
       @bytes_fromhex toy_crypto (CNL.fixed_key_hex sample_decoder) = Ok key_bytes
       /\ @AES_new_CBC toy_crypto key_bytes key_bytes
          = Raise (ValueError "Failed to decode base64 data").
Proof.
  apply (@decrypt_raises toy_crypto sample_decoder). reflexivity.
Defined.

(** ** The lines that [decrypt] returns *)

Lemma prepend_in (c : N) (lines : list str) (line : str) :
  In line (prepend c lines) ->
  (exists l, line = c :: l /\ (lines = [] /\ l = [] \/ In l lines))
  \/ In line lines.
Proof.
  destruct lines as [|l0 rest]; cbn.
  - intros [<-|[]]. left. exists []. auto.
  - intros [<-|Hin]; [|auto]. left. exists l0. auto.
Qed.

(** A line of [splitlines] is a piece of the text without any line-break
    code point. *)
Lemma splitlines_line (text : str) :
  forall line, In line (splitlines text) ->
    forall c, In c line -> In c text /\ is_linebreak c = false.
Proof.
  remember (length text) as n eqn:Hn.
  revert text Hn. induction (lt_wf n) as [n _ IH]. intros text Hn line Hline c Hc.
  destruct text as [|c0 [|c1 r]].
  - done.
  - cbn [splitlines] in Hline. destruct (is_linebreak c0) eqn:Hb.
    + destruct Hline as [<-|[]]. done.
    + destruct Hline as [<-|[]]. destruct Hc as [<-|[]]. split; [by left|done].
  - rewrite splitlines_cons2 in Hline.
    assert (IHr : forall text', length text' < n ->
              In line (splitlines text') -> In c text' /\ is_linebreak c = false).
    { intros text' Hlt Hin. by eapply (IH (length text')). }
    destruct (is_linebreak c0) eqn:Hb.
    + destruct ((c0 =? 13)%N && (c1 =? 10)%N).
      * destruct Hline as [<-|Hin]; [done|].
        destruct (IHr r) as [Hcr ?]; [cbn [length] in Hn; lia|done|].
        split; [by do 2 right|done].
      * destruct Hline as [<-|Hin]; [done|].
        destruct (IHr (c1 :: r)) as [Hcr ?]; [cbn [length] in *; lia|done|].
        split; [by right|done].
    + apply prepend_in in Hline as [(l & -> & Hl)|Hin].
      * destruct Hc as [<-|Hc]; [split; [by left|done]|].
        destruct Hl as [[_ ->]|Hl]; [done|].
        destruct (IH (length (c1 :: r)) ltac:(cbn [length] in *; lia)
                    (c1 :: r) eq_refl l Hl c Hc) as [Hcr ?].
        split; [by right|done].
      * destruct (IHr (c1 :: r)) as [Hcr ?]; [cbn [length] in *; lia|done|].
        split; [by right|done].
Qed.

(** A code point below 128 in a decoded text is a byte of the input: no
    longer sequence decodes to it. *)
Lemma utf8_decode_ascii (s : bytes) :
  forall text, utf8_decode s = Some text ->
    forall c, In c text -> (c < 0x80)%N ->
      exists b, In b s /\ Byte.to_N b = c.
Proof.
  remember (length s) as n eqn:Hn.
  revert s Hn. induction (lt_wf n) as [n _ IH]. intros s Hn text Hdec c Hc Hlow.
  assert (IHr : forall s' text', length s' < n -> utf8_decode s' = Some text' ->
            In c text' -> exists b, In b s' /\ Byte.to_N b = c).
  { intros s' text' Hlt Hd Hin. by eapply (IH (length s')). }
  destruct s as [|b0 r0]; [by injection Hdec as <-|].
  cbn [utf8_decode] in Hdec. cbv zeta in Hdec. unfold continuation, in_range in Hdec.
  cbn [length] in Hn.
  destruct (N.ltb_spec (Byte.to_N b0) 128) as [H0|H0].
  { destruct (utf8_decode r0) as [t|] eqn:Hr; [|done]. injection Hdec as <-.
    destruct Hc as [<-|Hc]; [exists b0; split; [by left|done]|].
    destruct (IHr r0 t) as (b & Hb & Eb); [lia|done|done|].
    exists b. split; [by right|done]. }
  destruct ((194 <=? Byte.to_N b0)%N && (Byte.to_N b0 <=? 223)%N) eqn:H2.
  { destruct r0 as [|b1 r1]; [done|].
    destruct ((128 <=? Byte.to_N b1)%N && (Byte.to_N b1 <=? 191)%N) eqn:Hc1; [|done].
    destruct (utf8_decode r1) as [t|] eqn:Hr; [|done]. injection Hdec as <-.
    destruct Hc as [<-|Hc]; [exfalso; bool_to_prop; lia|].
    destruct (IHr r1 t) as (b & Hb & Eb); [cbn [length] in *; lia|done|done|].
    exists b. split; [by do 2 right|done]. }
  destruct ((224 <=? Byte.to_N b0)%N && (Byte.to_N b0 <=? 239)%N) eqn:H3.
  { destruct r0 as [|b1 [|b2 r2]]; [done|done|].
    destruct (_ && _) eqn:Hc12 in Hdec; [|done].
    destruct (utf8_decode r2) as [t|] eqn:Hr; [|done]. injection Hdec as <-.
    destruct Hc as [<-|Hc].
    - exfalso. destruct (N.eqb_spec (Byte.to_N b0) 224) as [E|E];
        bool_to_prop; lia.
    - destruct (IHr r2 t) as (b & Hb & Eb); [cbn [length] in *; lia|done|done|].
      exists b. split; [by do 3 right|done]. }
  destruct ((240 <=? Byte.to_N b0)%N && (Byte.to_N b0 <=? 244)%N) eqn:H4; [|done].
  destruct r0 as [|b1 [|b2 [|b3 r3]]]; [done|done|done|].
  destruct (_ && _) eqn:Hc123 in Hdec; [|done].
  destruct (utf8_decode r3) as [t|] eqn:Hr; [|done]. injection Hdec as <-.
  destruct Hc as [<-|Hc].
  - exfalso. destruct (N.eqb_spec (Byte.to_N b0) 240) as [E|E];
      bool_to_prop; lia.
  - destruct (IHr r3 t) as (b & Hb & Eb); [cbn [length] in *; lia|done|done|].
    exists b. split; [by do 4 right|done].
Qed.

Lemma in_strip_padding (b : byte) (buf : bytes) :
  In b (spec_strip_padding buf) -> b <> x00 /\ b <> x08.
Proof.
  unfold spec_strip_padding. rewrite filter_In. intros [_ Hb].
  apply andb_prop in Hb as [H0 H8].
  split; intros ->; discriminate.
Qed.

Lemma not_blank (line : str) :
  blank line = false -> exists c, In c line /\ is_whitespace c = false.
Proof.
  unfold blank. induction line as [|c line IH]; [done|].
  cbn [forallb]. destruct (is_whitespace c) eqn:Hc; cbn [andb].
  - intros Hb. destruct (IH Hb) as (c' & Hin & Hws). exists c'. auto using in_cons.
  - intros _. exists c. split; [by left|done].
Qed.

(** X8.  Every line that [decrypt] returns has a character that is no
    whitespace, and holds no line-break character, no NUL and no
    backspace. *)
Theorem decrypt_plain_lines (raw_plain : bytes) (urls : list str) :
  CNL.decrypt_plain raw_plain = Ok urls ->
  Forall (fun line =>
            (exists c, In c line /\ is_whitespace c = false)
            /\ forall c, In c line ->
                 is_linebreak c = false /\ c <> 0%N /\ c <> 8%N)
         urls.
Proof.
  unfold CNL.decrypt_plain. rewrite bytes_replace_strip.
  destruct (utf8_decode (spec_strip_padding raw_plain)) as [text|] eqn:Hdec;
    [|done].
  intros [= <-]. apply List.Forall_forall. intros line Hline.
  apply filter_In in Hline as [Hline Hkeep]. rewrite truthy_strip in Hkeep.
  split; [apply not_blank; by destruct (blank line)|].
  intros c Hc. destruct (splitlines_line _ _ Hline _ Hc) as [Htext Hbrk].
  split; [done|].
  assert (Hbyte : (c < 0x80)%N -> exists b,
            In b (spec_strip_padding raw_plain) /\ Byte.to_N b = c)
    by (by apply (utf8_decode_ascii _ _ Hdec)).
  split; intros ->.
  - destruct Hbyte as (b & Hb & Eb); [done|].
    apply in_strip_padding in Hb as [Hb _]. apply Hb.
    apply (f_equal Byte.of_N) in Eb. rewrite Byte.of_to_N in Eb. by injection Eb.
  - destruct Hbyte as (b & Hb & Eb); [done|].
    apply in_strip_padding in Hb as [_ Hb]. apply Hb.
    apply (f_equal Byte.of_N) in Eb. rewrite Byte.of_to_N in Eb. by injection Eb.
Qed.

Lemma decrypt_plain_lines_witness :
  Forall (fun line =>
            (exists c, In c line /\ is_whitespace c = false)
            /\ forall c, In c line ->
                 is_linebreak c = false /\ c <> 0%N /\ c <> 8%N)
         [lit "hi"; lit "yo"; lit "z"].
Proof.
  apply (decrypt_plain_lines
           [x68; x00; x69; x0d; x0a; x20; x0d; x0a; x79; x08; x6f; xe2; x80; xa8;
            x7a; x08; x08; x08]).
  reflexivity.
Defined.

(** *** What was encoded comes back *)

Lemma byte_of_char_ascii (c : N) :
  (c < 0x80)%N -> Byte.to_N (byte_of_char c) = c.
Proof.
  intros Hc. unfold byte_of_char. destruct (Byte.of_N c) as [b|] eqn:E.
  - by apply Byte.to_of_N.
  - apply Byte.of_N_None_iff in E. lia.
Qed.

Lemma printable_facts (c : N) :
  printable c ->
  is_linebreak c = false /\ plain_ascii c
  /\ (is_whitespace c = true <-> c = 0x20%N).
Proof.
  unfold printable, plain_ascii. intros [Hlo Hhi]. split.
  { unfold is_linebreak. rewrite !orb_false_iff.
    repeat split; apply N.eqb_neq; lia. }
  split; [lia|].
  unfold is_whitespace, in_range. split.
  - rewrite !orb_true_iff, !andb_true_iff, !N.leb_le, !N.eqb_eq. lia.
  - intros ->. reflexivity.
Qed.

Lemma utf8_decode_ascii_bytes (text : str) :
  Forall plain_ascii text -> utf8_decode (ascii_bytes text) = Some text.
Proof.
  induction 1 as [|c text [Hc _] _ IH]; [reflexivity|].
  unfold ascii_bytes in *. cbn [map utf8_decode]. cbv zeta.
  rewrite byte_of_char_ascii by done.
  destruct (N.ltb_spec c 128) as [_|?]; [|lia].
  by rewrite IH.
Qed.

Lemma strip_padding_ascii (text : str) (padding : bytes) :
  Forall plain_ascii text -> Forall is_padding padding ->
  spec_strip_padding (ascii_bytes text ++ padding) = ascii_bytes text.
Proof.
  intros Htext Hpad. unfold spec_strip_padding. rewrite List.filter_app.
  assert (Hp : List.filter
                 (fun b => negb (Byte.eqb b x00) && negb (Byte.eqb b x08)) padding
               = []).
  { induction Hpad as [|b padding Hb _ IH]; [done|].
    destruct Hb as [Hb|Hb]; rewrite Hb; cbn; exact IH. }
  rewrite Hp, app_nil_r. clear Hp Hpad.
  induction Htext as [|c text (Hc & H0 & H8) _ IH]; [done|].
  pose proof (byte_of_char_ascii c Hc) as Hto.
  unfold ascii_bytes in *. cbn [map List.filter].
  destruct (Byte.eqb (byte_of_char c) x00) eqn:E0.
  { apply Byte.byte_dec_bl in E0. rewrite E0 in Hto. cbn in Hto. done. }
  destruct (Byte.eqb (byte_of_char c) x08) eqn:E8.
  { apply Byte.byte_dec_bl in E8. rewrite E8 in Hto. cbn in Hto. done. }
  cbn. by rewrite IH.
Qed.

Lemma splitlines_unbroken (line : str) :
  line <> [] -> Forall (fun c => is_linebreak c = false) line ->
  splitlines line = [line].
Proof.
  intros Hne Hline. induction Hline as [|c line Hc Hline IH]; [done|].
  cbn [splitlines]. rewrite Hc.
  destruct line as [|c' line]; [done|]. by rewrite IH.
Qed.

Lemma splitlines_crlf (line rest : str) :
  Forall (fun c => is_linebreak c = false) line ->
  splitlines (line ++ [0x0D%N; 0x0A%N] ++ rest) = line :: splitlines rest.
Proof.
  induction 1 as [|c line Hc _ IH]; [by destruct rest|].
  cbn [app splitlines]. rewrite Hc. cbn [app] in IH. by rewrite IH.
Qed.

Lemma splitlines_join_crlf (lines : list str) :
  Forall (fun line => line <> []
                      /\ Forall (fun c => is_linebreak c = false) line) lines ->
  splitlines (join_crlf lines) = lines.
Proof.
  induction 1 as [|line lines [Hne Hline] Hlines IH]; [reflexivity|].
  destruct lines as [|line' lines].
  - by apply splitlines_unbroken.
  - change (join_crlf (line :: line' :: lines))
      with (line ++ [0x0D%N; 0x0A%N] ++ join_crlf (line' :: lines)).
    by rewrite splitlines_crlf, IH.
Qed.

Lemma join_crlf_plain (lines : list str) :
  Forall (Forall plain_ascii) lines -> Forall plain_ascii (join_crlf lines).
Proof.
  induction 1 as [|line lines Hline Hlines IH]; [constructor|].
  destruct lines as [|line' lines]; [done|].
  change (join_crlf (line :: line' :: lines))
    with (line ++ [0x0D%N; 0x0A%N] ++ join_crlf (line' :: lines)).
  apply Forall_app. split; [done|].
  repeat constructor; try lia. exact IH.
Qed.

(** X9.  Lines of printable ASCII, none of them blank, joined with CR LF,
    written as bytes and followed by NUL or backspace padding of any
    length, come back from [decrypt] as they were, in their order. *)
Theorem decrypt_plain_round_trip (urls : list str) (padding : bytes) :
  Forall (fun url => Forall printable url /\ exists c, In c url /\ c <> 0x20%N)
         urls ->
  Forall is_padding padding ->
  CNL.decrypt_plain (ascii_bytes (join_crlf urls) ++ padding) = Ok urls.
Proof.
  intros Hurls Hpad. unfold CNL.decrypt_plain.
  assert (Hplain : Forall plain_ascii (join_crlf urls)).
  { apply join_crlf_plain. eapply List.Forall_impl; [|exact Hurls].
    intros url [Hp _]. eapply List.Forall_impl; [|exact Hp].
    intros c Hc. by apply printable_facts. }
  rewrite bytes_replace_strip, strip_padding_ascii, utf8_decode_ascii_bytes
    by done.
  f_equal. rewrite splitlines_join_crlf.
  - apply forallb_filter_id. apply forallb_forall. intros url Hin.
    rewrite List.Forall_forall in Hurls.
    destruct (Hurls url Hin) as [Hp (c & Hc & Hns)].
    rewrite truthy_strip. apply negb_true_iff. unfold blank.
    apply not_true_iff_false. intros Hall.
    rewrite forallb_forall in Hall. specialize (Hall c Hc).
    rewrite List.Forall_forall in Hp.
    by apply (printable_facts c (Hp c Hc)) in Hall.
  - eapply List.Forall_impl; [|exact Hurls].
    intros url [Hp (c & Hc & _)]. split; [by destruct url|].
    eapply List.Forall_impl; [|exact Hp]. intros c' Hc'. by apply printable_facts.
Qed.

Lemma decrypt_plain_round_trip_witness :
  CNL.decrypt_plain
    (ascii_bytes (join_crlf [lit "http://a/1"; lit "http://b/2 x"])
     ++ [x00; x00; x08; x00])
  = Ok [lit "http://a/1"; lit "http://b/2 x"].
Proof.
  apply (decrypt_plain_round_trip [lit "http://a/1"; lit "http://b/2 x"]
           [x00; x00; x08; x00]).
  - repeat constructor; try (cbn; lia).
    + exists 0x68%N. split; [by left|lia].
    + exists 0x68%N. split; [by left|lia].
  - repeat constructor; (by left) || (by right).
Defined.

(** ** The batch *)

Lemma select_items_falsy (content_items : list content_item) (mirror : option str) :
  truthy_opt mirror = false -> select_items content_items mirror = (content_items, []).
Proof. intros Hm. unfold select_items. by rewrite Hm. Qed.

Lemma decrypt_content_unfiltered `{CryptoLib} (content_items : list content_item)
  (mirror : option str) :
  truthy_opt mirror = false ->
  decrypt_content content_items mirror
  = (concat (omap decrypted_urls content_items),
     imap (fun i item => item_record i item) content_items).
Proof.
  intros Hm. unfold decrypt_content. rewrite select_items_falsy by done.
  by rewrite decrypt_loop_spec.
Qed.

(** X10.  Without a filter, decrypting two batches one after the other
    gives the links of decrypting them as one batch. *)
Theorem decrypt_content_app `{CryptoLib} (items1 items2 : list content_item)
  (mirror : option str) :
  truthy_opt mirror = false ->
  fst (decrypt_content (items1 ++ items2) mirror)
  = fst (decrypt_content items1 mirror) ++ fst (decrypt_content items2 mirror).
Proof.
  intros Hm. rewrite !decrypt_content_unfiltered by done. cbn [fst].
  by rewrite omap_app, concat_app.
Qed.

Lemma decrypt_content_app_witness :
  fst (@decrypt_content toy_crypto (sample_items ++ sample_items) None)
  = fst (@decrypt_content toy_crypto sample_items None)
    ++ fst (@decrypt_content toy_crypto sample_items None).
Proof.
  apply (@decrypt_content_app toy_crypto sample_items sample_items None).
  reflexivity.
Defined.

Lemma omap_decrypted_urls_payload `{CryptoLib} (items : list content_item) :
  omap decrypted_urls (List.filter has_payload items) = omap decrypted_urls items.
Proof.
  induction items as [|item items IH]; [done|].
  cbn [List.filter]. destruct (has_payload item) eqn:Hp.
  - cbn [omap list_omap]. by rewrite IH.
  - cbn [omap list_omap]. unfold decrypted_urls at 2. by rewrite Hp.
Qed.

(** X11.  An item without [jk] or without [crypted] (absent or empty) is
    skipped: the links are those of the batch without such items, and the
    item has left a record with its position and its hoster label. *)
Theorem decrypt_content_skips_incomplete `{CryptoLib}
  (content_items : list content_item) (mirror : option str) :
  let filtered := fst (select_items content_items mirror) in
  fst (decrypt_content content_items mirror)
  = fst (decrypt_content (List.filter has_payload filtered) None)
  /\ forall idx item,
       filtered !! idx = Some item -> has_payload item = false ->
       In (InfoMissing idx (hoster_name_of item))
          (snd (decrypt_content content_items mirror)).
Proof.
  intros filtered. rewrite (decrypt_content_unfiltered _ None) by done.
  unfold decrypt_content. subst filtered.
  destruct (select_items content_items mirror) as [filtered log0].
  rewrite decrypt_loop_spec. cbn [fst snd]. split.
  - by rewrite omap_decrypted_urls_payload.
  - intros idx item Hidx Hpay. apply in_or_app. right.
    apply list_elem_of_In, list_elem_of_lookup. exists idx.
    rewrite list_lookup_imap, Hidx. cbn. unfold item_record. by rewrite Hpay.
Qed.

Lemma decrypt_content_skips_incomplete_witness :
  fst (@decrypt_content toy_crypto
         (incomplete_item :: sample_items) None)
  = fst (@decrypt_content toy_crypto
           (List.filter has_payload
              (fst (select_items (incomplete_item :: sample_items) None)))
           None)
  /\ In (InfoMissing 0 (lit "W"))
        (snd (@decrypt_content toy_crypto (incomplete_item :: sample_items) None)).
Proof.
  destruct (@decrypt_content_skips_incomplete toy_crypto
              (incomplete_item :: sample_items) None) as [Hlinks Hlog].
  split; [exact Hlinks|]. apply (Hlog 0 incomplete_item); reflexivity.
Defined.

(** ** normalize_title_for_sonarr *)

Example normalize_title_samples :
  normalize_title_for_sonarr (lit "My Hero Academia S01") = lit "My.Hero.Academia.S01"
  /\ normalize_title_for_sonarr (lit "Some Show S01 1080p - GROUP")
     = lit "Some.Show.S01.1080p-GROUP"
  /\ normalize_title_for_sonarr (lit " . A  B .. -  C.") = lit "A.B.-.C".
Proof. repeat split; vm_compute; reflexivity. Qed.

Lemma re_sub_from_chars (matcher : str -> option nat) (repl s : str) :
  forall skip c, In c (re_sub_from matcher repl skip s) -> In c s \/ In c repl.
Proof.
  induction s as [|c0 rest IH]; intros skip c; cbn [re_sub_from]; [auto|].
  destruct skip as [|k].
  - destruct (matcher (c0 :: rest)) as [[|n]|].
    + intros [<-|Hin]; [left; by left|].
      destruct (IH _ _ Hin); [left; by right|by right].
    + intros Hin. apply in_app_or in Hin as [Hin|Hin]; [by right|].
      destruct (IH _ _ Hin); [left; by right|by right].
    + intros [<-|Hin]; [left; by left|].
      destruct (IH _ _ Hin); [left; by right|by right].
  - intros Hin. destruct (IH _ _ Hin); [left; by right|by right].
Qed.

Lemma lstrip_chars_suffix (p : N -> bool) (s : str) :
  exists pre, s = pre ++ lstrip_chars p s.
Proof.
  induction s as [|c s [pre IH]]; [by exists []|]. cbn [lstrip_chars].
  destruct (p c); [|by exists []]. exists (c :: pre). cbn. by rewrite <- IH.
Qed.

Lemma lstrip_chars_head (p : N -> bool) (s : str) (c : N) (rest : str) :
  lstrip_chars p s = c :: rest -> p c = false.
Proof.
  induction s as [|c0 s IH]; [done|]. cbn [lstrip_chars].
  destruct (p c0) eqn:E; [exact IH|]. by intros [= <- <-].
Qed.

(** What [strip] returns is a piece of its argument. *)
Lemma strip_chars_piece (p : N -> bool) (s : str) :
  exists pre post, s = pre ++ strip_chars p s ++ post.
Proof.
  unfold strip_chars.
  destruct (lstrip_chars_suffix p s) as [pre Hpre].
  destruct (lstrip_chars_suffix p (rev (lstrip_chars p s))) as [post Hpost].
  exists pre, (rev post).
  rewrite <- rev_app_distr, <- Hpost, rev_involutive. exact Hpre.
Qed.

Lemma not_in_replaced (old new : N) (s : str) :
  old <> new -> ~ In old (str_replace_char old new s).
Proof.
  intros Hne Hin. unfold str_replace_char in Hin.
  apply in_map_iff in Hin as (c & Hc & _).
  destruct (N.eqb_spec c old); congruence.
Qed.

(** X12.  A normalised title holds no space. *)
Theorem normalize_title_no_space (title : str) :
  ~ In 0x20%N (normalize_title_for_sonarr title).
Proof.
  unfold normalize_title_for_sonarr. cbv zeta. intros Hin.
  destruct (strip_chars_piece is_dot
              (re_sub match_dots [46%N]
                 (re_sub match_dot_hyphen_dot [45%N]
                    (re_sub match_hyphen [45%N]
                       (str_replace_char 32 46 title))))) as (pre & post & Hpiece).
  assert (Hin4 : In 32%N (re_sub match_dots [46%N]
                            (re_sub match_dot_hyphen_dot [45%N]
                               (re_sub match_hyphen [45%N]
                                  (str_replace_char 32 46 title))))).
  { rewrite Hpiece. apply in_or_app. right. apply in_or_app. by left. }
  apply re_sub_from_chars in Hin4 as [Hin3|[E|[]]]; [|done].
  apply re_sub_from_chars in Hin3 as [Hin2|[E|[]]]; [|done].
  apply re_sub_from_chars in Hin2 as [Hin1|[E|[]]]; [|done].
  by apply not_in_replaced in Hin1.
Qed.

Lemma no_double_dot_cons (a : N) (s : str) :
  no_double_dot (a :: s)
  = negb (is_dot a && starts_with_dot s) && no_double_dot s.
Proof. destruct s as [|b s]; cbn; [by rewrite andb_false_r|done]. Qed.

Lemma re_sub_from_match (matcher : str -> option nat) (repl : str)
  (c : N) (rest : str) (n : nat) :
  matcher (c :: rest) = Some (S n) ->
  re_sub_from matcher repl 0 (c :: rest) = repl ++ re_sub_from matcher repl n rest.
Proof. intros E. cbn [re_sub_from]. by rewrite E. Qed.

Lemma re_sub_from_copy (matcher : str -> option nat) (repl : str)
  (c : N) (rest : str) :
  matcher (c :: rest) = None ->
  re_sub_from matcher repl 0 (c :: rest) = c :: re_sub_from matcher repl 0 rest.
Proof. intros E. cbn [re_sub_from]. by rewrite E. Qed.

Lemma match_dots_none (c : N) (rest : str) :
  is_dot c && starts_with_dot rest = false -> match_dots (c :: rest) = None.
Proof.
  unfold match_dots, is_dot. intros Hno.
  destruct (N.eqb_spec c 46) as [->|Hc].
  - destruct rest as [|c' rest]; [done|]. cbn in Hno. unfold is_dot in Hno.
    apply N.eqb_neq in Hno.
    destruct c' as [|p]; [done|]. do 6 (destruct p as [p|p|]; try done).
  - destruct c as [|p]; [done|]. do 6 (destruct p as [p|p|]; try done).
Qed.

(** Collapsing runs of dots: after a run has been passed over the text
    goes on with something that is no dot, and no two dots are left side
    by side. *)
Lemma collapse_dots (s : str) :
  (no_double_dot (re_sub_from match_dots [46%N] 0 s) = true
   /\ (starts_with_dot (re_sub_from match_dots [46%N] 0 s) = true ->
       starts_with_dot s = true))
  /\ no_double_dot (re_sub_from match_dots [46%N] (span_length is_dot s) s) = true
  /\ starts_with_dot (re_sub_from match_dots [46%N] (span_length is_dot s) s)
     = false.
Proof.
  induction s as [|c rest [[IHn IHh] [IHsn IHsh]]]; [done|].
  assert (Hzero :
    no_double_dot (re_sub_from match_dots [46%N] 0 (c :: rest)) = true
    /\ (starts_with_dot (re_sub_from match_dots [46%N] 0 (c :: rest)) = true ->
        starts_with_dot (c :: rest) = true)).
  { destruct (is_dot c && starts_with_dot rest) eqn:Hdd.
    - apply andb_prop in Hdd as [Hc Hr]. apply N.eqb_eq in Hc. subst c.
      destruct rest as [|c' rest']; [done|]. cbn in Hr.
      apply N.eqb_eq in Hr. subst c'.
      rewrite (re_sub_from_match _ _ _ _ (S (span_length is_dot rest')))
        by reflexivity.
      cbn [app]. cbn [span_length is_dot N.eqb Pos.eqb] in IHsn, IHsh.
      rewrite no_double_dot_cons, IHsh, IHsn. done.
    - rewrite re_sub_from_copy by (by apply match_dots_none).
      rewrite no_double_dot_cons, IHn. cbn [starts_with_dot].
      split; [|done]. rewrite andb_true_r. apply negb_true_iff.
      destruct (is_dot c) eqn:Hc; [|done]. cbn [andb] in Hdd |- *.
      destruct (starts_with_dot (re_sub_from match_dots [46%N] 0 rest)) eqn:Hs;
        [|done].
      by rewrite (IHh eq_refl) in Hdd. }
  split; [exact Hzero|].
  cbn [span_length]. destruct (is_dot c) eqn:Hc.
  - cbn [re_sub_from]. done.
  - destruct Hzero as [Hn Hh]. split; [exact Hn|].
    destruct (starts_with_dot (re_sub_from match_dots [46%N] 0 (c :: rest)))
      eqn:Hs; [|done].
    specialize (Hh eq_refl). cbn in Hh. congruence.
Qed.

Lemma no_double_dot_app_r (a b : str) :
  no_double_dot (a ++ b) = true -> no_double_dot b = true.
Proof.
  induction a as [|c a IH]; [done|]. cbn [app].
  rewrite no_double_dot_cons. intros Hn. apply andb_prop in Hn as [_ Hn]. auto.
Qed.

Lemma no_double_dot_app_l (a b : str) :
  no_double_dot (a ++ b) = true -> no_double_dot a = true.
Proof.
  induction a as [|c a IH]; [done|]. cbn [app].
  rewrite !no_double_dot_cons. intros Hn. apply andb_prop in Hn as [Hc Hn].
  rewrite (IH Hn), andb_true_r.
  destruct a as [|c' a]; [by rewrite andb_false_r|exact Hc].
Qed.

Lemma strip_chars_ends (p : N -> bool) (s : str) :
  (forall c rest, strip_chars p s = c :: rest -> p c = false)
  /\ (forall c rest, rev (strip_chars p s) = c :: rest -> p c = false).
Proof.
  unfold strip_chars. split.
  - intros c rest Hr.
    destruct (lstrip_chars_suffix p (rev (lstrip_chars p s))) as [x Hx].
    apply (f_equal (@rev N)) in Hx.
    rewrite rev_involutive, rev_app_distr, Hr in Hx. cbn [app] in Hx.
    by apply lstrip_chars_head in Hx.
  - intros c rest. rewrite rev_involutive. apply lstrip_chars_head.
Qed.

(** X13.  In a normalised title no two dots stand side by side, and it
    neither starts nor ends with a dot. *)
Theorem normalize_title_dots (title : str) :
  no_double_dot (normalize_title_for_sonarr title) = true
  /\ starts_with_dot (normalize_title_for_sonarr title) = false
  /\ starts_with_dot (rev (normalize_title_for_sonarr title)) = false.
Proof.
  unfold normalize_title_for_sonarr. cbv zeta.
  set (collapsed := re_sub match_dots [46%N] _).
  destruct (strip_chars_ends is_dot collapsed) as [Hfirst Hlast].
  split; [|split].
  - destruct (strip_chars_piece is_dot collapsed) as (pre & post & Hpiece).
    pose proof (proj1 (proj1 (collapse_dots
      (re_sub match_dot_hyphen_dot [45%N]
         (re_sub match_hyphen [45%N] (str_replace_char 32 46 title)))))) as Hn.
    fold (re_sub match_dots [46%N]
            (re_sub match_dot_hyphen_dot [45%N]
               (re_sub match_hyphen [45%N] (str_replace_char 32 46 title)))) in Hn.
    fold collapsed in Hn. rewrite Hpiece in Hn.
    by apply no_double_dot_app_r, no_double_dot_app_l in Hn.
  - destruct (strip_chars is_dot collapsed) as [|c rest] eqn:E; [done|].
    cbn. by eapply Hfirst.
  - destruct (rev (strip_chars is_dot collapsed)) as [|c rest] eqn:E; [done|].
    cbn. by eapply Hlast.
Qed.

Lemma span_length_none (p : N -> bool) (s : str) :
  Forall (fun c => p c = false) s -> span_length p s = 0.
Proof. destruct 1 as [|c s Hc _]; [done|]. cbn. by rewrite Hc. Qed.

Lemma hyphens_fixed (s : str) :
  Forall (fun c => is_whitespace c = false) s ->
  re_sub match_hyphen [45%N] s = s.
Proof.
  unfold re_sub. induction 1 as [|c rest Hc Hrest IH]; [done|].
  destruct (N.eqb_spec c 45) as [->|Hne].
  - rewrite (re_sub_from_match _ _ _ _ 0).
    + cbn [app]. by rewrite IH.
    + unfold match_hyphen. cbn. by rewrite span_length_none.
  - rewrite re_sub_from_copy; [by rewrite IH|].
    unfold match_hyphen. cbn [span_length]. rewrite Hc. cbn [drop].
    destruct c as [|p]; [done|].
    do 6 (destruct p as [p|p|]; try done).
Qed.

Lemma match_dot_hyphen_dot_none (s : str) :
  startswith s (lit ".-.") = false -> match_dot_hyphen_dot s = None.
Proof.
  unfold match_dot_hyphen_dot. change (lit ".-.") with [46%N; 45%N; 46%N].
  destruct s as [|a [|b [|c r]]]; cbn [startswith].
  - done.
  - intros _. destruct a as [|p]; [done|]. do 6 (destruct p as [p|p|]; try done).
  - intros _. destruct a as [|p]; [done|]. do 6 (destruct p as [p|p|]; try done).
    destruct b as [|p]; [done|]. do 6 (destruct p as [p|p|]; try done).
  - destruct (N.eqb_spec a 46) as [->|Ha].
    + destruct (N.eqb_spec b 45) as [->|Hb].
      * destruct (N.eqb_spec c 46) as [->|Hc]; [by destruct r|]. intros _.
        destruct c as [|p]; [done|]. do 6 (destruct p as [p|p|]; try done).
      * intros _. destruct b as [|p]; [done|].
        do 6 (destruct p as [p|p|]; try done).
    + intros _. destruct a as [|p]; [done|].
      do 6 (destruct p as [p|p|]; try done).
Qed.

Lemma dot_hyphen_dot_fixed (s : str) :
  str_in (lit ".-.") s = false -> re_sub match_dot_hyphen_dot [45%N] s = s.
Proof.
  unfold re_sub. induction s as [|c rest IH]; [done|].
  cbn [str_in]. intros Hno. apply orb_false_iff in Hno as [Hhead Hrest].
  rewrite re_sub_from_copy by (by apply match_dot_hyphen_dot_none).
  by rewrite IH.
Qed.

Lemma dots_fixed (s : str) :
  no_double_dot s = true -> re_sub match_dots [46%N] s = s.
Proof.
  unfold re_sub. induction s as [|c rest IH]; [done|].
  rewrite no_double_dot_cons. intros Hn. apply andb_prop in Hn as [Hc Hn].
  rewrite re_sub_from_copy by (apply match_dots_none; by apply negb_true_iff).
  by rewrite IH.
Qed.

Lemma lstrip_chars_fixed (p : N -> bool) (s : str) :
  match s with c :: _ => p c | [] => false end = false -> lstrip_chars p s = s.
Proof. destruct s as [|c s]; [done|]. cbn. by intros ->. Qed.

Lemma strip_dots_fixed (s : str) :
  starts_with_dot s = false -> starts_with_dot (rev s) = false ->
  strip_chars is_dot s = s.
Proof.
  intros Hfirst Hlast. unfold strip_chars.
  rewrite (lstrip_chars_fixed is_dot s) by exact Hfirst.
  rewrite (lstrip_chars_fixed is_dot (rev s)) by exact Hlast.
  apply rev_involutive.
Qed.

(** X14.  When the title with its spaces turned into dots is clean (no
    whitespace left, no dot-hyphen-dot, no two dots side by side, no dot
    at either end), that is the normalised title: words separated by
    single spaces become words separated by dots, and a title in dotted
    form is returned as it is. *)
Theorem normalize_title_clean (title : str) :
  clean_title (str_replace_char 0x20 0x2E title) ->
  normalize_title_for_sonarr title = str_replace_char 0x20 0x2E title.
Proof.
  intros (Hws & Hdhd & Hdd & Hfirst & Hlast).
  unfold normalize_title_for_sonarr. cbv zeta.
  rewrite hyphens_fixed by exact Hws.
  rewrite dot_hyphen_dot_fixed by exact Hdhd.
  rewrite dots_fixed by exact Hdd.
  by apply strip_dots_fixed.
Qed.

Lemma normalize_title_clean_witness :
  normalize_title_for_sonarr (lit "My Hero Academia S01-GRP")
  = str_replace_char 0x20 0x2E (lit "My Hero Academia S01-GRP").
Proof.
  apply (normalize_title_clean (lit "My Hero Academia S01-GRP")).
  unfold clean_title. split; [|repeat split; reflexivity].
  apply List.Forall_forall. intros c Hc. vm_compute in Hc.
  repeat (destruct Hc as [<-|Hc]; [reflexivity|]). destruct Hc.
Defined.

(** ** The links of a page *)

Section Links.
Context `{HtmlLib}.

Lemma match_patterns_spec (patterns : list string) (href : str) (links : list str) :
  match_patterns patterns href links
  = if existsb (fun pattern => re_search_ignorecase pattern href) patterns
    then (if decide (href ∈ links) then links else links ++ [href])
    else links.
Proof.
  induction patterns as [|pattern rest IH]; [done|].
  cbn [match_patterns existsb].
  destruct (re_search_ignorecase pattern href); [done|]. exact IH.
Qed.

Lemma extract_loop_spec (internal : str) (patterns : list string)
  (hrefs : list str) :
  forall links,
    extract_loop internal patterns hrefs links
    = links ++ first_occurrences links
                 (List.filter (accepted internal patterns) hrefs).
Proof.
  induction hrefs as [|href rest IH]; intros links.
  - cbn. by rewrite app_nil_r.
  - cbn [extract_loop List.filter].
    assert (Hacc : accepted internal patterns href
                   = negb (startswith href (lit "/") || str_in internal href)
                     && existsb (fun pattern => re_search_ignorecase pattern href)
                          patterns) by reflexivity.
    rewrite Hacc.
    destruct (startswith href (lit "/") || str_in internal href);
      cbn [negb andb]; [apply IH|].
    rewrite match_patterns_spec, IH.
    destruct (existsb _ patterns); [|done].
    cbn [first_occurrences].
    destruct (decide (href ∈ links)); [done|].
    by rewrite <- app_assoc.
Qed.

Lemma first_occurrences_in (l : list str) :
  forall seen x, x ∈ first_occurrences seen l <-> x ∈ l /\ x ∉ seen.
Proof.
  induction l as [|y rest IH]; intros seen x; cbn [first_occurrences].
  - split; [intros Hx|intros [Hx _]]; by apply elem_of_nil in Hx.
  - destruct (decide (y ∈ seen)) as [Hy|Hy].
    + rewrite IH, elem_of_cons. split.
      * intros [Hx Hs]. auto.
      * intros [[->|Hx] Hs]; [done|auto].
    + rewrite !elem_of_cons, IH, elem_of_app, list_elem_of_singleton. split.
      * intros [->|[Hx Hs]]; [auto|]. split; [auto|]. intros Hs'. apply Hs. auto.
      * intros [[->|Hx] Hs]; [auto|].
        destruct (decide (x = y)) as [->|Hne]; [auto|]. right. split; [done|].
        intros [Hs'|Hs']; [by apply Hs|done].
Qed.

Lemma first_occurrences_nodup (l : list str) :
  forall seen, NoDup seen -> NoDup (seen ++ first_occurrences seen l).
Proof.
  induction l as [|y rest IH]; intros seen Hseen; cbn [first_occurrences].
  - by rewrite app_nil_r.
  - destruct (decide (y ∈ seen)) as [Hy|Hy]; [by apply IH|].
    rewrite cons_middle, app_assoc. apply IH.
    apply NoDup_app. split; [done|]. split; [|apply NoDup_singleton].
    intros z Hz Hz'. apply list_elem_of_singleton in Hz'. by subst.
Qed.

Lemma extract_loop_links (internal : str) (patterns : list string)
  (hrefs : list str) :
  extract_loop internal patterns hrefs []
  = first_occurrences [] (List.filter (accepted internal patterns) hrefs)
  /\ NoDup (extract_loop internal patterns hrefs [])
  /\ forall href,
       href ∈ extract_loop internal patterns hrefs []
       <-> href ∈ hrefs /\ accepted internal patterns href = true.
Proof.
  rewrite extract_loop_spec. cbn [app]. split; [done|]. split.
  - apply (first_occurrences_nodup _ []). constructor.
  - intros href. rewrite first_occurrences_in. split.
    + intros [Hin _]. apply list_elem_of_In, filter_In in Hin as [Hin Hacc].
      split; [by apply list_elem_of_In|done].
    + intros [Hin Hacc]. split; [|apply not_elem_of_nil].
      apply list_elem_of_In, filter_In. split; [by apply list_elem_of_In|done].
Qed.

(** X15.  [extract_links_from_post] returns every link of the post that
    does not start with a slash, does not contain the name of the forum
    and in which a hoster pattern is found; it returns each such link
    once, at the place where it first stands in the post. *)
Theorem extract_links_from_post_links (post_html : str) :
  extract_links_from_post post_html
  = first_occurrences []
      (List.filter (accepted (lit "data-load.me") hoster_patterns)
         (find_all_a_href post_html))
  /\ NoDup (extract_links_from_post post_html)
  /\ forall href,
       href ∈ extract_links_from_post post_html
       <-> href ∈ find_all_a_href post_html
           /\ accepted (lit "data-load.me") hoster_patterns href = true.
Proof. apply extract_loop_links. Qed.

(** X16.  [extract_links_from_page] does the same for a detail page of
    the other site, with its own name and its own list of patterns. *)
Theorem extract_links_from_page_links (page_html : str) :
  extract_links_from_page page_html
  = first_occurrences []
      (List.filter (accepted (lit "warez.cx") patterns)
         (find_all_a_href page_html))
  /\ NoDup (extract_links_from_page page_html)
  /\ forall href,
       href ∈ extract_links_from_page page_html
       <-> href ∈ find_all_a_href page_html
           /\ accepted (lit "warez.cx") patterns href = true.
Proof. apply extract_loop_links. Qed.

End Links.

Example extract_links_from_post_sample :
  @extract_links_from_post toy_html sample_page
  = [lit "https://rapidgator.net/file/1"; lit "https://filecrypt.cc/c/2"].
Proof. vm_compute. reflexivity. Qed.

(** ** quasarr/providers/sessions/dl.py *)

(** *** Encoding what was decoded *)

Ltac nlia := zify; Z.to_euclidean_division_equations; lia.

Lemma byte_of_char_to_N (b : byte) : byte_of_char (Byte.to_N b) = b.
Proof. unfold byte_of_char. by rewrite Byte.of_to_N. Qed.

Lemma utf8_encode_char_1 (b0 : byte) :
  (Byte.to_N b0 < 0x80)%N -> utf8_encode_char (Byte.to_N b0) = Some [b0].
Proof.
  intros H0. unfold utf8_encode_char.
  destruct (N.ltb_spec (Byte.to_N b0) 0x80); [|lia].
  by rewrite byte_of_char_to_N.
Qed.

Lemma utf8_encode_char_2 (b0 b1 : byte) :
  let c0 := Byte.to_N b0 in
  let c1 := Byte.to_N b1 in
  in_range 0xC2 0xDF c0 = true -> continuation c1 = true ->
  utf8_encode_char ((c0 - 0xC0) * 0x40 + (c1 - 0x80)) = Some [b0; b1].
Proof.
  intros c0 c1 H0 H1. unfold continuation, in_range in *. bool_to_prop.
  unfold utf8_encode_char. set (cp := (_ + _)%N).
  destruct (N.ltb_spec cp 0x80); [nlia|].
  destruct (N.ltb_spec cp 0x800); [|nlia].
  assert (0xC0 + cp / 0x40 = c0)%N as -> by nlia.
  assert (0x80 + cp mod 0x40 = c1)%N as -> by nlia.
  subst c0 c1. by rewrite !byte_of_char_to_N.
Qed.

Lemma utf8_encode_char_3 (b0 b1 b2 : byte) :
  let c0 := Byte.to_N b0 in
  let c1 := Byte.to_N b1 in
  let c2 := Byte.to_N b2 in
  in_range 0xE0 0xEF c0 = true ->
  in_range (if (c0 =? 0xE0)%N then 0xA0%N else 0x80%N)
           (if (c0 =? 0xED)%N then 0x9F%N else 0xBF%N) c1 = true ->
  continuation c2 = true ->
  utf8_encode_char ((c0 - 0xE0) * 0x1000 + (c1 - 0x80) * 0x40 + (c2 - 0x80))
  = Some [b0; b1; b2].
Proof.
  intros c0 c1 c2 H0 H1 H2. unfold utf8_encode_char, continuation, in_range in *.
  set (cp := (_ + _)%N).
  destruct (N.eqb_spec c0 0xE0) as [E0|E0]; destruct (N.eqb_spec c0 0xED) as [ED|ED];
    bool_to_prop; try lia.
  all: destruct (N.ltb_spec cp 0x80); [nlia|].
  all: destruct (N.ltb_spec cp 0x800); [nlia|].
  all: destruct (N.ltb_spec cp 0x10000); [|nlia].
  all: destruct (N.leb_spec 0xD800 cp); destruct (N.leb_spec cp 0xDFFF);
    try nlia; cbn [andb].
  all: assert (0xE0 + cp / 0x1000 = c0)%N as -> by nlia.
  all: assert (0x80 + (cp / 0x40) mod 0x40 = c1)%N as -> by nlia.
  all: assert (0x80 + cp mod 0x40 = c2)%N as -> by nlia.
  all: subst c0 c1 c2; by rewrite !byte_of_char_to_N.
Qed.

Lemma utf8_encode_char_4 (b0 b1 b2 b3 : byte) :
  let c0 := Byte.to_N b0 in
  let c1 := Byte.to_N b1 in
  let c2 := Byte.to_N b2 in
  let c3 := Byte.to_N b3 in
  in_range 0xF0 0xF4 c0 = true ->
  in_range (if (c0 =? 0xF0)%N then 0x90%N else 0x80%N)
           (if (c0 =? 0xF4)%N then 0x8F%N else 0xBF%N) c1 = true ->
  continuation c2 = true -> continuation c3 = true ->
  utf8_encode_char ((c0 - 0xF0) * 0x40000 + (c1 - 0x80) * 0x1000
                    + (c2 - 0x80) * 0x40 + (c3 - 0x80))
  = Some [b0; b1; b2; b3].
Proof.
  intros c0 c1 c2 c3 H0 H1 H2 H3. unfold continuation, in_range in *.
  unfold utf8_encode_char. set (cp := (_ + _)%N).
  destruct (N.eqb_spec c0 0xF0) as [E0|E0]; destruct (N.eqb_spec c0 0xF4) as [E4|E4];
    bool_to_prop; try lia.
  all: destruct (N.ltb_spec cp 0x80); [nlia|].
  all: destruct (N.ltb_spec cp 0x800); [nlia|].
  all: destruct (N.ltb_spec cp 0x10000); [nlia|].
  all: destruct (N.ltb_spec cp 0x110000); [|nlia].
  all: assert (0xF0 + cp / 0x40000 = c0)%N as -> by nlia.
  all: assert (0x80 + (cp / 0x1000) mod 0x40 = c1)%N as -> by nlia.
  all: assert (0x80 + (cp / 0x40) mod 0x40 = c2)%N as -> by nlia.
  all: assert (0x80 + cp mod 0x40 = c3)%N as -> by nlia.
  all: subst c0 c1 c2 c3; by rewrite !byte_of_char_to_N.
Qed.

(** [text.encode("utf-8")] gives back the bytes that [text] was decoded
    from. *)
Lemma utf8_encode_decode (s : bytes) :
  forall text, utf8_decode s = Some text -> utf8_encode text = Some s.
Proof.
  remember (length s) as n eqn:Hn.
  revert s Hn. induction (lt_wf n) as [n _ IH]. intros s Hn text Hdec.
  assert (IHr : forall s' text', length s' < n -> utf8_decode s' = Some text' ->
            utf8_encode text' = Some s').
  { intros s' text' Hlt Hd. by eapply (IH (length s')). }
  destruct s as [|b0 r0]; [by injection Hdec as <-|].
  cbn [utf8_decode] in Hdec. cbv zeta in Hdec. cbn [length] in Hn.
  destruct (N.ltb_spec (Byte.to_N b0) 128) as [H0|H0].
  { destruct (utf8_decode r0) as [t|] eqn:Hr; [|done]. injection Hdec as <-.
    cbn [utf8_encode]. rewrite utf8_encode_char_1 by done.
    rewrite (IHr r0 t) by (done || lia). done. }
  destruct (in_range 194 223 (Byte.to_N b0)) eqn:H2.
  { destruct r0 as [|b1 r1]; [done|].
    destruct (continuation (Byte.to_N b1)) eqn:Hc1; [|done].
    destruct (utf8_decode r1) as [t|] eqn:Hr; [|done]. injection Hdec as <-.
    cbn [utf8_encode]. rewrite utf8_encode_char_2 by done.
    rewrite (IHr r1 t) by (done || cbn [length] in *; lia). done. }
  destruct (in_range 224 239 (Byte.to_N b0)) eqn:H3.
  { destruct r0 as [|b1 [|b2 r2]]; [done|done|].
    destruct (in_range _ _ (Byte.to_N b1)) eqn:Hc1 in Hdec; [|done].
    destruct (continuation (Byte.to_N b2)) eqn:Hc2; [|done].
    destruct (utf8_decode r2) as [t|] eqn:Hr; [|done]. injection Hdec as <-.
    cbn [utf8_encode]. rewrite utf8_encode_char_3 by done.
    rewrite (IHr r2 t) by (done || cbn [length] in *; lia). done. }
  destruct (in_range 240 244 (Byte.to_N b0)) eqn:H4; [|done].
  destruct r0 as [|b1 [|b2 [|b3 r3]]]; [done|done|done|].
  destruct (in_range _ _ (Byte.to_N b1)) eqn:Hc1 in Hdec; [|done].
  destruct (continuation (Byte.to_N b2)) eqn:Hc2; [|done].
  destruct (continuation (Byte.to_N b3)) eqn:Hc3; [|done].
  destruct (utf8_decode r3) as [t|] eqn:Hr; [|done]. injection Hdec as <-.
  cbn [utf8_encode]. rewrite utf8_encode_char_4 by done.
  rewrite (IHr r3 t) by (done || cbn [length] in *; lia). done.
Qed.

Lemma utf8_decode_empty (s : bytes) : utf8_decode s = Some [] -> s = [].
Proof.
  intros Hdec. apply utf8_encode_decode in Hdec. by injection Hdec.
Qed.

Section SessionFacts.
Context {requests : RequestsLib} {pickle : PickleLib}.

(** *** Creating a session *)

Lemma create_and_persist_session_cases (shared_state : shared_values) (w : world) :
  forall r w', create_and_persist_session shared_state w = (r, w') ->
    match r with
    | Ok (Some sess) =>
      exists token sess0 reply,
        token_of sess = Some token
        /\ sessions_table w' = <[hostname := token]> (sessions_table w)
        /\ network w' = network w ++ [login_request shared_state]
        /\ answer (network w) sess0 (login_request shared_state) = Ok (reply, sess)
        /\ str_in logged_in_marker (reply_text reply) = true
        /\ truthy_opt (config shared_state "DL" "xf_session") = true
        /\ truthy_opt (config shared_state "DL" "xf_cookie") = true
    | Ok None =>
      sessions_table w' = sessions_table w
      /\ (network w' = network w
          \/ network w' = network w ++ [login_request shared_state])
    | Raise e =>
      sessions_table w' = sessions_table w
      /\ (network w' = network w
          \/ network w' = network w ++ [login_request shared_state])
      /\ (config shared_state "Hostnames" hostname = None
          /\ e = LibraryError "AttributeError" /\ w' = w
          \/ exists sess, token_of sess = None)
    end.
Proof.
  intros r w'. unfold create_and_persist_session.
  destruct (truthy_opt (config shared_state "DL" "xf_session")) eqn:Hs;
    [|intros [= <- <-]; cbn; by auto].
  destruct (truthy_opt (config shared_state "DL" "xf_cookie")) eqn:Hc;
    [|intros [= <- <-]; cbn; by auto].
  cbn [negb orb]. cbv zeta. unfold login_request.
  destruct (config shared_state "Hostnames" hostname) as [domain|] eqn:Hhost.
  2: { intros [= <- <-]. split; [done|]. split; [by left|]. by left. }
  cbn [get_or].
  destruct (session_get _ _ _ _ _) as [[reply sess]|e] eqn:Hget;
    [|intros [= <- <-]; cbn; by auto].
  destruct (str_in logged_in_marker (reply_text reply)) eqn:Hin;
    [|intros [= <- <-]; cbn; by auto].
  cbn [negb]. destruct (token_of sess) as [token|] eqn:Htok;
    intros [= <- <-]; cbn.
  - eexists token, _, reply. by repeat split.
  - split; [done|]. split; [by right|]. right. by exists sess.
Qed.

(** X17 (create_and_persist_session): the table of sessions changes only
    when a session is returned, and then only under the key dl, which then
    holds the token of the returned session: the session as the login
    request left it, whose reply showed the login marker.  At most the
    login request is sent.  An exception leaves the table as it was: it
    is the [AttributeError] of [cookies.set] when the configuration has
    credentials and no host name for dl, raised before any request, or
    the token of the new session is not text. *)
Theorem create_and_persist_session_store (shared_state : shared_values) (w : world) :
  let '(r, w') := create_and_persist_session shared_state w in
  (forall key, key <> hostname -> sessions_table w' !! key = sessions_table w !! key)
  /\ (network w' = network w \/ network w' = network w ++ [login_request shared_state])
  /\ match r with
     | Ok (Some sess) =>
       sessions_table w' !! hostname = token_of sess
       /\ exists sess0 reply,
            answer (network w) sess0 (login_request shared_state) = Ok (reply, sess)
            /\ str_in logged_in_marker (reply_text reply) = true
     | Ok None => sessions_table w' = sessions_table w
     | Raise e =>
       sessions_table w' = sessions_table w
       /\ (config shared_state "Hostnames" hostname = None
           /\ truthy_opt (config shared_state "DL" "xf_session") = true
           /\ truthy_opt (config shared_state "DL" "xf_cookie") = true
           /\ e = LibraryError "AttributeError" /\ network w' = network w
           \/ exists sess, token_of sess = None)
     end.
Proof.
  destruct (create_and_persist_session shared_state w) as [r w'] eqn:Hrun.
  pose proof Hrun as Hcases. apply create_and_persist_session_cases in Hcases.
  destruct r as [[sess|]|e].
  - destruct Hcases as (token & sess0 & reply & Htok & Htab & Hnet & Hans & Hin & _).
    split; [|split; [by right|split]].
    + intros key Hkey. rewrite Htab. by apply lookup_insert_ne.
    + rewrite Htab, Htok. apply lookup_insert_eq.
    + by exists sess0, reply.
  - destruct Hcases as [Htab Hnet]. by rewrite Htab.
  - destruct Hcases as (Htab & Hnet & Hwhy). rewrite Htab.
    split; [done|]. split; [done|]. split; [done|].
    destruct Hwhy as [(Hhost & -> & ->)|Hsess]; [left|by right].
    unfold create_and_persist_session in Hrun.
    destruct (truthy_opt (config shared_state "DL" "xf_session")); [|done].
    destruct (truthy_opt (config shared_state "DL" "xf_cookie")); done.
Qed.

(** A configuration with credentials and no host name for dl: the first
    [cookies.set] raises, and nothing is requested. *)
Example create_and_persist_session_without_host :
  create_and_persist_session toy_values_without_host empty_world
  = (Raise (LibraryError "AttributeError"), empty_world).
Proof. reflexivity. Qed.

(** *** Reading a session back *)

Lemma load_session_token_of (sess : Session) (token : str) :
  token_of sess = Some token ->
  b64decode_bytes (b64encode (pickle_dumps sess)) = Ok (pickle_dumps sess) ->
  pickle_loads (pickle_dumps sess) = Ok (IsSession sess) ->
  load_session token = Ok sess.
Proof.
  unfold token_of, load_session. intros Htok Hb64 Hpickle.
  rewrite (utf8_encode_decode _ _ Htok), Hb64. cbn. by rewrite Hpickle.
Qed.

Lemma stored_session_is_reused (shared_state : shared_values) (w : world)
  (sess : Session) :
  sessions_table w !! hostname = token_of sess ->
  b64encode (pickle_dumps sess) <> [] ->
  b64decode_bytes (b64encode (pickle_dumps sess)) = Ok (pickle_dumps sess) ->
  pickle_loads (pickle_dumps sess) = Ok (IsSession sess) ->
  is_Some (token_of sess) ->
  retrieve_and_validate_session shared_state w = (Ok (Some sess), w).
Proof.
  intros Htab Hne Hb64 Hpickle [token Htok].
  unfold retrieve_and_validate_session, retrieve. rewrite Htab, Htok.
  assert (Htruthy : truthy token = true).
  { destruct token; [|done]. by apply utf8_decode_empty in Htok. }
  cbn. rewrite Htruthy. cbn.
  by rewrite (load_session_token_of sess token).
Qed.

(** X18 (create_and_persist_session, retrieve_and_validate_session): a
    session that was created and stored is the one
    [retrieve_and_validate_session] gives back afterwards, without another
    login request and without touching the table or the log: provided
    [base64] and [pickle] give back what was put in, for this session. *)
Theorem created_session_is_reused (shared_state : shared_values) (w w' : world)
  (sess : Session) :
  create_and_persist_session shared_state w = (Ok (Some sess), w') ->
  b64encode (pickle_dumps sess) <> [] ->
  b64decode_bytes (b64encode (pickle_dumps sess)) = Ok (pickle_dumps sess) ->
  pickle_loads (pickle_dumps sess) = Ok (IsSession sess) ->
  retrieve_and_validate_session shared_state w' = (Ok (Some sess), w').
Proof.
  intros Hrun Hne Hb64 Hpickle.
  apply create_and_persist_session_cases in Hrun.
  destruct Hrun as (token & _ & _ & Htok & Htab & _).
  apply stored_session_is_reused; [|done..|by exists token].
  rewrite Htab, Htok. apply lookup_insert_eq.
Qed.

(** *** Fetching through the session *)

Lemma retrieve_and_validate_session_cases (shared_state : shared_values)
  (w : world) :
  forall r w', retrieve_and_validate_session shared_state w = (r, w') ->
    (exists sess, r = Ok (Some sess) /\ w' = w)
    \/ exists w0, sessions_table w0 = sessions_table w
                  /\ network w0 = network w
                  /\ create_and_persist_session shared_state w0 = (r, w').
Proof.
  intros r w'. unfold retrieve_and_validate_session.
  destruct (truthy_opt (retrieve w hostname)); cbn [negb].
  - destruct (load_session _) as [sess|e].
    + intros [= <- <-]. left. by exists sess.
    + intros Hrun. right. by eexists (log_line w _).
  - intros Hrun. right. by exists w.
Qed.

Lemma fetch_via_requests_session_ok (shared_state : shared_values)
  (method target_url : str) (post_data get_params : form) (timeout : Z)
  (w w' : world) (resp : http_reply) :
  fetch_via_requests_session shared_state method target_url post_data get_params
    timeout w = (Ok resp, w') ->
  let target := target_request method target_url post_data get_params timeout in
  exists pre sess0 sess token,
    (pre = [] \/ pre = [login_request shared_state])
    /\ network w' = network w ++ pre ++ [target]
    /\ answer (network w ++ pre) sess0 target = Ok (resp, sess)
    /\ token_of sess = Some token
    /\ sessions_table w' = <[hostname := token]> (sessions_table w).
Proof.
  unfold fetch_via_requests_session, target_request.
  destruct (retrieve_and_validate_session shared_state w) as [[[sess0|]|e] w1] eqn:Hret;
    [|done..].
  assert (Hw1 : exists pre,
             (pre = [] \/ pre = [login_request shared_state])
             /\ network w1 = network w ++ pre
             /\ forall token,
                  <[hostname := token]> (sessions_table w1)
                  = <[hostname := token]> (sessions_table w)).
  { apply retrieve_and_validate_session_cases in Hret
      as [(? & _ & ->)|(w0 & Htab & Hnet & Hrun)].
    - exists []. split; [by left|]. by rewrite app_nil_r.
    - apply create_and_persist_session_cases in Hrun
        as (token1 & _ & _ & _ & Htab1 & Hnet1 & _).
      exists [login_request shared_state]. split; [by right|].
      rewrite Hnet1, Hnet, Htab1, Htab. split; [done|].
      intros token. apply insert_insert_eq. }
  destruct Hw1 as (pre & Hpre & Hnet & Htab).
  destruct (is_GET method).
  - destruct (session_get _ _ _ _ _) as [[resp' sess]|e] eqn:Hget; [|done].
    unfold _persist_session_to_db.
    destruct (token_of sess) as [token|] eqn:Htok; [|done].
    intros [= <- <-]. exists pre, sess0, sess, token. cbn.
    rewrite Hnet, Htab, <- app_assoc in *. by repeat split.
  - destruct (session_post _ _ _ _ _) as [[resp' sess]|e] eqn:Hpost; [|done].
    unfold _persist_session_to_db.
    destruct (token_of sess) as [token|] eqn:Htok; [|done].
    intros [= <- <-]. exists pre, sess0, sess, token. cbn.
    rewrite Hnet, Htab, <- app_assoc in *. by repeat split.
Qed.

(** X19 (fetch_via_requests_session, _persist_session_to_db): when a
    fetch returns a reply, the request asked for was the last one sent,
    preceded by at most the login request; the reply is the library's
    answer to it; and the table holds under dl the token of the session
    as that request left it, whatever was stored before, all other keys
    being as they were. *)
Theorem fetch_via_requests_session_persists (shared_state : shared_values)
  (method target_url : str) (post_data get_params : form) (timeout : Z)
  (w w' : world) (resp : http_reply) :
  fetch_via_requests_session shared_state method target_url post_data get_params
    timeout w = (Ok resp, w') ->
  let target := target_request method target_url post_data get_params timeout in
  exists pre sess0 sess token,
    (pre = [] \/ pre = [login_request shared_state])
    /\ network w' = network w ++ pre ++ [target]
    /\ answer (network w ++ pre) sess0 target = Ok (resp, sess)
    /\ token_of sess = Some token
    /\ sessions_table w' = <[hostname := token]> (sessions_table w).
Proof. apply fetch_via_requests_session_ok. Qed.

(** X20 (fetch_via_requests_session, retrieve_and_validate_session,
    create_and_persist_session): without both cookies in the
    configuration, and with nothing usable stored (no token, an empty one,
    or one that does not load), a fetch raises, sends no request (neither
    the login request nor the one asked for) and leaves the table as it
    was. *)
Theorem fetch_via_requests_session_no_credentials (shared_state : shared_values)
  (method target_url : str) (post_data get_params : form) (timeout : Z)
  (w : world) :
  truthy_opt (config shared_state "DL" "xf_session")
  && truthy_opt (config shared_state "DL" "xf_cookie") = false ->
  (truthy_opt (retrieve w hostname) = false
   \/ exists e, load_session (get_or [] (retrieve w hostname)) = Raise e) ->
  exists w',
    fetch_via_requests_session shared_state method target_url post_data get_params
      timeout w
    = (Raise (LibraryError "Exception: Could not retrieve valid session for dl"), w')
    /\ network w' = network w
    /\ sessions_table w' = sessions_table w.
Proof.
  intros Hcred Hstored.
  assert (Hcreate : forall w0, exists w1,
            create_and_persist_session shared_state w0 = (Ok None, w1)
            /\ network w1 = network w0 /\ sessions_table w1 = sessions_table w0).
  { intros w0. unfold create_and_persist_session.
    replace (negb _ || negb _) with true
      by (by destruct (truthy_opt _), (truthy_opt _)).
    by eexists. }
  unfold fetch_via_requests_session, retrieve_and_validate_session.
  destruct (truthy_opt (retrieve w hostname)) eqn:Htoken; cbn [negb].
  - destruct Hstored as [|[e He]]; [done|]. rewrite He.
    destruct (Hcreate (log_line w (LogDebug "{}: session load failed: {}"
                                     [lit hostname; exn_text e])))
      as (w1 & -> & Hnet & Htab).
    by exists w1.
  - destruct (Hcreate w) as (w1 & -> & Hnet & Htab). by exists w1.
Qed.

(** *** Dropping the session *)

(** X21 (invalidate_session, retrieve_and_validate_session): after
    [invalidate_session] nothing is stored under dl while every other key
    is as before, and the next [retrieve_and_validate_session] does what
    [create_and_persist_session] does: whatever was stored is not used
    again. *)
Theorem invalidate_session_forces_login (shared_state : shared_values)
  (w : world) :
  sessions_table (invalidate_session w) !! hostname = None
  /\ (forall key, key <> hostname ->
        sessions_table (invalidate_session w) !! key = sessions_table w !! key)
  /\ network (invalidate_session w) = network w
  /\ retrieve_and_validate_session shared_state (invalidate_session w)
     = create_and_persist_session shared_state (invalidate_session w).
Proof.
  assert (Hgone : sessions_table (invalidate_session w) !! hostname = None)
    by apply lookup_delete_eq.
  split; [done|]. split; [|split; [done|]].
  - intros key Hkey. by apply lookup_delete_ne.
  - unfold retrieve_and_validate_session, retrieve. by rewrite Hgone.
Qed.

End SessionFacts.

Lemma fetch_via_requests_session_persists_witness :
  exists pre sess0 sess token,
    (pre = [] \/ pre = [login_request (toy_values true)])
    /\ network (snd (fetch_via_requests_session (toy_values true) (lit "get")
                       (lit "https://www.site.to/threads/1") None None 30
                       empty_world))
       = [] ++ pre ++ [NetGet (lit "https://www.site.to/threads/1") None 30]
    /\ answer ([] ++ pre) sess0
         (NetGet (lit "https://www.site.to/threads/1") None 30)
       = Ok ({| reply_status := 200; reply_text := sample_page |}, sess)
    /\ token_of sess = Some token
    /\ sessions_table (snd (fetch_via_requests_session (toy_values true) (lit "get")
                              (lit "https://www.site.to/threads/1") None None 30
                              empty_world))
       = <[hostname := token]> ∅.
Proof.
  apply (fetch_via_requests_session_persists
           (requests := toy_requests) (pickle := toy_pickle)
           (toy_values true) (lit "get") (lit "https://www.site.to/threads/1")
           None None 30 empty_world).
  reflexivity.
Defined.

Lemma fetch_via_requests_session_no_credentials_witness :
  exists w',
    fetch_via_requests_session (toy_values false) (lit "POST")
      (lit "https://www.site.to/threads/1") None None 30 empty_world
    = (Raise (LibraryError "Exception: Could not retrieve valid session for dl"), w')
    /\ network w' = []
    /\ sessions_table w' = ∅.
Proof.
  apply (fetch_via_requests_session_no_credentials
           (requests := toy_requests) (pickle := toy_pickle)
           (toy_values false) (lit "POST") (lit "https://www.site.to/threads/1")
           None None 30 empty_world).
  - reflexivity.
  - left. reflexivity.
Defined.

Lemma created_session_is_reused_witness :
  retrieve_and_validate_session (toy_values true)
    (snd (create_and_persist_session (toy_values true) empty_world))
  = (Ok (Some 3%nat),
     snd (create_and_persist_session (toy_values true) empty_world)).
Proof.
  apply (created_session_is_reused (requests := toy_requests) (pickle := toy_pickle)
           (toy_values true) empty_world); done.
Defined.

(** ** The percentage in the log line of solve_captcha *)

Lemma difference_in_range (img1 img2 : Image) (q : Q) :
  calculate_pixel_based_difference img1 img2 = Ok q -> (0 <= q <= 100)%Q.
Proof.
  intros Hq. rewrite calculate_pixel_based_difference_eq in Hq.
  pose proof (zero_samples_bounds img1 img2) as Hz.
  destruct (true_div_percent
              ((total_samples img1 img2 - zero_samples img1 img2) * 100)
              (total_samples img1 img2)) as (q' & Hq' & Hrange); [lia| |congruence].
  unfold true_div in Hq.
  destruct (Z.eqb_spec (total_samples img1 img2) 0); [done|lia].
Qed.

Ltac range_cases :=
  repeat match goal with
         | |- context [(?a <=? ?b)%nat] => destruct (Nat.leb_spec a b)
         | |- context [(?a <? ?b)%nat] => destruct (Nat.ltb_spec a b)
         | H : context [(?a <=? ?b)%nat] |- _ => destruct (Nat.leb_spec a b)
         | H : context [(?a <? ?b)%nat] |- _ => destruct (Nat.ltb_spec a b)
         end;
  cbn [andb] in *; try lia.

Ltac same_bound H :=
  match type of H with
  | (_ <= _ <= inject_Z ?a)%Q =>
    match goal with
    | |- (_ <= _ <= inject_Z ?b)%Q => replace b with a by lia; exact H
    end
  end.

(** *** Sums of floats *)

Lemma float_round_nonneg (x : Q) : (0 <= x)%Q -> (0 <= float_round x)%Q.
Proof.
  intros Hx. change 0%Q with (float_round 0) at 1. apply float_round_le; lra.
Qed.

Lemma float_round_upper (x : Q) (z : Z) :
  (0 <= x <= inject_Z z)%Q -> (z < 9007199254740992)%Z ->
  (float_round x <= inject_Z z)%Q.
Proof.
  intros [Hx Hxz] Hz.
  assert (Hz0 : (0 <= z)%Z).
  { rewrite Zle_Qle. change (inject_Z 0) with 0%Q. lra. }
  rewrite <- (float_round_Z z) by (change (2 ^ 53)%Z with 9007199254740992%Z; lia).
  by apply float_round_le.
Qed.

Lemma difference_float_in_range (img1 img2 : Image) (d : Q) :
  calculate_pixel_based_difference_float img1 img2 = Ok d -> (0 <= d <= 100)%Q.
Proof.
  unfold calculate_pixel_based_difference_float.
  destruct (calculate_pixel_based_difference img1 img2) as [q|e] eqn:Hq; [|done].
  intros [= <-]. apply difference_in_range in Hq. split.
  - apply float_round_nonneg, Hq.
  - change 100%Q with (inject_Z 100). apply float_round_upper; [exact Hq|lia].
Qed.

Section ScoreBounds.
Context {Id Img : Type} (difference : Img -> Img -> result Q).
Hypothesis difference_range :
  forall a b q, difference a b = Ok q -> (0 <= q <= 100)%Q.

(** A total is at most 100 for every image it was compared with: all the
    images of the list but the one at [idx_i].  Up to 2^32 images these
    bounds are floats, and no sum is rounded beyond them. *)
Lemma inner_loop_bound (idx_i : nat) (img_i : Img) (rest : list (Id * Img)) :
  forall idx_j tot0 tot (k0 : Z),
    inner_loop difference float_add idx_i img_i idx_j rest tot0 = Ok tot ->
    (0 <= k0)%Z -> (k0 + Z.of_nat (length rest) <= 4294967296)%Z ->
    (0 <= tot0 <= inject_Z (100 * k0))%Q ->
    (0 <= tot
     <= inject_Z (100 * (k0 + Z.of_nat (length rest)
                         - (if (idx_j <=? idx_i)%nat
                               && (idx_i <? idx_j + length rest)%nat
                            then 1 else 0))))%Q.
Proof using Type*.
  induction rest as [|[cid_j img_j] rest IH];
    intros idx_j tot0 tot k0 Hloop Hk0 Hmany Htot0.
  - cbn in Hloop. injection Hloop as <-. cbn [length].
    range_cases; by same_bound Htot0.
  - cbn [inner_loop] in Hloop. cbn [length] in *.
    destruct (Nat.eqb_spec idx_i idx_j) as [->|Hne].
    + apply (IH _ _ _ k0) in Hloop; [|done|lia|done].
      range_cases; by same_bound Hloop.
    + destruct (difference img_i img_j) as [d|e] eqn:Hd; [|done]. cbn in Hloop.
      apply difference_range in Hd.
      apply (IH _ _ _ (k0 + 1)%Z) in Hloop; [|lia|lia|].
      * range_cases; by same_bound Hloop.
      * assert (Hsum : (0 <= tot0 + d <= inject_Z (100 * (k0 + 1)))%Q).
        { replace (100 * (k0 + 1))%Z with (100 * k0 + 100)%Z by lia.
          rewrite inject_Z_plus. change (inject_Z 100) with 100%Q. lra. }
        unfold float_add. split.
        -- apply float_round_nonneg. lra.
        -- apply float_round_upper; [done|lia].
Qed.

Lemma outer_loop_bound (pil_images rest : list (Id * Img)) :
  let bound (x : Id * Q) :=
    (0 <= snd x <= inject_Z (100 * (Z.of_nat (length pil_images) - 1)))%Q in
  (Z.of_nat (length pil_images) <= 4294967296)%Z ->
  forall idx_i acc diffs_pil,
    outer_loop difference 0%Q float_add pil_images idx_i rest acc = Ok diffs_pil ->
    idx_i + length rest = length pil_images ->
    Forall bound acc -> Forall bound diffs_pil.
Proof using Type*.
  intros bound Hmany.
  induction rest as [|[cid img] rest IH]; intros idx_i acc diffs_pil Hloop Hlen Hacc.
  - cbn in Hloop. by injection Hloop as <-.
  - cbn [outer_loop] in Hloop. cbn [length] in Hlen.
    destruct (inner_loop difference float_add idx_i img 0 pil_images 0%Q)
      as [tot|e] eqn:Hin; [|done].
    cbn in Hloop. apply IH in Hloop; [done|lia|].
    apply Forall_app. split; [done|]. apply Forall_singleton. unfold bound. cbn.
    apply (inner_loop_bound _ _ _ _ _ _ 0%Z) in Hin;
      [|lia|lia|by split; vm_compute].
    range_cases; by same_bound Hin.
Qed.

Lemma max_from_Forall {A K : Type} (gt : K -> K -> bool) (key : A -> K)
  (P : A -> Prop) (xs : list A) :
  forall best, P best -> Forall P xs -> P (max_from gt key best xs).
Proof.
  induction xs as [|x xs IH]; intros best Hbest Hxs; cbn [max_from]; [done|].
  apply Forall_cons in Hxs as [Hx Hxs]. destruct (gt (key x) (key best)); auto.
Qed.

Lemma select_outlier_bound (gt : Q -> Q -> bool) (pil_images : list (Id * Img))
  (identified : Id) (score : Q) :
  (Z.of_nat (length pil_images) <= 4294967296)%Z ->
  select_outlier difference 0%Q float_add gt pil_images = Ok (identified, score) ->
  pil_images <> []
  /\ (0 <= score <= inject_Z (100 * (Z.of_nat (length pil_images) - 1)))%Q.
Proof using Type*.
  unfold select_outlier, compute_diffs. intros Hmany Hsel.
  destruct (outer_loop difference 0%Q float_add pil_images 0 pil_images [])
    as [diffs|e] eqn:Hloop; [|done].
  cbn in Hsel. destruct diffs as [|x xs]; [done|]. cbn in Hsel.
  split.
  - intros ->. by cbn in Hloop.
  - apply outer_loop_bound in Hloop; [|done|done|done].
    apply Forall_cons in Hloop as [Hx Hxs].
    pose proof (max_from_Forall gt snd _ xs x Hx Hxs) as Hbest.
    cbn beta in Hbest. injection Hsel as Hsel. by rewrite Hsel in Hbest.
Qed.

End ScoreBounds.

(** The share per image, as a float, stays below 100: the greatest float
    below 100 that matters here is 100 - 2^-26. *)
Lemma float_share_below_100 (score : Q) (n : Z) :
  (1 <= n <= 4294967296)%Z ->
  (0 <= score <= inject_Z (100 * (n - 1)))%Q ->
  (0 <= float_div score (float_of_int n) < 100)%Q.
Proof.
  intros Hn [Hlow Hhigh]. unfold float_div, float_of_int.
  assert (Hfn : (float_round (inject_Z n) == inject_Z n)%Q)
    by (apply float_round_Z; change (2 ^ 53)%Z with 9007199254740992%Z; lia).
  assert (Hpos : (0 < inject_Z n)%Q)
    by (change 0%Q with (inject_Z 0); rewrite <- Zlt_Qlt; lia).
  assert (Hmany : (inject_Z n <= 4294967296)%Q)
    by (change 4294967296%Q with (inject_Z 4294967296); rewrite <- Zle_Qle; lia).
  replace (100 * (n - 1))%Z with (100 * n + -100)%Z in Hhigh by lia.
  rewrite inject_Z_plus, inject_Z_mult in Hhigh.
  change (inject_Z 100) with 100%Q in Hhigh.
  change (inject_Z (-100)) with (-100)%Q in Hhigh.
  set (p := (6710886399 # 67108864)%Q).
  assert (Hq : (0 <= score / float_round (inject_Z n) <= p)%Q).
  { rewrite Hfn. split.
    - apply Qle_shift_div_l; [done|]. lra.
    - apply Qle_shift_div_r; [done|]. unfold p. 
      assert (6710886399 # 67108864 == 100 - (1 # 67108864))%Q as -> by reflexivity.
      nra. }
  split.
  - apply float_round_nonneg. apply Hq.
  - apply Qle_lt_trans with p; [|reflexivity].
    assert (Hp : (float_round p == p)%Q) by (vm_compute; reflexivity).
    rewrite <- Hp. apply float_round_le; apply Hq.
Qed.

(** [int(x)] of a number from 0 up to, but not including, 100. *)
Lemma py_int_percent (q : Q) : (0 <= q)%Q -> (q < 100)%Q -> (0 <= py_int q <= 99)%Z.
Proof.
  destruct q as [a b]. unfold Qle, Qlt, py_int. cbn. intros Ha Hb.
  rewrite Z.quot_div_nonneg by lia.
  split; [apply Z.div_pos; lia|].
  assert (a / Z.pos b < 100)%Z; [|lia].
  apply Z.div_lt_upper_bound; lia.
Qed.

Lemma open_all_length `{PILLib} {Id : Type} (images : list (Id * bytes)) :
  forall acc pil_images,
    open_all images acc = Ok pil_images ->
    length pil_images = length acc + length images.
Proof.
  intros acc pil_images Hopen. apply open_all_ids in Hopen.
  apply (f_equal length) in Hopen. by rewrite length_app, !length_map in Hopen.
Qed.

Section Percentage.
Context `{PILLib} {Id : Type} `{Format Id}.
Context (hostname : str) (shared_state : shared_state_t).
Context (fetch_via_flaresolverr : flaresolverr Id).
Context (fetch_via_requests_session : requests_session Id).

(** X22 (solve_captcha, calculate_pixel_based_difference): for a
    challenge of at most 2^32 candidates, the percentage in the log line
    of a resolution is a whole number from 0 to 99.  The total of an
    image leaves out its comparison with itself, and is then divided by
    the number of all images: 100 is out of reach, even for an image that
    differs from every other one in every sample, and the rounding of the
    float sums and of the division does not reach it either. *)
Theorem solve_captcha_percentage (tr tr' : list (event Id))
  (outcome : result (list (string * value Id)))
  (reply : fs_result Id) (raw_ids : list Id) :
  fetch_via_flaresolverr tr "POST"%string (captcha_base_of shared_state hostname)
    (PostChallenge 0 1) 30%Z = Ok reply ->
  fs_json reply = Ok (JsonList raw_ids) ->
  (Z.of_nat (length raw_ids) <= 4294967296)%Z ->
  solve_captcha hostname shared_state fetch_via_flaresolverr
    fetch_via_requests_session tr = (outcome, tr') ->
  forall identified pct,
    In (InfoCaptcha identified pct) (drop (length tr) tr') ->
    (0 <= pct <= 99)%Z.
Proof.
  intros Hreply Hjson Hmany Hrun identified pct Hlogged.
  destruct (solve_captcha_cases _ _ _ _ _ _ _ Hrun)
    as [[-> [e ->]]|(reply' & raw_ids' & fetched & tr1 & Hreply' & Hjson' & _
                     & Hfetch & Hrest)].
  { rewrite drop_app_length in Hlogged. by destruct Hlogged. }
  assert (reply' = reply) as -> by congruence.
  assert (raw_ids' = raw_ids) as -> by congruence.
  destruct (fetch_images_in_order _ _ _ _ _ _ _ Hfetch) as (n & Hn & -> & Hok).
  assert (Hrequests : forall tail,
            In (InfoCaptcha identified pct)
               (drop (length tr)
                  (((tr ++ [challenge_request (captcha_base_of shared_state hostname)])
                    ++ map (image_request (captcha_base_of shared_state hostname))
                         (take n raw_ids)) ++ tail)) ->
            In (InfoCaptcha identified pct) tail).
  { intros tail. rewrite <- !app_assoc, drop_app_length. cbn [app].
    intros [Hin|Hin]; [done|]. apply in_app_or in Hin as [Hin|Hin]; [|done].
    apply in_map_iff in Hin as (c & Hc & _). discriminate Hc. }
  destruct Hrest as [[-> [e ->]]|Hdone].
  { specialize (Hrequests []). rewrite app_nil_r in Hrequests.
    by destruct (Hrequests Hlogged). }
  destruct Hdone as (images & pil & identified' & score & pct'
                     & -> & Hopen & Hsel & -> & Hpct & _).
  apply Hrequests in Hlogged as [[= <- <-]|[Hin|[]]]; [|done].
  apply open_all_length in Hopen. cbn in Hopen.
  destruct (Hok _ eq_refl) as [_ Hids]. cbn in Hids.
  apply (f_equal length) in Hids. rewrite !length_map in Hids.
  apply (select_outlier_bound _ (fun a b q => difference_float_in_range a b q))
    in Hsel as [Hsome Hscore]; [|lia].
  assert (Hlen : (1 <= Z.of_nat (length images))%Z)
    by (destruct pil; [done|cbn in Hopen; lia]).
  rewrite Hpct, Hopen in *.
  destruct (float_share_below_100 score (Z.of_nat (length images)))
    as [Hlow Hhigh]; [lia|done|].
  by apply py_int_percent.
Qed.

End Percentage.

Lemma solve_captcha_percentage_witness :
  In (InfoCaptcha 2%nat 22%Z)
     (snd (@solve_captcha toy_pil nat format_nat (lit "al") toy_state
             (toy_flaresolverr [1; 2; 3] (lit "1")) (toy_session good_replies) []))
  /\ (0 <= 22 <= 99)%Z.
Proof.
  split; [vm_compute; tauto|].
  eapply (@solve_captcha_percentage toy_pil nat format_nat (lit "al") toy_state
            (toy_flaresolverr [1; 2; 3] (lit "1")) (toy_session good_replies) [])
    with (identified := 2%nat).
  - reflexivity.
  - reflexivity.
  - cbn. lia.
  - vm_compute. reflexivity.
  - vm_compute. tauto.
Defined.

(** A run in which the rounding shows: the fourth candidate has the
    differences 50, 83.33333333333333, 83.33333333333333 and
    83.33333333333333, which add up to 299.99999999999994 as floats, and
    the log line says 59, where the quotients themselves add up to 300
    and a fifth of that is 60. *)
Example solve_captcha_float_share :
  @solve_captcha strip_pil nat format_nat (lit "al") toy_state
    (toy_flaresolverr [1; 2; 3; 4; 5] (lit "1")) (toy_session share_replies) []
  = (Ok [("response"%string, VStr (lit "1")); ("captcha_id"%string, VId 4)],
     [challenge_request (captcha_base_of toy_state (lit "al"));
      @image_request nat format_nat (captcha_base_of toy_state (lit "al")) 1;
      @image_request nat format_nat (captcha_base_of toy_state (lit "al")) 2;
      @image_request nat format_nat (captcha_base_of toy_state (lit "al")) 3;
      @image_request nat format_nat (captcha_base_of toy_state (lit "al")) 4;
      @image_request nat format_nat (captcha_base_of toy_state (lit "al")) 5;
      InfoCaptcha 4 59;
      answer_request (captcha_base_of toy_state (lit "al")) 4])
  /\ (exists score,
        select_outlier calculate_pixel_based_difference 0%Q Qplus Qgtb
          (imap (fun i r => (S i, strip_image (content r))) share_replies)
        = Ok (4, score)
        /\ (score == 300)%Q /\ py_int (score / 5) = 60%Z).
Proof.
  split; [vm_compute; reflexivity|].
  eexists. split; [vm_compute; reflexivity|]. split; reflexivity.
Qed.

(** ** quasarr/providers/imdb_metadata.py *)

Lemma split_space_nonempty (s : str) : split_space s <> [].
Proof.
  destruct s as [|c r]; [done|]. cbn.
  destruct (c =? 32)%N; [done|]. by destruct (split_space r).
Qed.

Lemma join_space_cons (piece : str) (rest : list str) :
  rest <> [] -> join_space (piece :: rest) = piece ++ 0x20%N :: join_space rest.
Proof. by destruct rest. Qed.

(** Joining what was split gives the text back, and no piece holds a
    space. *)
Lemma split_space_join (s : str) : join_space (split_space s) = s.
Proof.
  induction s as [|c r IH]; [done|]. cbn [split_space].
  destruct (N.eqb_spec c 32) as [->|Hc].
  - rewrite join_space_cons by apply split_space_nonempty. by rewrite IH.
  - pose proof (split_space_nonempty r) as Hne.
    destruct (split_space r) as [|piece [|piece' pieces]]; [done| |].
    + cbn in *. by rewrite IH.
    + rewrite join_space_cons by done. rewrite join_space_cons in IH by done.
      cbn. by rewrite <- IH.
Qed.

Lemma split_space_pieces (s : str) :
  Forall (fun piece => 0x20%N ∉ piece) (split_space s).
Proof.
  induction s as [|c r IH]; cbn [split_space].
  - apply Forall_singleton. apply not_elem_of_nil.
  - destruct (N.eqb_spec c 32) as [->|Hc].
    + apply Forall_cons. split; [apply not_elem_of_nil|done].
    + destruct (split_space r) as [|piece pieces].
      * apply Forall_singleton. intros Hin. apply list_elem_of_singleton in Hin. done.
      * apply Forall_cons in IH as [Hpiece Hpieces]. apply Forall_cons.
        split; [|done]. intros Hin. apply elem_of_cons in Hin as [|]; done.
Qed.

(** The last item that a filter keeps, and what comes after it. *)
Lemma last_filter {A} (keep : A -> bool) (xs : list A) (x : A) :
  last (List.filter keep xs) = Some x ->
  exists before after,
    xs = before ++ x :: after /\ keep x = true
    /\ Forall (fun y => keep y = false) after.
Proof.
  induction xs as [|y xs IH]; [done|]. cbn [List.filter].
  destruct (last (List.filter keep xs)) as [x'|] eqn:Hlast.
  - intros Hx.
    assert (x' = x) as ->.
    { destruct (keep y); [|congruence].
      destruct (List.filter keep xs) as [|z zs]; [done|].
      cbn in Hx, Hlast. congruence. }
    destruct (IH eq_refl) as (before & after & -> & Hkeep & Hafter).
    by exists (y :: before), after.
  - assert (Hnone : List.filter keep xs = []).
    { destruct (List.filter keep xs) as [|z zs] eqn:E; [done|].
      by rewrite last_cons in Hlast; destruct (last zs). }
    rewrite Hnone. destruct (keep y) eqn:Hy; [|done]. intros [= ->].
    exists [], xs. repeat split; [done|].
    apply List.Forall_forall. intros z Hz.
    destruct (keep z) eqn:Hkz; [|done].
    assert (In z (List.filter keep xs)) by (apply filter_In; done).
    rewrite Hnone in *. done.
Qed.

Section Imdb.
Context {imdb : ImdbLib}.

(** X23 (get_poster_link): a link that is returned was found in the
    [srcset] of the page of the title, which was requested once: it is
    the last of the pieces between the spaces of the [srcset] that
    have more than 10 characters. *)
Theorem get_poster_link_last_long_piece (user_agent : str) (debug : bool)
  (imdb_id : option str) (poster_link : str) (tr : list imdb_event) :
  get_poster_link user_agent debug imdb_id = (Ok (Some poster_link), tr) ->
  exists url request poster_set before after,
    url = lit "https://www.imdb.com/title/" ++ get_or [] imdb_id ++ lit "/"
    /\ tr = [ImdbGet url [(lit "User-Agent", user_agent)]]
    /\ requests_get_text url [(lit "User-Agent", user_agent)] = Ok request
    /\ poster_srcset request = Ok poster_set
    /\ poster_set = join_space (before ++ poster_link :: after)
    /\ Forall (fun piece => 0x20%N ∉ piece) (before ++ poster_link :: after)
    /\ 10 < length poster_link
    /\ Forall (fun piece => length piece <= 10) after.
Proof.
  unfold get_poster_link. cbv zeta.
  destruct (truthy_opt imdb_id); [|by destruct debug].
  destruct (requests_get_text _ _) as [request|e] eqn:Hget; [|done].
  destruct (poster_srcset request) as [poster_set|e] eqn:Hset;
    [|by cbn; destruct debug].
  cbn [mbind result_bind]. unfold last_item.
  destruct (last _) as [link|] eqn:Hlast; [|by cbn; destruct debug].
  apply last_filter in Hlast as (before & after & Hsplit & Hlong & Hafter).
  apply Nat.ltb_lt in Hlong.
  assert (Htruthy : truthy link = true) by (destruct link; [cbn in Hlong; lia|done]).
  cbn [truthy_opt]. rewrite Htruthy. cbn [negb andb]. intros [= <- <-].
  eexists _, request, poster_set, before, after.
  repeat split; try done.
  - by rewrite <- Hsplit, split_space_join.
  - rewrite <- Hsplit. apply split_space_pieces.
  - eapply List.Forall_impl; [|exact Hafter]. intros piece Hp.
    by apply Nat.ltb_ge in Hp.
Qed.

End Imdb.

Lemma get_poster_link_last_long_piece_witness :
  exists url request poster_set before after,
    url = lit "https://www.imdb.com/title/" ++ get_or [] (Some (lit "tt0111161"))
          ++ lit "/"
    /\ [ImdbGet (lit "https://www.imdb.com/title/tt0111161/")
          [(lit "User-Agent", lit "Mozilla/5.0")]]
       = [ImdbGet url [(lit "User-Agent", lit "Mozilla/5.0")]]
    /\ @requests_get_text toy_imdb url [(lit "User-Agent", lit "Mozilla/5.0")]
       = Ok request
    /\ @poster_srcset toy_imdb request = Ok poster_set
    /\ poster_set = join_space (before ++ lit "https://m.media/b.jpg" :: after)
    /\ Forall (fun piece => 0x20%N ∉ piece)
              (before ++ lit "https://m.media/b.jpg" :: after)
    /\ 10 < length (lit "https://m.media/b.jpg")
    /\ Forall (fun piece => length piece <= 10) after.
Proof.
  apply (get_poster_link_last_long_piece (imdb := toy_imdb) (lit "Mozilla/5.0")
           true (Some (lit "tt0111161"))).
  reflexivity.
Defined.

(** ** quasarr/downloads/sources/dl.py: get_dl_download_links *)

Lemma same_elsewhere_table (w w' : world) :
  sessions_table w' = sessions_table w -> same_elsewhere w w'.
Proof. intros Htab key _. by rewrite Htab. Qed.

Lemma same_elsewhere_insert (w w' : world) (token : str) :
  sessions_table w' = <[hostname := token]> (sessions_table w) ->
  same_elsewhere w w'.
Proof. intros Htab key Hkey. rewrite Htab. by apply lookup_insert_ne. Qed.

Lemma same_elsewhere_trans (w1 w2 w3 : world) :
  same_elsewhere w1 w2 -> same_elsewhere w2 w3 -> same_elsewhere w1 w3.
Proof. intros H12 H23 key Hkey. by rewrite H23, H12. Qed.

Section DlFacts.
Context {requests : RequestsLib} {pickle : PickleLib}.
Context {html : HtmlLib} {thread : ThreadLib}.

(** *** No function of the module touches another key, and only a token
    that is not text makes one raise *)

Lemma create_and_persist_session_elsewhere (shared_state : shared_values)
  (w w' : world) (r : result (option Session)) :
  create_and_persist_session shared_state w = (r, w') -> same_elsewhere w w'.
Proof.
  intros Hrun. apply create_and_persist_session_cases in Hrun.
  destruct r as [[sess|]|e].
  - destruct Hrun as (token & _ & _ & _ & Htab & _).
    by apply (same_elsewhere_insert _ _ token).
  - destruct Hrun as [Htab _]. by apply same_elsewhere_table.
  - destruct Hrun as [Htab _]. by apply same_elsewhere_table.
Qed.

Lemma retrieve_and_validate_session_elsewhere (shared_state : shared_values)
  (w w' : world) (r : result (option Session)) :
  retrieve_and_validate_session shared_state w = (r, w') -> same_elsewhere w w'.
Proof.
  intros Hrun.
  apply retrieve_and_validate_session_cases in Hrun
    as [(? & _ & ->)|(w0 & Htab & _ & Hrun)]; [done|].
  apply create_and_persist_session_elsewhere in Hrun.
  intros key Hkey. rewrite (Hrun key Hkey). by rewrite Htab.
Qed.

Lemma fetch_via_requests_session_elsewhere (shared_state : shared_values)
  (method target_url : str) (post_data get_params : form) (timeout : Z)
  (w w' : world) (r : result http_reply) :
  fetch_via_requests_session shared_state method target_url post_data get_params
    timeout w = (r, w') ->
  same_elsewhere w w'.
Proof.
  unfold fetch_via_requests_session.
  destruct (retrieve_and_validate_session shared_state w) as [[[sess0|]|e] w1] eqn:Hret;
    apply retrieve_and_validate_session_elsewhere in Hret;
    [|by intros [= <- <-]..].
  assert (Hend : forall reply w2,
            sessions_table w2 = sessions_table w1 ->
            match reply with
            | Raise e => (Raise e, w2)
            | Ok (resp, sess) =>
              match _persist_session_to_db w2 sess with
              | (Raise e, w) => (Raise e, w)
              | (Ok _, w) => (Ok resp, w)
              end
            end = (r, w') -> same_elsewhere w w').
  { intros [[resp sess]|e] w2 Htab; unfold _persist_session_to_db.
    - destruct (token_of sess) as [token|]; intros [= <- <-].
      + eapply same_elsewhere_trans; [exact Hret|].
        apply (same_elsewhere_insert _ _ token). cbn. by rewrite Htab.
      + eapply same_elsewhere_trans; [exact Hret|]. by apply same_elsewhere_table.
    - intros [= <- <-].
      eapply same_elsewhere_trans; [exact Hret|]. by apply same_elsewhere_table. }
  destruct (is_GET method); by apply Hend.
Qed.

Lemma create_and_persist_session_raises (shared_state : shared_values)
  (w w' : world) (e : exn) :
  (forall sess, is_Some (token_of sess)) ->
  create_and_persist_session shared_state w = (Raise e, w') ->
  config shared_state "Hostnames" hostname = None
  /\ e = LibraryError "AttributeError"
  /\ sessions_table w' = sessions_table w /\ network w' = network w.
Proof.
  intros Htext Hrun. apply create_and_persist_session_cases in Hrun.
  destruct Hrun as (_ & _ & [(Hhost & -> & ->)|[sess Hsess]]); [done|].
  destruct (Htext sess) as [token Htoken]. congruence.
Qed.

Lemma retrieve_and_validate_session_raises (shared_state : shared_values)
  (w w' : world) (e : exn) :
  (forall sess, is_Some (token_of sess)) ->
  retrieve_and_validate_session shared_state w = (Raise e, w') ->
  config shared_state "Hostnames" hostname = None
  /\ e = LibraryError "AttributeError"
  /\ sessions_table w' = sessions_table w /\ network w' = network w.
Proof.
  intros Htext Hrun.
  apply retrieve_and_validate_session_cases in Hrun
    as [(? & [=] & _)|(w0 & Htab & Hnet & Hrun)].
  apply create_and_persist_session_raises in Hrun as (Hhost & -> & Htab' & Hnet');
    [|done].
  by rewrite Htab', Hnet'.
Qed.

Lemma thread_links_elsewhere (shared_state : shared_values) (url title : str)
  (w w' : world) (r : result (option download)) :
  thread_links shared_state url title w = (r, w') -> same_elsewhere w w'.
Proof.
  unfold thread_links.
  destruct (fetch_via_requests_session _ _ _ _ _ _ _) as [[response|e] w1] eqn:Hfetch;
    apply fetch_via_requests_session_elsewhere in Hfetch; [|by intros [= <- <-]].
  intros Hrun. eapply same_elsewhere_trans; [exact Hfetch|].
  apply same_elsewhere_table.
  repeat match type of Hrun with
         | (if ?b then _ else _) = _ => destruct b
         | match ?x with _ => _ end = _ => destruct x
         end; by injection Hrun as <- <-.
Qed.

(** X24 (get_dl_download_links): when the token of every session is
    text, as the output of [b64encode] is, the only exception that leaves
    a call is the [AttributeError] of [cookies.set], raised before any
    request when a session has to be created and the configuration has no
    host name for dl (line 77 is not inside the [try]).  With a host name
    the call returns: what goes wrong after a session was found (the
    request raises, the page has no post, ...) ends in the empty result.
    And whatever happens, no key of the table other than dl is
    touched. *)
Theorem get_dl_download_links_returns (shared_state : shared_values)
  (url : str) (mirror : option str) (title : str) (w : world) :
  (forall sess, is_Some (token_of sess)) ->
  exists r w',
    get_dl_download_links shared_state url mirror title w = (r, w')
    /\ same_elsewhere w w'
    /\ (is_Some (config shared_state "Hostnames" hostname) ->
        exists found, r = Ok found)
    /\ (forall e, r = Raise e ->
          e = LibraryError "AttributeError"
          /\ sessions_table w' = sessions_table w /\ network w' = network w).
Proof.
  intros Htext. unfold get_dl_download_links.
  destruct (retrieve_and_validate_session shared_state w) as [r1 w1] eqn:Hret.
  pose proof (retrieve_and_validate_session_elsewhere _ _ _ _ Hret) as Hframe.
  destruct r1 as [[sess|]|e].
  - destruct (thread_links shared_state url title w1) as [[found|e] w2] eqn:Hthread;
      apply thread_links_elsewhere in Hthread.
    + eexists _, _. split; [done|]. split; [by eapply same_elsewhere_trans|].
      split; [by eexists|done].
    + eexists _, _. split; [done|]. split; [|split; [by eexists|done]].
      eapply same_elsewhere_trans; [exact Hframe|].
      eapply same_elsewhere_trans; [exact Hthread|].
      intros key Hkey. by apply lookup_delete_ne.
  - eexists _, _. split; [done|]. split; [done|]. split; [by eexists|done].
  - apply retrieve_and_validate_session_raises in Hret
      as (Hhost & -> & Htab & Hnet); [|done].
    eexists _, _. split; [done|]. split; [done|]. split.
    + rewrite Hhost. by intros [? ?].
    + by intros e [= <-].
Qed.

(** X25 (get_dl_download_links): links are returned only from a page that
    was fetched with status 200 as the last request of the call: they are
    what [extract_links_from_post] finds in the content of its first
    post, there is at least one, the title is the one passed in, and the
    table holds under dl the session as the request left it. *)
Theorem get_dl_download_links_found (shared_state : shared_values)
  (url : str) (mirror : option str) (title : str) (w w' : world)
  (found : download) :
  get_dl_download_links shared_state url mirror title w = (Ok (Some found), w') ->
  exists before sess0 sess response first_post post_content post_html,
    network w' = before ++ [NetGet url None 30]
    /\ session_get before sess0 url None 30 = Ok (response, sess)
    /\ sessions_table w' !! hostname = token_of sess
    /\ reply_status response = 200%Z
    /\ select_first_post (reply_text response) = Ok (Some first_post)
    /\ select_bbWrapper first_post = Ok (Some post_content)
    /\ tag_str post_content = Ok post_html
    /\ dl_links found = extract_links_from_post post_html
    /\ dl_links found <> []
    /\ dl_title found = title.
Proof.
  unfold get_dl_download_links.
  destruct (retrieve_and_validate_session shared_state w) as [[[sess1|]|e] w1];
    [|done..].
  destruct (thread_links shared_state url title w1) as [[r|e] w2] eqn:Hthread;
    [|done].
  intros [= -> ->]. revert Hthread. unfold thread_links.
  destruct (fetch_via_requests_session _ _ _ _ _ _ _) as [[response|e] w3] eqn:Hfetch;
    [|done].
  apply fetch_via_requests_session_ok in Hfetch
    as (pre & sess0 & sess & token & _ & Hnet & Hanswer & Htoken & Htab).
  destruct (Z.eqb_spec (reply_status response) 200) as [Hstatus|]; [|done].
  cbn [negb].
  destruct (select_first_post _) as [[first_post|]|] eqn:Hpost; [|done..].
  destruct (select_bbWrapper _) as [[post_content|]|] eqn:Hcontent; [|done..].
  destruct (tag_str _) as [post_html|] eqn:Hhtml; [|done].
  destruct (extract_links_from_post post_html) as [|link links] eqn:Hlinks; [done|].
  destruct (get_text _) as [post_text|]; [|done].
  intros [= <- <-].
  exists (network w1 ++ pre), sess0, sess, response, first_post, post_content,
    post_html.
  cbn. rewrite Hnet, Htab, Htoken, lookup_insert_eq, app_assoc.
  by repeat split.
Qed.

(** X26 (get_dl_download_links, fetch_via_requests_session,
    invalidate_session): when a session is stored and loads, and the
    request for the page raises, the call sends that request alone, gives
    the empty result, and leaves nothing stored under dl: the next call
    has to log in again. *)
Theorem get_dl_download_links_drops_session (shared_state : shared_values)
  (url : str) (mirror : option str) (title : str) (w : world)
  (sess : Session) (e : exn) :
  sessions_table w !! hostname = token_of sess ->
  is_Some (token_of sess) ->
  b64encode (pickle_dumps sess) <> [] ->
  b64decode_bytes (b64encode (pickle_dumps sess)) = Ok (pickle_dumps sess) ->
  pickle_loads (pickle_dumps sess) = Ok (IsSession sess) ->
  session_get (network w) sess url None 30 = Raise e ->
  exists w',
    get_dl_download_links shared_state url mirror title w = (Ok None, w')
    /\ sessions_table w' = delete hostname (sessions_table w)
    /\ network w' = network w ++ [NetGet url None 30].
Proof.
  intros Hstored Htext Hne Hb64 Hpickle Hraise.
  pose proof (stored_session_is_reused shared_state w sess Hstored Hne Hb64
                Hpickle Htext) as Hret.
  unfold get_dl_download_links, thread_links, fetch_via_requests_session.
  rewrite !Hret.
  change (is_GET (lit "GET")) with true. cbv iota. rewrite Hraise.
  by eexists.
Qed.

End DlFacts.

(** Without a host name for dl the exception of [cookies.set] leaves the
    call, and nothing was requested. *)
Example get_dl_download_links_without_host :
  get_dl_download_links (requests := toy_requests) (pickle := toy_pickle)
    (html := toy_html) (thread := toy_thread) toy_values_without_host
    (lit "https://www.site.to/threads/1") None (lit "Title") empty_world
  = (Raise (LibraryError "AttributeError"), empty_world).
Proof. reflexivity. Qed.

Lemma toy_token_of (sess : nat) :
  is_Some (@token_of toy_requests toy_pickle sess).
Proof.
  unfold token_of. cbn.
  assert (Hdots : is_Some (utf8_decode (repeat x2e sess))).
  { induction sess as [|sess [t IH]]; [by eexists|].
    cbn. rewrite IH. by eexists. }
  destruct Hdots as [t Ht]. rewrite Ht. by eexists.
Qed.

Lemma get_dl_download_links_returns_witness :
  exists r w',
    get_dl_download_links (requests := toy_requests) (pickle := toy_pickle)
      (html := toy_html) (thread := toy_thread) (toy_values true)
      (lit "https://www.site.to/threads/1") None (lit "Title") empty_world
    = (r, w')
    /\ same_elsewhere empty_world w'
    /\ (is_Some (config (toy_values true) "Hostnames" hostname) ->
        exists found, r = Ok found)
    /\ (forall e, r = Raise e ->
          e = LibraryError "AttributeError"
          /\ sessions_table w' = sessions_table empty_world
          /\ network w' = network empty_world).
Proof.
  apply (get_dl_download_links_returns (requests := toy_requests)
           (pickle := toy_pickle) (html := toy_html) (thread := toy_thread)).
  exact toy_token_of.
Defined.

Lemma get_dl_download_links_found_witness :
  exists before sess0 sess response first_post post_content post_html,
    network (snd (get_dl_download_links (requests := toy_requests)
                    (pickle := toy_pickle) (html := toy_html)
                    (thread := toy_thread) (toy_values true)
                    (lit "https://www.site.to/threads/1") None (lit "Title")
                    empty_world))
    = before ++ [NetGet (lit "https://www.site.to/threads/1") None 30]
    /\ @session_get toy_requests before sess0
         (lit "https://www.site.to/threads/1") None 30 = Ok (response, sess)
    /\ sessions_table
         (snd (get_dl_download_links (requests := toy_requests)
                 (pickle := toy_pickle) (html := toy_html)
                 (thread := toy_thread) (toy_values true)
                 (lit "https://www.site.to/threads/1") None (lit "Title")
                 empty_world)) !! hostname
       = @token_of toy_requests toy_pickle sess
    /\ reply_status response = 200%Z
    /\ @select_first_post toy_thread (reply_text response) = Ok (Some first_post)
    /\ @select_bbWrapper toy_thread first_post = Ok (Some post_content)
    /\ @tag_str toy_thread post_content = Ok post_html
    /\ [lit "https://rapidgator.net/file/1"; lit "https://filecrypt.cc/c/2"]
       = @extract_links_from_post toy_html post_html
    /\ [lit "https://rapidgator.net/file/1"; lit "https://filecrypt.cc/c/2"] <> []
    /\ lit "Title" = lit "Title".
Proof.
  apply (get_dl_download_links_found (requests := toy_requests)
           (pickle := toy_pickle) (html := toy_html) (thread := toy_thread)
           (toy_values true) (lit "https://www.site.to/threads/1") None
           (lit "Title") empty_world _
           {| dl_links := [lit "https://rapidgator.net/file/1";
                           lit "https://filecrypt.cc/c/2"];
              dl_password := lit "www.site.to";
              dl_title := lit "Title" |}).
  reflexivity.
Defined.

Lemma get_dl_download_links_drops_session_witness :
  exists w',
    get_dl_download_links (requests := toy_requests) (pickle := toy_pickle)
      (html := toy_html) (thread := toy_thread) (toy_values true)
      (lit "https://unreachable.site.to/threads/1") None (lit "Title")
      toy_world_with_session
    = (Ok None, w')
    /\ sessions_table w' = delete hostname (sessions_table toy_world_with_session)
    /\ network w' = [] ++ [NetGet (lit "https://unreachable.site.to/threads/1") None 30].
Proof.
  apply (get_dl_download_links_drops_session (requests := toy_requests)
           (pickle := toy_pickle) (html := toy_html) (thread := toy_thread)
           (toy_values true) (lit "https://unreachable.site.to/threads/1") None
           (lit "Title") toy_world_with_session 3%nat
           (LibraryError "ConnectionError")).
  - reflexivity.
  - by eexists.
  - done.
  - reflexivity.
  - reflexivity.
  - reflexivity.
Defined.

(** ** The float that the program holds

    What was shown of the quotient of [calculate_pixel_based_difference]
    holds of the float it is rounded to. *)

Lemma calculate_pixel_based_difference_float_symmetric (a b : Image) :
  calculate_pixel_based_difference_float a b
  = calculate_pixel_based_difference_float b a.
Proof.
  unfold calculate_pixel_based_difference_float.
  by rewrite (difference_of_same_image a b b a (ImageChops_difference_comm a b)).
Qed.

Lemma calculate_pixel_based_difference_float_defined (a b : Image) :
  0 < fst (im_size a) -> 0 < snd (im_size a) ->
  0 < fst (im_size b) -> 0 < snd (im_size b) ->
  exists d, calculate_pixel_based_difference_float a b = Ok d
            /\ (0 <= d <= 100)%Q.
Proof.
  intros Hwa Hha Hwb Hhb.
  destruct (difference_defined a b Hwa Hha Hwb Hhb) as (q & Hq & _).
  exists (float_round q).
  assert (Hd : calculate_pixel_based_difference_float a b = Ok (float_round q))
    by (unfold calculate_pixel_based_difference_float; by rewrite Hq).
  split; [done|]. by apply (difference_float_in_range a b).
Qed.

Lemma calculate_pixel_based_difference_float_undefined (a b : Image) :
  fst (im_size a) * snd (im_size a) = 0 \/ fst (im_size b) * snd (im_size b) = 0 ->
  calculate_pixel_based_difference_float a b = Raise ZeroDivisionError.
Proof.
  intros Hzero. unfold calculate_pixel_based_difference_float.
  by rewrite (difference_undefined a b Hzero).
Qed.

(** Two candidates tie in floats too: 0.0 + d is d. *)
Lemma select_outlier_two_candidates_float {Id : Type} (c1 c2 : Id) (a b : Image) :
  0 < fst (im_size a) -> 0 < snd (im_size a) ->
  0 < fst (im_size b) -> 0 < snd (im_size b) ->
  select_outlier calculate_pixel_based_difference_float 0%Q float_add Qgtb
    [(c1, a); (c2, b)]
  = Ok (c1, float_add 0 (diffPercent_float a b)).
Proof.
  intros Hwa Hha Hwb Hhb. unfold select_outlier.
  rewrite (compute_diffs_scores calculate_pixel_based_difference_float
             diffPercent_float).
  - cbn [mbind result_bind aggregateScores imap aggregateScore others take drop
         app map fold_left fst snd compose py_max max_from].
    assert (Hsym : diffPercent_float b a = diffPercent_float a b).
    { unfold diffPercent_float. f_equal.
      apply calculate_pixel_based_difference_float_symmetric. }
    by rewrite Hsym, Qgtb_irrefl.
  - apply diffPercent_float_defined. intros img [<-|[<-|[]]]; done.
Qed.

(** Rounding turns no number from 2^-1022 on into zero, so that the float
    difference of two images with fewer than 2^1000 samples is 0.0
    exactly when the quotient is zero. *)
Lemma float_round_positive (q : Q) :
  (pow2 (-1022) <= q)%Q -> (0 < float_round q)%Q.
Proof.
  intros Hq. pose proof (pow2_pos (-1022)) as Hmin.
  assert (Hpos : (0 < q)%Q) by lra.
  unfold float_round. pose proof (Qnum_sign q) as Hsign.
  destruct (Qnum q); [lra| |lra].
  destruct (ilog2_spec q Hpos) as [_ Hup].
  assert (He : (-1022 <= ilog2 q)%Z).
  { destruct (Z_le_gt_dec (-1022) (ilog2 q)) as [|Hlow]; [done|]. exfalso.
    pose proof (pow2_le (ilog2 q + 1) (-1022) ltac:(lia)). lra. }
  pose proof (float_round_pos_lower q Hpos He).
  pose proof (pow2_pos (ilog2 q)). lra.
Qed.

Lemma calculate_pixel_based_difference_float_zero (a b : Image) (q : Q) :
  (total_samples a b < 2 ^ 1000)%Z ->
  calculate_pixel_based_difference a b = Ok q ->
  calculate_pixel_based_difference_float a b = Ok (float_round q)
  /\ ((float_round q == 0)%Q <-> (q == 0)%Q).
Proof.
  intros Hsmall Hq.
  split; [unfold calculate_pixel_based_difference_float; by rewrite Hq|].
  pose proof (difference_in_range a b q Hq) as [Hq0 _].
  rewrite calculate_pixel_based_difference_eq in Hq. unfold true_div in Hq.
  pose proof (zero_samples_bounds a b) as Hz.
  destruct (Z.eqb_spec (total_samples a b) 0) as [|Htotal]; [done|].
  injection Hq as <-.
  set (t := total_samples a b) in *.
  set (n := ((t - zero_samples a b) * 100)%Z).
  assert (Ht : (0 < t)%Z) by lia.
  split.
  - intros Hzero. apply percent_zero; [done|].
    destruct (Z.eq_dec n 0%Z) as [|Hn]; [done|exfalso].
    assert (Hn100 : (100 <= n)%Z) by (unfold n in *; lia).
    assert (Hbig : (pow2 (-1022) <= inject_Z n / inject_Z t)%Q).
    { assert (Htq : (0 < inject_Z t)%Q)
        by (change 0%Q with (inject_Z 0); by rewrite <- Zlt_Qlt).
      apply Qle_shift_div_l; [done|].
      assert (Htq2 : (inject_Z t <= inject_Z (2 ^ 1000))%Q)
        by (rewrite <- Zle_Qle; lia).
      rewrite <- pow2_nonneg in Htq2 by lia.
      assert (Hnq : (100 <= inject_Z n)%Q)
        by (change 100%Q with (inject_Z 100); by rewrite <- Zle_Qle).
      pose proof (pow2_add (-1022) 1000) as Hadd.
      change (-1022 + 1000)%Z with (-22)%Z in Hadd.
      assert (Hsmall22 : (pow2 (-22) <= 100)%Q) by (vm_compute; discriminate).
      pose proof (pow2_pos (-1022)). pose proof (pow2_pos 1000). nra. }
    apply float_round_positive in Hbig. lra.
  - intros Hzero.
    assert (E : float_round (inject_Z n / inject_Z t) = float_round 0).
    { unfold float_round.
      assert (Hnum : Qnum (inject_Z n / inject_Z t) = 0%Z).
      { apply percent_zero in Hzero; [|done]. rewrite Hzero.
        destruct t; [lia| |lia]. reflexivity. }
      by rewrite Hnum. }
    by rewrite E.
Qed.
